(** * ClientIsoCardWatcher: frame-coalesced transform updates

    A shallow embedding of [src/pages/ClientIsoCardWatcher.tsx]: the React
    component that mirrors server-side physics into an IsoCard scene.  The
    component receives JSON text over a socket, buffers the transform updates
    it carries in a [Map] keyed by id or name, and applies the buffer to the
    scene graph once per animation frame.

    The file is organised as the source is: JavaScript values and the
    operators the component uses on them, the three.js structures it touches,
    the component's fields, and then its methods in source order.  What the
    component calls but does not define (the JSON parser, the clock, number
    formatting, three.js' Euler conversion, the IsoCard scene methods) is the
    interface [Host].  Where the component hands a value to three.js, the
    library is modelled as far as the component's result depends on it:
    [Vector3.set] keeps the old [z] when given none, and a scene object
    recomputes its Euler angles when its quaternion is written. *)

From Stdlib Require Import String Ascii List Bool Arith ZArith Lia.
From Stdlib Require Import Floats.PrimFloat Floats.SpecFloat Floats.FloatOps.
From Stdlib Require Numbers.Cyclic.Int63.Uint63 Floats.FloatAxioms.
From Stdlib Require Import Strings.Byte Numbers.DecimalString.
Import ListNotations.

#[local] Set Warnings "-register-all".
#[local] Open Scope string_scope.
#[local] Open Scope list_scope.

(* ================================================================== *)
(** ** JavaScript values *)
(* ================================================================== *)

Module JS.

(** What [JSON.parse] returns, plus [undefined], which the component's own
    object literals introduce ([id: o?.id], [layerId: it.layerId ?? d]).
    Numbers are IEEE doubles.  A string, in JavaScript a sequence of UTF-16
    code units, is kept as the bytes of its UTF-8 encoding (see
    [code_units] below).  An object is the list of its own properties in
    enumeration order, which the component observes only through
    [Object.keys] of a received batch; when a name is listed twice (JSON
    text may do so) the last member is the property's value, as
    [JSON.parse] resolves it. *)
Inductive value : Type :=
| VUndef
| VNull
| VBool (b : bool)
| VNum (n : float)
| VStr (s : string)
| VArr (items : list value)
| VObj (fields : list (string * value)).

Definition obj := list (string * value).

(** An exception value: enough of [Error] for [e?.message || e]. *)
Record exn := { exn_name : string; exn_message : string }.

(** [e?.message || e] inside a string concatenation: the message, or, when
    it is empty, [String(e)], which for an empty message is the name. *)
Definition exn_text (e : exn) : string :=
  if String.eqb (exn_message e) "" then exn_name e else exn_message e.

(** *** Truthiness, [??] and [||] *)

Definition truthy (v : value) : bool :=
  match v with
  | VUndef | VNull => false
  | VBool b => b
  | VNum n => negb (PrimFloat.is_zero n || PrimFloat.is_nan n)
  | VStr s => negb (String.eqb s "")
  | VArr _ | VObj _ => true
  end.

Definition nullish (v : value) : bool :=
  match v with
  | VUndef | VNull => true
  | _ => false
  end.

(** [a ?? b] *)
Definition coalesce (a b : value) : value := if nullish a then b else a.

(** [a || b] *)
Definition js_or (a b : value) : value := if truthy a then a else b.

Declare Scope js_scope.
Delimit Scope js_scope with js.
Infix "??" := coalesce (at level 50, left associativity) : js_scope.
Infix "|||" := js_or (at level 50, left associativity) : js_scope.
#[local] Open Scope js_scope.

(** *** Own properties *)

(** The value of the own property [k]: the last member of that name. *)
Fixpoint field_get (k : string) (fs : obj) : option value :=
  match fs with
  | [] => None
  | (k', v) :: rest =>
      match field_get k rest with
      | Some w => Some w
      | None => if String.eqb k' k then Some v else None
      end
  end.

Definition has_own (k : string) (fs : obj) : bool :=
  match field_get k fs with Some _ => true | None => false end.

(** [o.k] on an object: [undefined] when [k] is not an own property (the
    names the component reads are never found on [Object.prototype]). *)
Definition prop (k : string) (fs : obj) : value :=
  match field_get k fs with Some v => v | None => VUndef end.

(** [o.k = v]: an existing property keeps its place in the enumeration
    order, a new one goes last. *)
Definition field_set (k : string) (v : value) (fs : obj) : obj :=
  if has_own k fs
  then map (fun kv => if String.eqb (fst kv) k then (fst kv, v) else kv) fs
  else fs ++ [(k, v)].

Definition string_of_nat (n : nat) : string :=
  NilEmpty.string_of_uint (Nat.to_uint n).

Definition float_of_nat (n : nat) : float :=
  PrimFloat.of_uint63 (Uint63.of_Z (Z.of_nat n)).

Fixpoint indexed {A} (i : nat) (l : list A) : list (string * A) :=
  match l with
  | [] => []
  | x :: rest => (string_of_nat i, x) :: indexed (S i) rest
  end.

(** *** Strings *)

(** The bytes of a string are the (generalised) UTF-8 encoding of its code
    points: a code point below U+10000, a lone surrogate included, takes one
    to three bytes, and a surrogate pair the four bytes of the code point it
    stands for.  [code_points] cuts the bytes into code points, which is
    what iterating a string yields. *)
Fixpoint code_points (s : string) : list string :=
  match s with
  | EmptyString => []
  | String a rest =>
      if N.ltb (N_of_ascii a) 192 then String a EmptyString :: code_points rest
      else
        match rest with
        | EmptyString => [String a EmptyString]
        | String b rest2 =>
            if N.ltb (N_of_ascii a) 224
            then String a (String b EmptyString) :: code_points rest2
            else
              match rest2 with
              | EmptyString => [String a (String b EmptyString)]
              | String c rest3 =>
                  if N.ltb (N_of_ascii a) 240
                  then String a (String b (String c EmptyString))
                       :: code_points rest3
                  else
                    match rest3 with
                    | EmptyString => [String a (String b (String c EmptyString))]
                    | String d rest4 =>
                        String a (String b (String c (String d EmptyString)))
                        :: code_points rest4
                    end
              end
        end
  end.

(** The three bytes of a code unit from U+0800 on. *)
Definition unit_bytes (u : N) : string :=
  String (ascii_of_N (224 + u / 4096))
    (String (ascii_of_N (128 + (u / 64) mod 64))
       (String (ascii_of_N (128 + u mod 64)) EmptyString)).

(** The two surrogates of a code point from U+10000 on, given its four
    bytes. *)
Definition surrogates (a b c d : ascii) : list string :=
  let cp :=
    ((N_of_ascii a mod 8) * 262144 + (N_of_ascii b mod 64) * 4096
     + (N_of_ascii c mod 64) * 64 + N_of_ascii d mod 64)%N in
  let v := (cp - 65536)%N in
  [unit_bytes (55296 + v / 1024)%N; unit_bytes (56320 + v mod 1024)%N].

(** The UTF-16 code units of a string, each as a string of its own: what
    [length] counts and an index reads. *)
Definition code_units (s : string) : list string :=
  flat_map
    (fun p =>
       match p with
       | String a (String b (String c (String d EmptyString))) =>
           surrogates a b c d
       | _ => [p]
       end)
    (code_points s).

(** [s[0]], [s[1]], ... *)
Definition chars (s : string) : list value := map VStr (code_units s).

(** What [for (const c of s)] and [const [a, b, c] = s] go through. *)
Definition points (s : string) : list value := map VStr (code_points s).

(** The own enumerable properties a spread [{...v}] copies: an object's
    members, an array's elements and a string's characters under their
    indices, nothing for the other primitives and for [null]/[undefined]. *)
Definition own_props (v : value) : obj :=
  match v with
  | VObj fs => fs
  | VArr items => indexed 0 items
  | VStr s => indexed 0 (chars s)
  | _ => []
  end.

(** [{...acc, ...v}] continued from the literal built so far. *)
Definition spread (acc : obj) (v : value) : obj :=
  fold_left (fun a kv => field_set (fst kv) (snd kv) a) (own_props v) acc.

(** [v.k] and [v?.k] for a name [k] that is not an array index.  On
    [null]/[undefined] this is the optional-chaining result; the one plain
    read the component makes on a possibly-null value ([msg.type]) is
    guarded where it occurs. *)
Definition js_get (v : value) (k : string) : value :=
  match v with
  | VObj fs => prop k fs
  | VArr items =>
      if String.eqb k "length" then VNum (float_of_nat (List.length items)) else VUndef
  | VStr s =>
      if String.eqb k "length" then VNum (float_of_nat (List.length (chars s)))
      else VUndef
  | _ => VUndef
  end.

(** [v[i]] for a literal index [i]. *)
Definition js_index (v : value) (i : nat) : value :=
  match v with
  | VObj fs => prop (string_of_nat i) fs
  | VArr items => nth i items VUndef
  | VStr s => nth i (chars s) VUndef
  | _ => VUndef
  end.

(** *** Conversion to a primitive *)

(** Whether [ToPrimitive] succeeds on a value, as [String(v)], a template
    literal, [+] and [*] need it to.  An object is converted by the
    [toString] it finds (the [valueOf] of [Object.prototype] returns the
    object itself): that of [Object.prototype], unless the object has an own
    member named ["toString"], which, no value here being callable, leaves
    no method that yields a primitive, and the conversion throws a
    [TypeError].  An array is joined, which converts its elements. *)
Fixpoint convertible (v : value) : bool :=
  match v with
  | VArr items => forallb convertible items
  | VObj fs => negb (has_own "toString" fs)
  | _ => true
  end.

(** *** Equality *)

(** [a === b].  Objects and arrays compare by reference; every object the
    component compares comes from a different [JSON.parse] result or object
    literal than the one it is compared with, so they are never equal. *)
Definition strict_eq (a b : value) : bool :=
  match a, b with
  | VUndef, VUndef => true
  | VNull, VNull => true
  | VBool x, VBool y => Bool.eqb x y
  | VNum x, VNum y => PrimFloat.eqb x y
  | VStr x, VStr y => String.eqb x y
  | _, _ => false
  end.

(** [Map] keys compare by SameValueZero: like [===] except that NaN equals
    NaN.  A primitive key is compared through its normal form [key_of];
    numbers by their IEEE value with the two zeros identified. *)
Inductive prim_key : Type :=
| KUndef
| KNull
| KBool (b : bool)
| KNum (x : spec_float)
| KStr (s : string).

Definition num_key (n : float) : spec_float :=
  match Prim2SF n with
  | S754_zero _ => S754_zero false
  | x => x
  end.

Definition key_of (v : value) : option prim_key :=
  match v with
  | VUndef => Some KUndef
  | VNull => Some KNull
  | VBool b => Some (KBool b)
  | VNum n => Some (KNum (num_key n))
  | VStr s => Some (KStr s)
  | VArr _ | VObj _ => None
  end.

Definition spec_float_eqb (x y : spec_float) : bool :=
  match x, y with
  | S754_zero a, S754_zero b => Bool.eqb a b
  | S754_infinity a, S754_infinity b => Bool.eqb a b
  | S754_nan, S754_nan => true
  | S754_finite a m e, S754_finite b m' e' =>
      Bool.eqb a b && Pos.eqb m m' && Z.eqb e e'
  | _, _ => false
  end.

Definition prim_key_eqb (x y : prim_key) : bool :=
  match x, y with
  | KUndef, KUndef => true
  | KNull, KNull => true
  | KBool a, KBool b => Bool.eqb a b
  | KNum a, KNum b => spec_float_eqb a b
  | KStr a, KStr b => String.eqb a b
  | _, _ => false
  end.

Definition same_value_zero (a b : value) : bool :=
  match key_of a, key_of b with
  | Some x, Some y => prim_key_eqb x y
  | _, _ => false
  end.

(** *** [Map]: insertion-ordered, keys compared by SameValueZero *)

Definition jsmap (V : Type) := list (value * V).

Fixpoint map_get {V} (k : value) (m : jsmap V) : option V :=
  match m with
  | [] => None
  | (k', v) :: rest => if same_value_zero k' k then Some v else map_get k rest
  end.

(** [m.set(k, v)]: an existing key keeps its position. *)
Fixpoint map_set {V} (k : value) (v : V) (m : jsmap V) : jsmap V :=
  match m with
  | [] => [(k, v)]
  | (k', v') :: rest =>
      if same_value_zero k' k then (k', v) :: rest
      else (k', v') :: map_set k v rest
  end.

End JS.

Import JS.
#[local] Open Scope js_scope.

(* ================================================================== *)
(** ** three.js and IsoCard structures the component touches *)
(* ================================================================== *)

Module THREE.

(** Objects of the scene graph live in the JavaScript heap and are shared by
    reference between the scene, the IsoCard object list and the component's
    index; a reference is a heap address. *)
Definition ref := nat.

(** The components of a [Vector3], a [Quaternion] and an [Euler] are
    whatever was stored in them; three.js does not check that they are
    numbers. *)
Record Vector3 := { v_x : value; v_y : value; v_z : value }.
Record Quaternion := { q_x : value; q_y : value; q_z : value; q_w : value }.
Record Euler := { e_x : value; e_y : value; e_z : value; e_order : string }.

(** The fields of [Object3D] the component reads or writes.  ([rotation],
    the Euler angles three.js keeps in step with [quaternion], is never read
    by the component and is left out.) *)
Record Object3D := {
  name : string;
  type : string;
  parent : option ref;
  position : Vector3;
  quaternion : Quaternion;
  userData : obj;
  matrixWorldNeedsUpdate : bool;
  matrixAutoUpdate : bool
}.

Definition Heap := ref -> Object3D.

Definition heap_set (h : Heap) (r : ref) (o : Object3D) : Heap :=
  fun r' => if Nat.eqb r' r then o else h r'.

Definition with_position (p : Vector3) (o : Object3D) : Object3D :=
  {| name := name o; type := type o; parent := parent o;
     position := p; quaternion := quaternion o; userData := userData o;
     matrixWorldNeedsUpdate := matrixWorldNeedsUpdate o;
     matrixAutoUpdate := matrixAutoUpdate o |}.

Definition with_quaternion (q : Quaternion) (o : Object3D) : Object3D :=
  {| name := name o; type := type o; parent := parent o;
     position := position o; quaternion := q; userData := userData o;
     matrixWorldNeedsUpdate := matrixWorldNeedsUpdate o;
     matrixAutoUpdate := matrixAutoUpdate o |}.

Definition with_userData (d : obj) (o : Object3D) : Object3D :=
  {| name := name o; type := type o; parent := parent o;
     position := position o; quaternion := quaternion o; userData := d;
     matrixWorldNeedsUpdate := matrixWorldNeedsUpdate o;
     matrixAutoUpdate := matrixAutoUpdate o |}.

(** [o.matrixWorldNeedsUpdate = true; o.matrixAutoUpdate = true] *)
Definition with_matrix_flags (o : Object3D) : Object3D :=
  {| name := name o; type := type o; parent := parent o;
     position := position o; quaternion := quaternion o;
     userData := userData o;
     matrixWorldNeedsUpdate := true; matrixAutoUpdate := true |}.

(** The scene graph: an object and its children, in order. *)
Inductive Scene : Type :=
| Node (self : ref) (children : list Scene).

(** The order in which [Object3D.traverse] visits: the object, then each
    child's subtree. *)
Fixpoint traverse (s : Scene) : list ref :=
  match s with
  | Node r children => r :: flat_map traverse children
  end.

(** [scene.getObjectByName(n)]: the first object in traversal order whose
    [name === n]. *)
Definition getObjectByName (h : Heap) (s : Scene) (n : string) : option ref :=
  find (fun r => String.eqb (name (h r)) n) (traverse s).

(** [new Vector3().fromArray(a)] *)
Definition Vector3_fromArray (a : value) : Vector3 :=
  {| v_x := js_index a 0; v_y := js_index a 1; v_z := js_index a 2 |}.

(** [v.set(x, y, z)]: [if (z === undefined) z = this.z], then the three
    components are stored. *)
Definition Vector3_set (x y z : value) (v : Vector3) : Vector3 :=
  {| v_x := x; v_y := y;
     v_z := match z with VUndef => v_z v | _ => z end |}.

(** The quaternion of a scene object notifies the object when it is
    written ([set], [copy]); the object then recomputes its Euler angles from
    the four components, by arithmetic that converts each of them to a
    primitive.  [true] when all four convert. *)
Definition Quaternion_convertible (q : Quaternion) : bool :=
  convertible (q_x q) && convertible (q_y q) && convertible (q_z q)
  && convertible (q_w q).

End THREE.

Module Iso.

(** An element of [iso.objects], as far as the component looks into it.
    [self] is the element itself, which the component falls back to as the
    scene object ([entry?.threeObj || entry?.obj || entry]). *)
Record Entry := {
  id : value;
  threeObj : option THREE.ref;
  obj : option THREE.ref;
  self : THREE.ref;
  config : value
}.

(** The IsoCard instance: the three fields [getThreeScene] tries, and the
    object list. *)
Record IsoCard := {
  scene : option THREE.Scene;
  rootScene : option THREE.Scene;
  threeScene : option THREE.Scene;
  objects : option (list Entry)
}.

(** The calls the component makes into IsoCard.  [renderScene],
    [setTransform] and [onObjectTransformChanged] are called through [?.()]:
    the entry stands for the call site being reached, whether or not the
    instance defines the method. *)
Inductive Call : Type :=
| removeObject (id : value)
| addObjectsToLayer (layerId : string) (payload : list value)
| renderScene
| setTransform (o : THREE.ref) (p : THREE.Vector3) (q : THREE.Quaternion)
| onObjectTransformChanged (o : THREE.ref).

End Iso.

(* ================================================================== *)
(** ** The host: what the component calls and does not define *)
(* ================================================================== *)

(** [inl e] is a thrown exception. *)
Class Host := {
  (** [JSON.parse(text)] *)
  JSON_parse : string -> exn + value;
  (** [new TextDecoder().decode(buffer)] *)
  TextDecoder_decode : list byte -> string;
  (** [new Date().toISOString()] at the n-th reading of the clock *)
  Date_toISOString : nat -> string;
  (** [String(n)] for a number, and [Number(s)] for a string *)
  Number_toString : float -> string;
  StringToNumber : string -> float;
  (** the [TypeError]s of reading a property of [null]/[undefined], of
      destructuring a value that is not iterable, and of converting to a
      primitive an object that has no usable [toString] *)
  TypeError_null_read : exn;
  TypeError_not_iterable : exn;
  TypeError_to_primitive : exn;
  (** three.js: [Quaternion.setFromEuler(euler)] *)
  Quaternion_setFromEuler : THREE.Euler -> THREE.Quaternion;
  (** IsoCard: what [removeObject] and [addObjectsToLayer] do to the
      instance and to the scene objects; the latter may throw *)
  IsoCard_removeObject :
    Iso.IsoCard -> THREE.Heap -> value -> Iso.IsoCard * THREE.Heap;
  IsoCard_addObjectsToLayer :
    Iso.IsoCard -> THREE.Heap -> string -> list value ->
    Iso.IsoCard * THREE.Heap * option exn
}.

(* ================================================================== *)
(** ** Component state *)
(* ================================================================== *)

Module State.

Inductive WsStatus := disconnected | connecting | connected.

(** [type State] *)
Record t := {
  log : list string;
  jsonText : string;
  wsStatus : WsStatus;
  serverUrl : string;
  layerId : string;
  ready : bool
}.

End State.

(** The fields of [ClientIsoCardWatcher] the modelled methods use, followed
    by the part of the environment they act on: the heap of scene objects,
    the browser's list of requested animation-frame callbacks, the number of
    clock readings taken, and the calls made into IsoCard so far. *)
Record World := {
  iso : option Iso.IsoCard;
  objectIndex : jsmap THREE.ref;
  _tmpV : THREE.Vector3;
  _tmpQ : THREE.Quaternion;
  _tmpE : THREE.Euler;
  pending : jsmap obj;
  rafHandle : option nat;
  state : State.t;
  heap : THREE.Heap;
  raf_requests : list nat;
  raf_next : nat;
  clock_reads : nat;
  iso_calls : list Iso.Call
}.

(** Field updates of [World]. *)
Definition with_iso (v : option Iso.IsoCard) (w : World) : World :=
  {| iso := v; objectIndex := objectIndex w; _tmpV := _tmpV w;
     _tmpQ := _tmpQ w; _tmpE := _tmpE w; pending := pending w;
     rafHandle := rafHandle w; state := state w; heap := heap w;
     raf_requests := raf_requests w; raf_next := raf_next w;
     clock_reads := clock_reads w; iso_calls := iso_calls w |}.

Definition with_objectIndex (v : jsmap THREE.ref) (w : World) : World :=
  {| iso := iso w; objectIndex := v; _tmpV := _tmpV w;
     _tmpQ := _tmpQ w; _tmpE := _tmpE w; pending := pending w;
     rafHandle := rafHandle w; state := state w; heap := heap w;
     raf_requests := raf_requests w; raf_next := raf_next w;
     clock_reads := clock_reads w; iso_calls := iso_calls w |}.

Definition with_tmpV (v : THREE.Vector3) (w : World) : World :=
  {| iso := iso w; objectIndex := objectIndex w; _tmpV := v;
     _tmpQ := _tmpQ w; _tmpE := _tmpE w; pending := pending w;
     rafHandle := rafHandle w; state := state w; heap := heap w;
     raf_requests := raf_requests w; raf_next := raf_next w;
     clock_reads := clock_reads w; iso_calls := iso_calls w |}.

Definition with_tmpQ (v : THREE.Quaternion) (w : World) : World :=
  {| iso := iso w; objectIndex := objectIndex w; _tmpV := _tmpV w;
     _tmpQ := v; _tmpE := _tmpE w; pending := pending w;
     rafHandle := rafHandle w; state := state w; heap := heap w;
     raf_requests := raf_requests w; raf_next := raf_next w;
     clock_reads := clock_reads w; iso_calls := iso_calls w |}.

Definition with_tmpE (v : THREE.Euler) (w : World) : World :=
  {| iso := iso w; objectIndex := objectIndex w; _tmpV := _tmpV w;
     _tmpQ := _tmpQ w; _tmpE := v; pending := pending w;
     rafHandle := rafHandle w; state := state w; heap := heap w;
     raf_requests := raf_requests w; raf_next := raf_next w;
     clock_reads := clock_reads w; iso_calls := iso_calls w |}.

Definition with_pending (v : jsmap obj) (w : World) : World :=
  {| iso := iso w; objectIndex := objectIndex w; _tmpV := _tmpV w;
     _tmpQ := _tmpQ w; _tmpE := _tmpE w; pending := v;
     rafHandle := rafHandle w; state := state w; heap := heap w;
     raf_requests := raf_requests w; raf_next := raf_next w;
     clock_reads := clock_reads w; iso_calls := iso_calls w |}.

Definition with_rafHandle (v : option nat) (w : World) : World :=
  {| iso := iso w; objectIndex := objectIndex w; _tmpV := _tmpV w;
     _tmpQ := _tmpQ w; _tmpE := _tmpE w; pending := pending w;
     rafHandle := v; state := state w; heap := heap w;
     raf_requests := raf_requests w; raf_next := raf_next w;
     clock_reads := clock_reads w; iso_calls := iso_calls w |}.

Definition with_state (v : State.t) (w : World) : World :=
  {| iso := iso w; objectIndex := objectIndex w; _tmpV := _tmpV w;
     _tmpQ := _tmpQ w; _tmpE := _tmpE w; pending := pending w;
     rafHandle := rafHandle w; state := v; heap := heap w;
     raf_requests := raf_requests w; raf_next := raf_next w;
     clock_reads := clock_reads w; iso_calls := iso_calls w |}.

Definition with_heap (v : THREE.Heap) (w : World) : World :=
  {| iso := iso w; objectIndex := objectIndex w; _tmpV := _tmpV w;
     _tmpQ := _tmpQ w; _tmpE := _tmpE w; pending := pending w;
     rafHandle := rafHandle w; state := state w; heap := v;
     raf_requests := raf_requests w; raf_next := raf_next w;
     clock_reads := clock_reads w; iso_calls := iso_calls w |}.

Definition with_raf_requests (v : list nat) (w : World) : World :=
  {| iso := iso w; objectIndex := objectIndex w; _tmpV := _tmpV w;
     _tmpQ := _tmpQ w; _tmpE := _tmpE w; pending := pending w;
     rafHandle := rafHandle w; state := state w; heap := heap w;
     raf_requests := v; raf_next := raf_next w;
     clock_reads := clock_reads w; iso_calls := iso_calls w |}.

Definition with_raf_next (v : nat) (w : World) : World :=
  {| iso := iso w; objectIndex := objectIndex w; _tmpV := _tmpV w;
     _tmpQ := _tmpQ w; _tmpE := _tmpE w; pending := pending w;
     rafHandle := rafHandle w; state := state w; heap := heap w;
     raf_requests := raf_requests w; raf_next := v;
     clock_reads := clock_reads w; iso_calls := iso_calls w |}.

Definition with_clock_reads (v : nat) (w : World) : World :=
  {| iso := iso w; objectIndex := objectIndex w; _tmpV := _tmpV w;
     _tmpQ := _tmpQ w; _tmpE := _tmpE w; pending := pending w;
     rafHandle := rafHandle w; state := state w; heap := heap w;
     raf_requests := raf_requests w; raf_next := raf_next w;
     clock_reads := v; iso_calls := iso_calls w |}.

Definition with_iso_calls (v : list Iso.Call) (w : World) : World :=
  {| iso := iso w; objectIndex := objectIndex w; _tmpV := _tmpV w;
     _tmpQ := _tmpQ w; _tmpE := _tmpE w; pending := pending w;
     rafHandle := rafHandle w; state := state w; heap := heap w;
     raf_requests := raf_requests w; raf_next := raf_next w;
     clock_reads := clock_reads w; iso_calls := v |}.

(** [this.setState((s) => ({ log: l }))]: updaters run in order, each on the
    state the previous one left, so the update is made at once. *)
Definition with_log (l : list string) (w : World) : World :=
  with_state
    {| State.log := l;
       State.jsonText := State.jsonText (state w);
       State.wsStatus := State.wsStatus (state w);
       State.serverUrl := State.serverUrl (state w);
       State.layerId := State.layerId (state w);
       State.ready := State.ready (state w) |} w.

(** [this.setState({ layerId: s })], from the layer input box. *)
Definition with_layerId (s : string) (w : World) : World :=
  with_state
    {| State.log := State.log (state w);
       State.jsonText := State.jsonText (state w);
       State.wsStatus := State.wsStatus (state w);
       State.serverUrl := State.serverUrl (state w);
       State.layerId := s;
       State.ready := State.ready (state w) |} w.

(** A method body either returns or throws; a throw carries the world as
    it was at that point, since nothing is rolled back. *)
Inductive outcome (A : Type) : Type :=
| Returned (a : A)
| Thrown (e : exn) (w : World).

Arguments Returned {A} a.
Arguments Thrown {A} e w.

Definition bind {A B} (m : outcome A) (k : A -> outcome B) : outcome B :=
  match m with
  | Returned a => k a
  | Thrown e w => Thrown e w
  end.

Notation "'let*' x ':=' m 'in' k" := (bind m (fun x => k))
  (at level 10, x pattern, m at level 100, k at level 200).

(** The world a frame callback or event handler leaves behind, whether its
    body returned or threw (an uncaught exception is reported by the browser
    and the event loop goes on). *)
Definition world_after (o : outcome World) : World :=
  match o with
  | Returned w => w
  | Thrown _ w => w
  end.

(* ================================================================== *)
(** ** The component's methods *)
(* ================================================================== *)

Section Component.

Context {host : Host}.

(** *** Conversions the template literals and arithmetic perform *)

(** The text of a value that converts to a primitive: an array is its
    elements' texts joined by commas, [null] and [undefined] elements as the
    empty text; an object is what [Object.prototype.toString] says. *)
Fixpoint text_of (v : value) : string :=
  match v with
  | VUndef => "undefined"
  | VNull => "null"
  | VBool true => "true"
  | VBool false => "false"
  | VNum n => Number_toString n
  | VStr s => s
  | VArr items =>
      String.concat ","
        (map (fun it => if nullish it then "" else text_of it) items)
  | VObj _ => "[object Object]"
  end.

(** [String(v)], as in [`Received: ${type}`]; [None] when the conversion
    throws. *)
Definition to_string (v : value) : option string :=
  if convertible v then Some (text_of v) else None.

(** [Number(v)], the conversion [*] applies to its operands; [None] when
    it throws. *)
Definition to_number (v : value) : option float :=
  if convertible v then
    Some match v with
         | VUndef => PrimFloat.nan
         | VNull => PrimFloat.zero
         | VBool true => PrimFloat.one
         | VBool false => PrimFloat.zero
         | VNum n => n
         | VStr s => StringToNumber s
         | VArr _ | VObj _ => StringToNumber (text_of v)
         end
  else None.

Definition Math_PI : float := 0x1.921fb54442d18p+1%float.

(** [(d * Math.PI) / 180] *)
Definition deg_to_rad (d : value) : option value :=
  match to_number d with
  | Some n => Some (VNum (PrimFloat.div (PrimFloat.mul n Math_PI) 180%float))
  | None => None
  end.

(** [const [a, b, c] = v]: the first three values the iterator of [v]
    yields (a string is iterated by code points); a value that is neither
    an array nor a string is not iterable. *)
Definition destructure3 (v : value) : exn + (value * value * value) :=
  match v with
  | VArr items => inr (nth 0 items VUndef, nth 1 items VUndef, nth 2 items VUndef)
  | VStr s =>
      inr (nth 0 (points s) VUndef, nth 1 (points s) VUndef,
           nth 2 (points s) VUndef)
  | _ => inl TypeError_not_iterable
  end.

(** [!text.trim()]: the text is white space and line terminators only.
    Strings are kept as UTF-8 bytes: besides the ASCII tab, line feed,
    vertical tab, form feed, carriage return and space, [trim] removes
    U+00A0, U+1680, U+2000 to U+200A, U+2028, U+2029, U+202F, U+205F,
    U+3000 and U+FEFF, which take two or three bytes each. *)
Definition is_space (c : ascii) : bool :=
  let n := nat_of_ascii c in
  (Nat.leb 9 n && Nat.leb n 13) || Nat.eqb n 32.

Definition is_space2 (c d : ascii) : bool :=
  Nat.eqb (nat_of_ascii c) 194 && Nat.eqb (nat_of_ascii d) 160.

Definition is_space3 (c d e : ascii) : bool :=
  let c := nat_of_ascii c in
  let d := nat_of_ascii d in
  let e := nat_of_ascii e in
  (Nat.eqb c 225 && Nat.eqb d 154 && Nat.eqb e 128)
  || (Nat.eqb c 226 && Nat.eqb d 128
      && ((Nat.leb 128 e && Nat.leb e 138) || Nat.eqb e 168 || Nat.eqb e 169
          || Nat.eqb e 175))
  || (Nat.eqb c 226 && Nat.eqb d 129 && Nat.eqb e 159)
  || (Nat.eqb c 227 && Nat.eqb d 128 && Nat.eqb e 128)
  || (Nat.eqb c 239 && Nat.eqb d 187 && Nat.eqb e 191).

Fixpoint blank (s : string) : bool :=
  match s with
  | EmptyString => true
  | String c rest =>
      if is_space c then blank rest
      else
        match rest with
        | String d rest2 =>
            if is_space2 c d then blank rest2
            else
              match rest2 with
              | String e rest3 => is_space3 c d e && blank rest3
              | EmptyString => false
              end
        | EmptyString => false
        end
  end.

(** [s.replace(/^server_layer/, "")] for [p = "server_layer"] *)
Definition strip_prefix (p s : string) : string :=
  if String.prefix p s
  then String.substring (String.length p) (String.length s - String.length p) s
  else s.

(** The text of [s] between double quotes, as a template literal such as
    [`layer "${s}"`] prints it. *)
Definition quoted (s : string) : string :=
  let q := String (ascii_of_nat 34) EmptyString in
  (q ++ s ++ q)%string.

(** [l.slice(-n)] *)
Definition slice_last {A} (n : nat) (l : list A) : list A :=
  skipn (List.length l - n) l.

(** *** Small helpers (source lines 40-44) *)

(** What [JSON.stringify(v, (k, x) => k === "physics" ? undefined : x)]
    followed by [JSON.parse] makes of a value other than [undefined]: a deep
    copy in which every member named ["physics"] and every member whose
    value is [undefined] is left out, an [undefined] array element becomes
    [null], and so does a number that is not finite; minus zero is printed
    as ["0"]. *)
Fixpoint stripped (v : value) : value :=
  match v with
  | VUndef => VNull
  | VNull => VNull
  | VBool b => VBool b
  | VNum n =>
      if PrimFloat.is_nan n || PrimFloat.is_infinity n then VNull
      else if PrimFloat.is_zero n then VNum PrimFloat.zero
      else VNum n
  | VStr s => VStr s
  | VArr items => VArr (map stripped items)
  | VObj fs =>
      VObj ((fix members (fs : obj) : obj :=
               match fs with
               | [] => []
               | (k, x) :: rest =>
                   if has_own k rest then members rest
                   else if String.eqb k "physics" then members rest
                   else match x with
                        | VUndef => members rest
                        | _ => (k, stripped x) :: members rest
                        end
               end) fs)
  end.

(** [stripPhysicsDeep]: of [undefined], [JSON.stringify] returns
    [undefined], which [JSON.parse] reads as the text ["undefined"]. *)
Definition stripPhysicsDeep (o : value) : exn + value :=
  match o with
  | VUndef => JSON_parse "undefined"
  | _ => inr (stripped o)
  end.

Definition ensureSceneArray (sceneLike : value) : list value :=
  match sceneLike with
  | VArr items => items
  | _ =>
      match js_get sceneLike "scene" with
      | VArr items => items
      | _ => [sceneLike]
      end
  end.

(** *** log (source lines 104-105) *)

Definition log (m : string) (w : World) : World :=
  let line := (Date_toISOString (clock_reads w) ++ " — " ++ m)%string in
  with_clock_reads (S (clock_reads w))
    (with_log (slice_last 400 (State.log (state w) ++ [line])) w).

(** A call into IsoCard is recorded in [iso_calls], in order. *)
Definition call (c : Iso.Call) (w : World) : World :=
  with_iso_calls (iso_calls w ++ [c]) w.

(** *** Scene / index helpers (source lines 250-296) *)

(** [c?.scene || c?.rootScene || c?.threeScene] *)
Definition getThreeScene (w : World) : option THREE.Scene :=
  match iso w with
  | None => None
  | Some c =>
      match Iso.scene c with
      | Some s => Some s
      | None =>
          match Iso.rootScene c with
          | Some s => Some s
          | None => Iso.threeScene c
          end
      end
  end.

(** [entry?.threeObj || entry?.obj || entry] *)
Definition entry_object (entry : Iso.Entry) : THREE.ref :=
  match Iso.threeObj entry with
  | Some r => r
  | None =>
      match Iso.obj entry with
      | Some r => r
      | None => Iso.self entry
      end
  end.

(** The body of [scene.traverse((obj) => ...)] in [rebuildObjectIndex]. *)
Definition index_named (h : THREE.Heap) (m : jsmap THREE.ref) (r : THREE.ref)
  : jsmap THREE.ref :=
  if negb (String.eqb (THREE.name (h r)) "")
  then map_set (VStr (THREE.name (h r))) r m
  else m.

(** The body of [for (const entry of this.iso.objects)]. *)
Definition index_entry (m : jsmap THREE.ref) (entry : Iso.Entry)
  : jsmap THREE.ref :=
  let id := Iso.id entry in
  let o := entry_object entry in
  let m := if negb (strict_eq id VUndef) then map_set id o m else m in
  let nm := js_get (Iso.config entry) "name" in
  if truthy nm then map_set nm o m else m.

Definition rebuildObjectIndex (w : World) : World :=
  let w := with_objectIndex [] w in
  match getThreeScene w with
  | None => w
  | Some scene =>
      let m := fold_left (index_named (heap w)) (THREE.traverse scene) [] in
      let m :=
        match iso w with
        | Some c =>
            match Iso.objects c with
            | Some entries => fold_left index_entry entries m
            | None => m
            end
        | None => m
        end in
      log ("Indexed " ++ string_of_nat (List.length m) ++ " ids/names")%string
        (with_objectIndex m w)
  end.

(** The loop over [tryNames]. *)
Definition find_by_names (h : THREE.Heap) (scene : THREE.Scene)
  (names : list string) : option THREE.ref :=
  fold_right
    (fun n later =>
       match THREE.getObjectByName h scene n with
       | Some r => Some r
       | None => later
       end)
    None names.

Definition resolveObject (idOrName : value) (w : World)
  : option THREE.ref * World :=
  match map_get idOrName (objectIndex w) with
  | Some cached => (Some cached, w)
  | None =>
      match getThreeScene w with
      | None => (None, w)
      | Some scene =>
          let found :=
            match idOrName with
            | VStr s =>
                find_by_names (heap w) scene [s; strip_prefix "server_layer" s]
            | _ => None
            end in
          match found with
          | Some r => (Some r, with_objectIndex (map_set idOrName r (objectIndex w)) w)
          | None =>
              let w := rebuildObjectIndex w in
              (map_get idOrName (objectIndex w), w)
          end
      end
  end.

(** *** Transform application (source lines 299-333) *)

(** The object that is moved: the parent, when it is a [Group] of the same
    name, else the target itself. *)
Definition transform_target (h : THREE.Heap) (target : THREE.ref) : THREE.ref :=
  match THREE.parent (h target) with
  | Some p =>
      if String.eqb (THREE.type (h p)) "Group"
         && String.eqb (THREE.name (h p)) (THREE.name (h target))
      then p else target
  | None => target
  end.

Definition set_position (o : THREE.ref) (p : THREE.Vector3) (w : World) : World :=
  with_heap (THREE.heap_set (heap w) o (THREE.with_position p (heap w o))) w.

Definition set_quaternion (o : THREE.ref) (q : THREE.Quaternion) (w : World) : World :=
  with_heap (THREE.heap_set (heap w) o (THREE.with_quaternion q (heap w o))) w.

(** [if (u.position) ... else if (u.pos) ...] *)
Definition apply_position (o : THREE.ref) (u : obj) (w : World) : World :=
  let position := prop "position" u in
  if truthy position then
    set_position o
      (THREE.Vector3_set (js_get position "x") (js_get position "y")
         (js_get position "z") (THREE.position (heap w o))) w
  else
    let pos := prop "pos" u in
    if truthy pos then
      let w := with_tmpV (THREE.Vector3_fromArray pos) w in
      set_position o (_tmpV w) w
    else w.

(** [obj.quaternion.set(...)] and [obj.quaternion.copy(q)]: the components
    are stored, and the object's recomputation of its Euler angles throws
    when one of them does not convert to a primitive. *)
Definition write_quaternion (o : THREE.ref) (q : THREE.Quaternion) (w : World)
  : outcome World :=
  let w := set_quaternion o q w in
  if THREE.Quaternion_convertible q then Returned w
  else Thrown TypeError_to_primitive w.

(** [this._tmpE.set(x, y, z, "XYZ"); obj.setRotationFromEuler(this._tmpE)]:
    [setFromEuler] halves the three angles before it writes anything, which
    throws when one of them does not convert to a primitive. *)
Definition set_rotation_from_euler (o : THREE.ref) (x y z : value) (w : World)
  : outcome World :=
  let w :=
    with_tmpE {| THREE.e_x := x; THREE.e_y := y; THREE.e_z := z;
                 THREE.e_order := "XYZ" |} w in
  if convertible x && convertible y && convertible z
  then Returned (set_quaternion o (Quaternion_setFromEuler (_tmpE w)) w)
  else Thrown TypeError_to_primitive w.

(** [if (u.rotation) ... else if (u.rot && u.rot.length === 4) ...
     else if (u.eulerDeg && u.eulerDeg.length === 3) ...
     else if (u.rot && u.rot.length === 3) ...] *)
Definition apply_orientation (o : THREE.ref) (u : obj) (w : World)
  : outcome World :=
  let rotation := prop "rotation" u in
  let rot := prop "rot" u in
  let eulerDeg := prop "eulerDeg" u in
  if truthy rotation then
    write_quaternion o
      {| THREE.q_x := js_get rotation "x"; THREE.q_y := js_get rotation "y";
         THREE.q_z := js_get rotation "z"; THREE.q_w := js_get rotation "w" |} w
  else if truthy rot && strict_eq (js_get rot "length") (VNum 4%float) then
    let w :=
      with_tmpQ
        {| THREE.q_x := js_index rot 0; THREE.q_y := js_index rot 1;
           THREE.q_z := js_index rot 2; THREE.q_w := js_index rot 3 |} w in
    write_quaternion o (_tmpQ w) w
  else if truthy eulerDeg && strict_eq (js_get eulerDeg "length") (VNum 3%float) then
    match destructure3 eulerDeg with
    | inl e => Thrown e w
    | inr (ex, ey, ez) =>
        match deg_to_rad ex, deg_to_rad ey, deg_to_rad ez with
        | Some x, Some y, Some z => set_rotation_from_euler o x y z w
        | _, _, _ => Thrown TypeError_to_primitive w
        end
    end
  else if truthy rot && strict_eq (js_get rot "length") (VNum 3%float) then
    match destructure3 rot with
    | inl e => Thrown e w
    | inr (rx, ry, rz) => set_rotation_from_euler o rx ry rz w
    end
  else Returned w.

(** [anyIso?.setTransform?.(obj, obj.position, obj.quaternion);
     anyIso?.onObjectTransformChanged?.(obj)]: recorded when there is an
    IsoCard instance; the hooks are taken to leave the modelled fields as
    they are. *)
Definition notify_transform (o : THREE.ref) (w : World) : World :=
  match iso w with
  | None => w
  | Some _ =>
      call (Iso.onObjectTransformChanged o)
        (call (Iso.setTransform o (THREE.position (heap w o))
                 (THREE.quaternion (heap w o))) w)
  end.

Definition applyOneUpdateTo (target : THREE.ref) (u : obj) (w : World)
  : outcome World :=
  let o := transform_target (heap w) target in
  let w := apply_position o u w in
  let* w := apply_orientation o u w in
  let w :=
    with_heap (THREE.heap_set (heap w) o (THREE.with_matrix_flags (heap w o))) w in
  Returned (notify_transform o w).

(** *** Updates: collect + flush per frame (source lines 336-396) *)

(** [Object.keys(o)] *)
Definition own_keys (fs : obj) : list string := map fst (spread [] (VObj fs)).

(** [{ ...it, layerId: it.layerId ?? defaultLayerId }] *)
Definition array_entry (it defaultLayerId : value) : obj :=
  field_set "layerId" (js_get it "layerId" ?? defaultLayerId) (spread [] it).

(** [{ ...(o || {}), id: o?.id, name: o?.name ?? key,
       layerId: o?.layerId ?? defaultLayerId }] *)
Definition record_entry (key : string) (o defaultLayerId : value) : obj :=
  field_set "layerId" (js_get o "layerId" ?? defaultLayerId)
    (field_set "name" (js_get o "name" ?? VStr key)
       (field_set "id" (js_get o "id")
          (spread [] (o ||| VObj [])))).

(** The array [arr] the first half of [enqueuePhysics] builds; [None] is
    the early [return] for a batch that is neither array nor object. *)
Definition collect (objects defaultLayerId : value) : option (list obj) :=
  match objects with
  | VArr items =>
      Some
        (flat_map
           (fun it =>
              if negb (truthy it) then []
              else if nullish (js_get it "id" ?? js_get it "name") then []
              else [array_entry it defaultLayerId])
           items)
  | VObj fs =>
      Some (map (fun key => record_entry key (prop key fs) defaultLayerId)
              (own_keys fs))
  | _ => None
  end.

(** The body of [for (const u of arr)]. *)
Definition merge_update (p : jsmap obj) (u : obj) : jsmap obj :=
  let key := prop "id" u ?? prop "name" u in
  let prev :=
    match map_get key p with
    | Some prev => prev
    | None => [("id", prop "id" u); ("name", prop "name" u)]
    end in
  map_set key (spread (spread [] (VObj prev)) (VObj u)) p.

(** [requestAnimationFrame(cb)]: the browser queues the callback for the
    next frame and returns a fresh handle. *)
Definition requestAnimationFrame (w : World) : nat * World :=
  let h := raf_next w in
  (h, with_raf_next (S h) (with_raf_requests (raf_requests w ++ [h]) w)).

Definition enqueuePhysics (objects defaultLayerId : value) (w : World) : World :=
  match collect objects defaultLayerId with
  | None => w
  | Some arr =>
      let w := with_pending (fold_left merge_update arr (pending w)) w in
      match rafHandle w with
      | None =>
          let (h, w) := requestAnimationFrame w in
          with_rafHandle (Some h) w
      | Some _ => w
      end
  end.

(** [obj.userData?.layer || obj.parent?.userData?.layer
     || obj.userData?.config?.layer || "main"] *)
Definition object_layer (h : THREE.Heap) (o : THREE.ref) : value :=
  prop "layer" (THREE.userData (h o))
  ||| match THREE.parent (h o) with
      | Some p => prop "layer" (THREE.userData (h p))
      | None => VUndef
      end
  ||| js_get (prop "config" (THREE.userData (h o))) "layer"
  ||| VStr "main".

(** [u.layerId ?? layerHint] *)
Definition effective_layer (u : obj) (layerHint : string) : value :=
  prop "layerId" u ?? VStr layerHint.

(** The layer guard of the loop: [true] when the update is skipped. *)
Definition layer_mismatch (mustLayer objLayer : value) : bool :=
  truthy mustLayer && truthy objLayer && negb (strict_eq objLayer mustLayer).

(** One iteration of [for (const [key, u] of this.pending)]; the number is
    [applied]. *)
Definition flush_step (layerHint : string) (acc : World * nat)
  (entry : value * obj) : outcome (World * nat) :=
  let (w, applied) := acc in
  let (key, u) := entry in
  let (found, w) := resolveObject key w in
  match found with
  | None => Returned (w, applied)
  | Some o =>
      if layer_mismatch (effective_layer u layerHint) (object_layer (heap w) o)
      then Returned (w, applied)
      else
        let* w := applyOneUpdateTo o u w in
        Returned (w, S applied)
  end.

Fixpoint flush_loop (layerHint : string) (entries : jsmap obj)
  (acc : World * nat) : outcome (World * nat) :=
  match entries with
  | [] => Returned acc
  | entry :: rest =>
      let* acc := flush_step layerHint acc entry in
      flush_loop layerHint rest acc
  end.

Definition flushPending (w : World) : outcome World :=
  match iso w, pending w with
  | None, _ => Returned w
  | Some _, [] => Returned w
  | Some _, _ :: _ =>
      let layerHint := State.layerId (state w) in
      let* (w, applied) := flush_loop layerHint (pending w) (w, 0) in
      let w := with_pending [] w in
      let w := call Iso.renderScene w in
      Returned
        (if Nat.eqb applied 0 then w
         else log ("Applied " ++ string_of_nat applied ++ " transform"
                   ++ (if Nat.eqb applied 1 then "" else "s"))%string w)
  end.

(** *** Layer utilities (source lines 399-412) *)

(** [try { this.iso!.removeObject(id) } catch {}]: the call is recorded and
    IsoCard's effect on the instance and the heap taken from the host;
    whatever it throws is swallowed. *)
Definition removeObject (id : value) (w : World) : World :=
  match iso w with
  | None => w
  | Some c =>
      let (c', h') := IsoCard_removeObject c (heap w) id in
      with_heap h' (with_iso (Some c') (call (Iso.removeObject id) w))
  end.

(** [entry?.config?.layer === layerId] *)
Definition in_layer (layerId : string) (entry : Iso.Entry) : bool :=
  strict_eq (js_get (Iso.config entry) "layer") (VStr layerId).

Definition clearLayer (layerId : string) (w : World) : World :=
  match iso w with
  | None => w
  | Some c =>
      match Iso.objects c with
      | None => w
      | Some entries =>
          let toRemove := filter (in_layer layerId) entries in
          let w := fold_left (fun w e => removeObject (Iso.id e) w) toRemove w in
          match toRemove with
          | [] => w
          | _ :: _ =>
              log ("Cleared " ++ string_of_nat (List.length toRemove)
                   ++ " object(s) from layer " ++ quoted layerId)%string w
          end
      end
  end.

(** *** Scene ingestion (source lines 415-446) *)

(** [(o) => ({ ...o, layer: layerId })] *)
Definition into_layer (layerId : string) (o : value) : value :=
  VObj (field_set "layer" (VStr layerId) (spread [] o)).

(** [if (e?.threeObj) e.threeObj.userData.layer = e?.config?.layer || layerId] *)
Definition tag_layer (layerId : string) (w : World) (e : Iso.Entry) : World :=
  match Iso.threeObj e with
  | None => w
  | Some r =>
      let layer := js_get (Iso.config e) "layer" ||| VStr layerId in
      with_heap
        (THREE.heap_set (heap w) r
           (THREE.with_userData
              (field_set "layer" layer (THREE.userData (heap w r))) (heap w r))) w
  end.

(** The [try] block of [handleSceneState]. *)
Definition handleSceneState_try (sceneData : value) (w : World) : outcome World :=
  match stripPhysicsDeep sceneData with
  | inl e => Thrown e w
  | inr cleaned =>
      let layerId := State.layerId (state w) in
      let w := clearLayer layerId w in
      let payload := map (into_layer layerId) (ensureSceneArray cleaned) in
      match iso w with
      | None => Thrown TypeError_null_read w
      | Some c =>
          let w := call (Iso.addObjectsToLayer layerId payload) w in
          let '(c', h', thrown) :=
            IsoCard_addObjectsToLayer c (heap w) layerId payload in
          let w := with_heap h' (with_iso (Some c') w) in
          match thrown with
          | Some e => Thrown e w
          | None =>
              let w :=
                match Iso.objects c' with
                | Some entries => fold_left (tag_layer layerId) entries w
                | None => w
                end in
              let w := rebuildObjectIndex w in
              let w := call Iso.renderScene w in
              Returned
                (log ("Scene loaded → layer " ++ quoted layerId ++ " (objects: "
                      ++ string_of_nat (List.length payload) ++ ")")%string w)
          end
      end
  end.

Definition handleSceneState (sceneData : value) (w : World) : World :=
  match iso w with
  | None => log "IsoCard not ready" w
  | Some _ =>
      match handleSceneState_try sceneData w with
      | Returned w => w
      | Thrown e w => log ("Scene load failed: " ++ exn_text e)%string w
      end
  end.

(** *** Message handling (source lines 219-247) *)

(** What the socket delivers: text, or a binary frame. *)
Inductive SocketData : Type :=
| Text (s : string)
| Binary (b : list byte).

Definition is_transform_type (type : value) : bool :=
  strict_eq type (VStr "PHYSICS_UPDATE")
  || strict_eq type (VStr "PHYSICS_TICK")
  || strict_eq type (VStr "TRANSFORMS").

(** What [onMessage] does with the parsed message once its [type] is read
    and found truthy.  The two template literals convert what they print,
    and throw when that has no conversion. *)
Definition dispatch (msg : value) (w : World) : outcome World :=
  let type := js_get msg "type" in
  match to_string type with
  | None => Thrown TypeError_to_primitive w
  | Some shown =>
      let w := log ("Received: " ++ shown)%string w in
      if strict_eq type (VStr "SCENE_STATE") then
        Returned (handleSceneState (js_get msg "scene" ?? msg) w)
      else if is_transform_type type then
        let layerId := js_get msg "layerId" ?? js_get msg "layer" ?? VUndef in
        let objects :=
          js_get msg "objects" ?? js_get msg "payload" ?? js_get msg "data" ?? msg in
        Returned (enqueuePhysics objects layerId w)
      else if strict_eq type (VStr "ERROR") then
        match to_string (js_get msg "message" ?? VStr "(no message)") with
        | None => Thrown TypeError_to_primitive w
        | Some text => Returned (log ("Server error: " ++ text)%string w)
        end
      else Returned w
  end.

(** [typeof data === "string" ? data : new TextDecoder().decode(data)] *)
Definition message_text (data : SocketData) : string :=
  match data with
  | Text s => s
  | Binary b => TextDecoder_decode b
  end.

(** The [try] block of [onMessage]. *)
Definition onMessage_try (data : SocketData) (w : World) : outcome World :=
  let text := message_text data in
  if blank text then Returned w
  else
    match JSON_parse text with
    | inl e => Thrown e w
    | inr msg =>
        if nullish msg then Thrown TypeError_null_read w
        else if negb (truthy (js_get msg "type")) then Returned w
        else dispatch msg w
    end.

Definition onMessage (data : SocketData) (w : World) : World :=
  match onMessage_try data w with
  | Returned w => w
  | Thrown e w => log ("Message parse failed: " ++ exn_text e)%string w
  end.

(** *** The event loop *)

(** The callback [enqueuePhysics] hands to [requestAnimationFrame]:
    [() => { this.rafHandle = null; this.flushPending(); }] *)
Definition frame_callback (w : World) : World :=
  world_after (flushPending (with_rafHandle None w)).

(** An animation frame: the browser runs the callbacks requested since the
    last frame, in order. *)
Definition animationFrame (w : World) : World :=
  fold_left (fun w _ => frame_callback w) (raf_requests w)
    (with_raf_requests [] w).

(** What can happen to a mounted component between construction and
    unmounting, as far as the update buffer is concerned: a socket message,
    a direct call of [enqueuePhysics], an animation frame, and an edit of the
    layer box. *)
Inductive event : Type :=
| Message (data : SocketData)
| Enqueue (objects defaultLayerId : value)
| Frame
| LayerInput (s : string).

Definition step (w : World) (e : event) : World :=
  match e with
  | Message data => onMessage data w
  | Enqueue objects d => enqueuePhysics objects d w
  | Frame => animationFrame w
  | LayerInput s => with_layerId s w
  end.

Definition run (events : list event) (w : World) : World :=
  fold_left step events w.

End Component.

(* ================================================================== *)
(** ** A small host and scene for concrete runs *)
(* ================================================================== *)

Module Demo.

Import THREE.

Definition SyntaxError : exn :=
  {| exn_name := "SyntaxError"; exn_message := "Unexpected token" |}.

Definition TypeError (m : string) : exn :=
  {| exn_name := "TypeError"; exn_message := m |}.

(** JSON text of a one-member object whose value is a string: [{"k":"v"}]. *)
Definition json_object1 (k v : string) : string :=
  ("{" ++ quoted k ++ ":" ++ quoted v ++ "}")%string.

Definition text_error : string := json_object1 "type" "ERROR".
Definition text_scene : string := json_object1 "type" "SCENE_STATE".
Definition text_tick : string := json_object1 "type" "PHYSICS_TICK".
Definition text_other : string := json_object1 "type" "PING".
Definition text_untyped : string := json_object1 "hello" "world".

(** [{"type":"ERROR","message":{"toString":1}}] *)
Definition text_unprintable : string :=
  ("{" ++ quoted "type" ++ ":" ++ quoted "ERROR" ++ "," ++ quoted "message"
   ++ ":{" ++ quoted "toString" ++ ":1}}")%string.

(** A host whose parser knows the texts above and [null], whose clock reads
    [T0], [T1], ..., and whose IsoCard keeps its object list as it is. *)
Definition toy_host : Host := {|
  JSON_parse := fun s =>
    if String.eqb s "null" then inr VNull
    else if String.eqb s text_error then inr (VObj [("type", VStr "ERROR")])
    else if String.eqb s text_scene then inr (VObj [("type", VStr "SCENE_STATE")])
    else if String.eqb s text_tick then inr (VObj [("type", VStr "PHYSICS_TICK")])
    else if String.eqb s text_other then inr (VObj [("type", VStr "PING")])
    else if String.eqb s text_untyped then inr (VObj [("hello", VStr "world")])
    else if String.eqb s text_unprintable then
      inr (VObj [("type", VStr "ERROR");
                 ("message", VObj [("toString", VNum 1%float)])])
    else inl SyntaxError;
  TextDecoder_decode := string_of_list_byte;
  Date_toISOString := fun n => ("T" ++ string_of_nat n)%string;
  Number_toString := fun _ => "0";
  StringToNumber := fun _ => PrimFloat.nan;
  TypeError_null_read := TypeError "Cannot read properties of null";
  TypeError_not_iterable := TypeError "object is not iterable";
  TypeError_to_primitive := TypeError "Cannot convert object to primitive value";
  Quaternion_setFromEuler := fun e =>
    {| q_x := e_x e; q_y := e_y e; q_z := e_z e; q_w := VStr (e_order e) |};
  IsoCard_removeObject := fun c h _ => (c, h);
  IsoCard_addObjectsToLayer := fun c h _ _ => (c, h, None)
|}.

Definition origin : Vector3 :=
  {| v_x := VNum 0; v_y := VNum 0; v_z := VNum 0 |}.

Definition identity : Quaternion :=
  {| q_x := VNum 0; q_y := VNum 0; q_z := VNum 0; q_w := VNum 1 |}.

Definition object3d (n t : string) (p : option ref) (d : obj) : Object3D :=
  {| name := n; type := t; parent := p; position := origin;
     quaternion := identity; userData := d;
     matrixWorldNeedsUpdate := false; matrixAutoUpdate := true |}.

(** The scene root, a group ["ball"] tagged with the viewing layer, and the
    mesh ["ball"] inside it. *)
Definition demo_heap : Heap := fun r =>
  match r with
  | 0 => object3d "" "Scene" None []
  | 1 => object3d "ball" "Group" (Some 0) [("layer", VStr "server_layer")]
  | 2 => object3d "ball" "Mesh" (Some 1) []
  | _ => object3d "" "Object3D" None []
  end.

Definition demo_scene : Scene := Node 0 [Node 1 [Node 2 []]].

Definition demo_entry : Iso.Entry :=
  {| Iso.id := VNum 7; Iso.threeObj := Some 2; Iso.obj := None; Iso.self := 9;
     Iso.config := VObj [("name", VStr "ball"); ("layer", VStr "server_layer")] |}.

Definition demo_iso : Iso.IsoCard :=
  {| Iso.scene := Some demo_scene; Iso.rootScene := None;
     Iso.threeScene := None; Iso.objects := Some [demo_entry] |}.

(** The component's initial [state], with an empty JSON box. *)
Definition initial_state : State.t :=
  {| State.log := []; State.jsonText := "";
     State.wsStatus := State.disconnected;
     State.serverUrl := "ws://localhost:5000";
     State.layerId := "server_layer"; State.ready := true |}.

(** The component after [createIsoCard], before any message. *)
Definition demo_world : World :=
  {| iso := Some demo_iso; objectIndex := []; _tmpV := origin;
     _tmpQ := identity;
     _tmpE := {| e_x := VNum 0; e_y := VNum 0; e_z := VNum 0; e_order := "XYZ" |};
     pending := []; rafHandle := None; state := initial_state;
     heap := demo_heap; raf_requests := []; raf_next := 1;
     clock_reads := 0; iso_calls := [] |}.

End Demo.

(* ================================================================== *)
(** ** Vocabulary of the properties *)
(* ================================================================== *)

Section Vocabulary.

Context {host : Host}.

(** The log has at most 400 lines, or no more than the [n] it started with. *)
Definition log_ok (n : nat) (w : World) : Prop :=
  List.length (State.log (state w)) <= Nat.max 400 n.

(** The position [apply_position] leaves on the moved object. *)
Definition position_of_update (u : obj) (old : THREE.Vector3) : THREE.Vector3 :=
  if truthy (prop "position" u) then
    {| THREE.v_x := js_get (prop "position" u) "x";
       THREE.v_y := js_get (prop "position" u) "y";
       THREE.v_z := match js_get (prop "position" u) "z" with
                    | VUndef => THREE.v_z old
                    | _ => js_get (prop "position" u) "z"
                    end |}
  else if truthy (prop "pos" u) then
    {| THREE.v_x := js_index (prop "pos" u) 0;
       THREE.v_y := js_index (prop "pos" u) 1;
       THREE.v_z := js_index (prop "pos" u) 2 |}
  else old.

(** The last two steps of [applyOneUpdateTo] (the matrix flags and the
    IsoCard hooks) leave positions and quaternions as they are. *)
Definition finish_update (o : THREE.ref) (w : World) : World :=
  notify_transform o
    (with_heap (THREE.heap_set (heap w) o (THREE.with_matrix_flags (heap w o))) w).

(** The fields no step of a flush writes: the buffer itself (until it is
    cleared at the end), the frame request, the IsoCard instance and the
    viewing layer. *)
Definition same_frame (w w' : World) : Prop :=
  pending w' = pending w
  /\ rafHandle w' = rafHandle w
  /\ raf_requests w' = raf_requests w
  /\ raf_next w' = raf_next w
  /\ iso w' = iso w
  /\ State.layerId (state w') = State.layerId (state w).

(** What [OneUpdate] promises of [rot] and [eulerDeg], as far as
    destructuring needs it: not an object that is no array. *)
Definition destructurable (v : value) : bool :=
  match v with
  | VObj _ => false
  | _ => true
  end.

(** What [OneUpdate] promises of the orientation fields, as far as applying
    them needs it: the components of [rotation] convert to primitives (as
    numbers do), and [rot] and [eulerDeg] are arrays (or absent, or strings)
    whose elements do. *)
Definition tolerated (u : obj) : bool :=
  convertible (js_get (prop "rotation" u) "x")
  && convertible (js_get (prop "rotation" u) "y")
  && convertible (js_get (prop "rotation" u) "z")
  && convertible (js_get (prop "rotation" u) "w")
  && destructurable (prop "rot" u) && convertible (prop "rot" u)
  && destructurable (prop "eulerDeg" u) && convertible (prop "eulerDeg" u).

(** The frame request as the component and the browser see it. *)
Definition raf_same (w w' : World) : Prop :=
  rafHandle w' = rafHandle w /\ raf_requests w' = raf_requests w.

(** Either nothing is requested and the handle is null, or exactly the
    callback the handle names is. *)
Definition raf_inv (w : World) : Prop :=
  (rafHandle w = None /\ raf_requests w = [])
  \/ (exists h, rafHandle w = Some h /\ raf_requests w = [h]).

(** An object was moved when [setTransform] was called for it. *)
Definition moved_in (calls : list Iso.Call) (r : THREE.ref) : Prop :=
  exists p q, In (Iso.setTransform r p q) calls.

(** From [w] to [w'] calls were made into IsoCard, and every object for
    which [setTransform] was not among them is where it was. *)
Definition moved_only_as_told (w w' : World) : Prop :=
  exists calls,
    iso_calls w' = iso_calls w ++ calls
    /\ forall r, ~ moved_in calls r ->
         THREE.position (heap w' r) = THREE.position (heap w r)
         /\ THREE.quaternion (heap w' r) = THREE.quaternion (heap w r).

(** The chain as the specification words it: the cached entry; else, for a
    string key, the scene object of that name or of the name without the
    ["server_layer"] prefix, cached under the key as given; else the rebuilt
    index. *)
Definition resolveObject_chain (idOrName : value) (w : World)
  : option THREE.ref * World :=
  match map_get idOrName (objectIndex w) with
  | Some cached => (Some cached, w)
  | None =>
      let found :=
        match idOrName, getThreeScene w with
        | VStr s, Some scene =>
            match THREE.getObjectByName (heap w) scene s with
            | Some r => Some r
            | None =>
                THREE.getObjectByName (heap w) scene
                  (strip_prefix "server_layer" s)
            end
        | _, _ => None
        end in
      match found with
      | Some r =>
          (Some r, with_objectIndex (map_set idOrName r (objectIndex w)) w)
      | None =>
          (map_get idOrName (objectIndex (rebuildObjectIndex w)),
           rebuildObjectIndex w)
      end
  end.

(** No member named ["physics"], at any depth. *)
Fixpoint physics_free (v : value) : bool :=
  match v with
  | VArr items => forallb physics_free items
  | VObj fs =>
      forallb
        (fun kv => negb (String.eqb (fst kv) "physics") && physics_free (snd kv))
        fs
  | _ => true
  end.

Definition members_free (fs : obj) : bool :=
  forallb
    (fun kv => negb (String.eqb (fst kv) "physics") && physics_free (snd kv)) fs.

(** [this.iso.objects], or no objects when the list is missing. *)
Definition iso_entries (c : Iso.IsoCard) : list Iso.Entry :=
  match Iso.objects c with
  | Some entries => entries
  | None => []
  end.

End Vocabulary.

(** *** Vocabulary of the helpers' own properties *)

Section Notions.

Context {host : Host}.

(** The members [stripPhysicsDeep] leaves of an object. *)
Definition stripped_members (fs : obj) : obj :=
  match stripped (VObj fs) with
  | VObj ms => ms
  | _ => []
  end.

(** A number JSON text can say and [JSON.parse] gives back as it was: finite,
    and not the negative zero (which [JSON.stringify] prints as ["0"]). *)
Definition json_number (n : float) : bool :=
  negb (PrimFloat.is_nan n || PrimFloat.is_infinity n)
  && (negb (PrimFloat.is_zero n)
      || match Prim2SF n with
         | S754_zero false => true
         | _ => false
         end).

(** No two members of one name. *)
Fixpoint unique_names (fs : obj) : bool :=
  match fs with
  | [] => true
  | (k, _) :: rest => negb (has_own k rest) && unique_names rest
  end.

(** A value as [JSON.parse] makes them: no [undefined] anywhere, numbers as
    above, every object with each name once. *)
Fixpoint json_clean (v : value) : bool :=
  match v with
  | VUndef => false
  | VNull | VBool _ | VStr _ => true
  | VNum n => json_number n
  | VArr items => forallb json_clean items
  | VObj fs => unique_names fs && forallb (fun kv => json_clean (snd kv)) fs
  end.

(** [this.iso.objects] of the component, or no objects. *)
Definition world_entries (w : World) : list Iso.Entry :=
  match iso w with
  | Some c => iso_entries c
  | None => []
  end.

(** The keys under which [rebuildObjectIndex] files things: a scene object
    under its non-empty name, an IsoCard entry under its id (unless
    [undefined]) and under its config name (when truthy). *)
Definition named_as (h : THREE.Heap) (k : value) (r : THREE.ref) : bool :=
  negb (String.eqb (THREE.name (h r)) "")
  && same_value_zero (VStr (THREE.name (h r))) k.

Definition claims (k : value) (e : Iso.Entry) : bool :=
  (negb (strict_eq (Iso.id e) VUndef) && same_value_zero (Iso.id e) k)
  || (truthy (js_get (Iso.config e) "name")
      && same_value_zero (js_get (Iso.config e) "name") k).

(** What a lookup in the rebuilt index answers: the object of the last
    entry of [iso.objects] that claims the key, else the last object in
    traversal order that bears it as its name. *)
Definition rebuilt_lookup (w : World) (scene : THREE.Scene) (k : value)
  : option THREE.ref :=
  match find (claims k) (rev (world_entries w)) with
  | Some e => Some (entry_object e)
  | None => find (named_as (heap w) k) (rev (THREE.traverse scene))
  end.

(** The key [enqueuePhysics] files an update under: [u.id ?? u.name]. *)
Definition update_key (u : obj) : value := prop "id" u ?? prop "name" u.

(** A buffered update sits under its own key, and the key is neither
    [null] nor [undefined]. *)
Definition keyed (entry : value * obj) : Prop :=
  nullish (fst entry) = false
  /\ (fst entry = update_key (snd entry)
      \/ same_value_zero (fst entry) (update_key (snd entry)) = true).

(** The state besides the log: what the input boxes and the socket set. *)
Definition settings (w : World)
  : string * State.WsStatus * string * string * bool :=
  (State.jsonText (state w), State.wsStatus (state w),
   State.serverUrl (state w), State.layerId (state w), State.ready (state w)).

(** The entry has the object [r] as its [threeObj]. *)
Definition shows (r : THREE.ref) (e : Iso.Entry) : bool :=
  match Iso.threeObj e with
  | Some r0 => Nat.eqb r0 r
  | None => false
  end.

(** [e?.config?.layer || layerId] *)
Definition layer_tag (layerId : string) (e : Iso.Entry) : value :=
  js_get (Iso.config e) "layer" ||| VStr layerId.

(** From [w] to [w'] no scene object but [o] was written, and of [o]
    neither name, type, parent nor user data; the index, the buffer, the
    state and the IsoCard instance are as they were. *)
Definition wrote_only (o : THREE.ref) (w w' : World) : Prop :=
  (forall r, r <> o -> heap w' r = heap w r)
  /\ THREE.name (heap w' o) = THREE.name (heap w o)
  /\ THREE.type (heap w' o) = THREE.type (heap w o)
  /\ THREE.parent (heap w' o) = THREE.parent (heap w o)
  /\ THREE.userData (heap w' o) = THREE.userData (heap w o)
  /\ objectIndex w' = objectIndex w
  /\ pending w' = pending w
  /\ state w' = state w
  /\ iso w' = iso w.

(** From [w] to [w'] there was no IsoCard instance to apply anything to:
    every buffered key is still buffered, no scene object was touched and no
    call was made. *)
Definition waiting (w w' : World) : Prop :=
  iso w' = None
  /\ (forall key, map_get key (pending w) <> None ->
                  map_get key (pending w') <> None)
  /\ heap w' = heap w
  /\ iso_calls w' = iso_calls w.


End Notions.

(** A host like [Demo.toy_host] whose IsoCard refuses every scene. *)
Definition refusing_host : Host := {|
  JSON_parse := JSON_parse (Host := Demo.toy_host);
  TextDecoder_decode := TextDecoder_decode (Host := Demo.toy_host);
  Date_toISOString := Date_toISOString (Host := Demo.toy_host);
  Number_toString := Number_toString (Host := Demo.toy_host);
  StringToNumber := StringToNumber (Host := Demo.toy_host);
  TypeError_null_read := TypeError_null_read (Host := Demo.toy_host);
  TypeError_not_iterable := TypeError_not_iterable (Host := Demo.toy_host);
  TypeError_to_primitive := TypeError_to_primitive (Host := Demo.toy_host);
  Quaternion_setFromEuler := Quaternion_setFromEuler (Host := Demo.toy_host);
  IsoCard_removeObject := IsoCard_removeObject (Host := Demo.toy_host);
  IsoCard_addObjectsToLayer := fun c h _ _ =>
    (c, h, Some {| exn_name := "Error"; exn_message := "bad scene" |})
|}.

(* ================================================================== *)
(** ** Socket plumbing, sending and the buttons *)
(* ================================================================== *)

Module Ws.

(** The calls the component makes on the WebSocket API.  A socket is named
    by its place in the order of construction. *)
Inductive Call : Type :=
| construct (url : string) (ws : nat)
| close (ws : nat)
| send (ws : nat) (text : string).

End Ws.

(** What the plumbing calls and does not define. *)
Class Browser := {
  (** the text of [JSON.stringify(payload)] *)
  JSON_stringify : value -> string;
  (** what [new WebSocket(url)] throws, when it throws (a URL it cannot
      use) *)
  WebSocket_new : string -> option exn;
  (** what [socket.send(text)] throws, when it throws, given the number of
      calls made on sockets before it *)
  WebSocket_send : nat -> nat -> string -> option exn
}.

(** The component with its socket: the fields and environment of [World],
    the field [socket], and the browser's side of the sockets, that is how
    many were constructed and the calls made on them, in order. *)
Record Page := {
  world : World;
  socket : option nat;
  ws_count : nat;
  ws_calls : list Ws.Call
}.

Definition with_world (v : World) (p : Page) : Page :=
  {| world := v; socket := socket p; ws_count := ws_count p;
     ws_calls := ws_calls p |}.

Definition with_socket (v : option nat) (p : Page) : Page :=
  {| world := world p; socket := v; ws_count := ws_count p;
     ws_calls := ws_calls p |}.

Definition with_ws_count (v : nat) (p : Page) : Page :=
  {| world := world p; socket := socket p; ws_count := v;
     ws_calls := ws_calls p |}.

Definition with_ws_calls (v : list Ws.Call) (p : Page) : Page :=
  {| world := world p; socket := socket p; ws_count := ws_count p;
     ws_calls := v |}.

(** [this.setState({ wsStatus: s })] *)
Definition with_wsStatus (s : State.WsStatus) (w : World) : World :=
  with_state
    {| State.log := State.log (state w);
       State.jsonText := State.jsonText (state w);
       State.wsStatus := s;
       State.serverUrl := State.serverUrl (state w);
       State.layerId := State.layerId (state w);
       State.ready := State.ready (state w) |} w.

(** [this.setState({ serverUrl: s })], from the URL box. *)
Definition with_serverUrl (s : string) (w : World) : World :=
  with_state
    {| State.log := State.log (state w);
       State.jsonText := State.jsonText (state w);
       State.wsStatus := State.wsStatus (state w);
       State.serverUrl := s;
       State.layerId := State.layerId (state w);
       State.ready := State.ready (state w) |} w.

(** [this.setState({ jsonText: s })], from the text area. *)
Definition with_jsonText (s : string) (w : World) : World :=
  with_state
    {| State.log := State.log (state w);
       State.jsonText := s;
       State.wsStatus := State.wsStatus (state w);
       State.serverUrl := State.serverUrl (state w);
       State.layerId := State.layerId (state w);
       State.ready := State.ready (state w) |} w.

Section Plumbing.

Context {host : Host} {browser : Browser}.

(** A step that touches the fields of [World] only. *)
Definition on_world (f : World -> World) (p : Page) : Page :=
  with_world (f (world p)) p.

(** *** WebSocket plumbing (source lines 167-203) *)

(** [try { this.socket?.close() } catch {}; this.socket = null;
     this.setState({ wsStatus: "disconnected" })] *)
Definition closeWebSocket (p : Page) : Page :=
  let p :=
    match socket p with
    | Some ws => with_ws_calls (ws_calls p ++ [Ws.close ws]) p
    | None => p
    end in
  on_world (with_wsStatus State.disconnected) (with_socket None p).

(** The four handlers [openWebSocket] installs on the socket [ws] it
    constructs. *)
Definition ws_onopen (ws : nat) (p : Page) : Page :=
  on_world (log "WebSocket connected")
    (on_world (with_wsStatus State.connected) (with_socket (Some ws) p)).

Definition ws_onmessage (data : SocketData) (p : Page) : Page :=
  on_world (onMessage data) p.

Definition ws_onclose (p : Page) : Page :=
  on_world (with_wsStatus State.disconnected)
    (with_socket None (on_world (log "WebSocket closed") p)).

Definition ws_onerror (p : Page) : Page :=
  on_world (with_wsStatus State.disconnected)
    (on_world (log "WebSocket error") p).

Definition openWebSocket (p : Page) : Page :=
  let serverUrl := State.serverUrl (state (world p)) in
  let p := on_world (log ("Connecting to " ++ serverUrl)%string) p in
  let p := on_world (with_wsStatus State.connecting) p in
  let p := closeWebSocket p in
  match WebSocket_new serverUrl with
  | Some e =>
      on_world (with_wsStatus State.disconnected)
        (on_world (log ("WebSocket connection failed: " ++ exn_text e)%string) p)
  | None =>
      with_ws_count (S (ws_count p))
        (with_ws_calls (ws_calls p ++ [Ws.construct serverUrl (ws_count p)]) p)
  end.

(** *** send (source lines 205-216) *)

(** Inside the [try]: [socket.send] is called, and when it returns
    [payload.type] is read for the log, which throws on [null] and
    [undefined], and printed, which throws when it has no conversion. *)
Definition send (payload : value) (p : Page) : Page :=
  match socket p, State.wsStatus (state (world p)) with
  | Some ws, State.connected =>
      let text := JSON_stringify payload in
      let sent : exn + string :=
        match WebSocket_send (List.length (ws_calls p)) ws text with
        | Some e => inl e
        | None =>
            if nullish payload then inl TypeError_null_read
            else match to_string (js_get payload "type") with
                 | Some shown => inr shown
                 | None => inl TypeError_to_primitive
                 end
        end in
      let p := with_ws_calls (ws_calls p ++ [Ws.send ws text]) p in
      match sent with
      | inr shown => on_world (log ("Sent: " ++ shown)%string) p
      | inl e => on_world (log ("Send failed: " ++ exn_text e)%string) p
      end
  | _, _ => on_world (log "Not connected. Can't send.") p
  end.

(** *** UI helpers and render (source lines 449-504) *)

Definition handleSendScene (p : Page) : Page :=
  match JSON_parse (State.jsonText (state (world p))) with
  | inl e => on_world (log ("Invalid JSON: " ++ exn_text e)%string) p
  | inr parsed =>
      send (VObj [("type", VStr "START"); ("scene", parsed);
                  ("layerName", VStr (State.layerId (state (world p))))]) p
  end.

(** The buttons [render] draws. *)
Inductive Button : Type :=
| ConnectButton
| GetSceneButton
| StartPhysicsButton
| StopPhysicsButton
| SendSceneButton.

(** [wsStatus === "connected"] *)
Definition is_connected (s : State.t) : bool :=
  match State.wsStatus s with
  | State.connected => true
  | _ => false
  end.

(** What [render] makes of the state [s] for each button: its text, its
    [disabled] attribute, and its [onClick] handler. *)
Definition button_text (s : State.t) (b : Button) : string :=
  match b with
  | ConnectButton => if is_connected s then "Disconnect" else "Connect"
  | GetSceneButton => "GET_SCENE"
  | StartPhysicsButton => "START_PHYSICS"
  | StopPhysicsButton => "STOP_PHYSICS"
  | SendSceneButton => "Send Scene (JSON)"
  end.

Definition button_disabled (s : State.t) (b : Button) : bool :=
  match b with
  | ConnectButton => false
  | _ => negb (is_connected s)
  end.

Definition button_onClick (s : State.t) (b : Button) : Page -> Page :=
  match b with
  | ConnectButton => if is_connected s then closeWebSocket else openWebSocket
  | GetSceneButton => send (VObj [("type", VStr "GET_SCENE")])
  | StartPhysicsButton => send (VObj [("type", VStr "START_PHYSICS")])
  | StopPhysicsButton => send (VObj [("type", VStr "STOP_PHYSICS")])
  | SendSceneButton => handleSendScene
  end.

(** *** The page's event loop *)

(** A click runs the handler the last render gave the button, unless the
    button was drawn disabled. *)
Definition click (b : Button) (p : Page) : Page :=
  let s := state (world p) in
  if button_disabled s b then p else button_onClick s b p.

(** What can happen to the mounted page: a click, typing into one of the
    three boxes, an event of a socket the component constructed, and an
    animation frame. *)
Inductive ui : Type :=
| Click (b : Button)
| TypeServerUrl (s : string)
| TypeLayerId (s : string)
| TypeJsonText (s : string)
| SocketOpened (ws : nat)
| SocketMessage (ws : nat) (data : SocketData)
| SocketClosed (ws : nat)
| SocketFailed (ws : nat)
| NextFrame.

(** An event of the socket [ws] reaches the handler installed on it; a
    socket that was never constructed has no events. *)
Definition of_socket (ws : nat) (handler : Page -> Page) (p : Page) : Page :=
  if Nat.ltb ws (ws_count p) then handler p else p.

Definition page_step (p : Page) (e : ui) : Page :=
  match e with
  | Click b => click b p
  | TypeServerUrl s => on_world (with_serverUrl s) p
  | TypeLayerId s => on_world (with_layerId s) p
  | TypeJsonText s => on_world (with_jsonText s) p
  | SocketOpened ws => of_socket ws (ws_onopen ws) p
  | SocketMessage ws data => of_socket ws (ws_onmessage data) p
  | SocketClosed ws => of_socket ws ws_onclose p
  | SocketFailed ws => of_socket ws ws_onerror p
  | NextFrame => on_world animationFrame p
  end.

Definition page_run (events : list ui) (p : Page) : Page :=
  fold_left page_step events p.

(** *** Vocabulary of the plumbing's properties *)

(** The socket field and the status agree: the status is never left at
    ["connecting"], a connected component holds a socket, and the socket it
    holds is one it constructed. *)
Definition socket_inv (p : Page) : Prop :=
  State.wsStatus (state (world p)) <> State.connecting
  /\ (State.wsStatus (state (world p)) = State.connected -> socket p <> None)
  /\ (forall ws, socket p = Some ws -> ws < ws_count p).

(** The log of the page has at most 400 lines, or no more than [n]. *)
Definition page_log_ok (n : nat) (p : Page) : Prop := log_ok n (world p).

End Plumbing.

Module DemoPage.

(** A browser that prints a payload as its [type] between braces, accepts
    every URL but the empty one, and never fails to send. *)
Definition toy_browser : Browser := {|
  JSON_stringify := fun v =>
    ("{" ++ text_of (host := Demo.toy_host) (js_get v "type") ++ "}")%string;
  WebSocket_new := fun url =>
    if String.eqb url "" then Some Demo.SyntaxError else None;
  WebSocket_send := fun _ _ _ => None
|}.

(** The page after [createIsoCard], before [openWebSocket]. *)
Definition demo_page : Page :=
  {| world := Demo.demo_world; socket := None; ws_count := 0; ws_calls := [] |}.

End DemoPage.

(** *** Concrete runs *)

Section Runs.

#[local] Existing Instance Demo.toy_host.

(** [{ ...{a: 1}, ...{a: undefined, b: 2} }] has [a: undefined]. *)
Example spread_copies_undefined :
  spread (spread [] (VObj [("a", VNum 1%float)]))
    (VObj [("a", VUndef); ("b", VNum 2%float)])
  = [("a", VUndef); ("b", VNum 2%float)].
Proof. reflexivity. Qed.

(** [1] and ["1"] are different keys; [0] and [-0] are the same key. *)
Example map_keys_by_same_value_zero :
  map_get (VStr "1") (map_set (VNum 1%float) 10 []) = None
  /\ map_get (VNum (-0)%float) (map_set (VNum 0%float) 10 []) = Some 10.
Proof. split; reflexivity. Qed.

(** A record-form batch sent as the message itself: its [type] member is
    buffered as an update named ["type"], next to the real one. *)
Example record_form_of_whole_message :
  collect
    (VObj [("type", VStr "TICK"); ("ball", VObj [("pos", VArr [VNum 1%float])])])
    (VStr "L")
  = Some
      [[("0", VStr "T"); ("1", VStr "I"); ("2", VStr "C"); ("3", VStr "K");
        ("id", VUndef); ("name", VStr "type"); ("layerId", VStr "L")];
       [("pos", VArr [VNum 1%float]); ("id", VUndef); ("name", VStr "ball");
        ("layerId", VStr "L")]].
Proof. reflexivity. Qed.

(** An update by name moves the group ["ball"] at the next frame, which
    also resets the handle, empties the buffer and logs. *)
Example enqueue_then_frame :
  let batch := VArr [VObj [("name", VStr "ball");
                           ("pos", VArr [VNum 1; VNum 2; VNum 3]%float)]] in
  let w := animationFrame (enqueuePhysics batch VUndef Demo.demo_world) in
  THREE.position (heap w 1)
  = {| THREE.v_x := VNum 1%float; THREE.v_y := VNum 2%float;
       THREE.v_z := VNum 3%float |}
  /\ pending w = [] /\ rafHandle w = None
  /\ objectIndex w = [(VStr "ball", 1)]
  /\ State.log (state w) = ["T0 — Applied 1 transform"].
Proof. repeat split. Qed.

(** An update by id misses the index, which is rebuilt; the mesh it finds
    stands under a group of its name, and the group is turned. *)
Example update_by_id_rebuilds_index :
  let batch := VArr [VObj [("id", VNum 7%float);
                           ("rot", VArr [VNum 0; VNum 0; VNum 0; VNum 1]%float)]] in
  let w := animationFrame (enqueuePhysics batch VUndef Demo.demo_world) in
  objectIndex w = [(VStr "ball", 2); (VNum 7%float, 2)]
  /\ State.log (state w)
     = ["T0 — Indexed 2 ids/names"; "T1 — Applied 1 transform"]
  /\ iso_calls w
     = [Iso.setTransform 1 Demo.origin
          {| THREE.q_x := VNum 0%float; THREE.q_y := VNum 0%float;
             THREE.q_z := VNum 0%float; THREE.q_w := VNum 1%float |};
        Iso.onObjectTransformChanged 1; Iso.renderScene].
Proof. repeat split. Qed.

(** Deep stripping: ["physics"] goes at every depth, and with it what
    [JSON.stringify] cannot print. *)
Example strip_physics_deep :
  stripPhysicsDeep
    (VArr [VObj [("name", VStr "crate");
                 ("physics", VObj [("mass", VNum 2%float)]);
                 ("children", VArr [VObj [("physics", VNull); ("size", VNum infinity)]])]])
  = inr (VArr [VObj [("name", VStr "crate");
                     ("children", VArr [VObj [("size", VNull)]])]]).
Proof. reflexivity. Qed.

(** A [position] without [z] moves the group in [x] and [y] and leaves its
    [z] where it was. *)
Example position_without_z_keeps_z :
  let lifted :=
    THREE.heap_set Demo.demo_heap 1
      (THREE.with_position
         {| THREE.v_x := VNum 0%float; THREE.v_y := VNum 0%float;
            THREE.v_z := VNum 9%float |} (Demo.demo_heap 1)) in
  let u := [("position", VObj [("x", VNum 1%float); ("y", VNum 2%float)])] in
  match applyOneUpdateTo 2 u (with_heap lifted Demo.demo_world) with
  | Returned w' =>
      THREE.position (heap w' 1)
      = {| THREE.v_x := VNum 1%float; THREE.v_y := VNum 2%float;
           THREE.v_z := VNum 9%float |}
  | Thrown _ _ => False
  end.
Proof. vm_compute. reflexivity. Qed.

(** An [eulerDeg] angle that is an object with a member named ["toString"]
    cannot be multiplied: the update throws before it has turned
    anything. *)
Example unconvertible_angle_throws :
  applyOneUpdateTo 2
    [("eulerDeg", VArr [VObj [("toString", VNum 1%float)]; VNum 0%float;
                        VNum 0%float])]
    Demo.demo_world
  = Thrown (Demo.TypeError "Cannot convert object to primitive value")
      Demo.demo_world.
Proof. reflexivity. Qed.

(** A [rotation] with such a component is stored as it is, and the
    update throws when the group recomputes its Euler angles. *)
Example unconvertible_rotation_throws :
  let bad := VObj [("toString", VNum 1%float)] in
  let u := [("rotation", VObj [("x", bad); ("y", VNum 0%float);
                               ("z", VNum 0%float); ("w", VNum 1%float)])] in
  match applyOneUpdateTo 2 u Demo.demo_world with
  | Returned _ => False
  | Thrown e w' =>
      e = Demo.TypeError "Cannot convert object to primitive value"
      /\ THREE.q_x (THREE.quaternion (heap w' 1)) = bad
      /\ iso_calls w' = []
  end.
Proof. vm_compute. repeat split. Qed.

(** U+1F600, four bytes in UTF-8, counts as two code units and is iterated
    as one code point; its second code unit is the surrogate U+DE00. *)
Example code_units_of_a_surrogate_pair :
  let face :=
    String (ascii_of_nat 240)
      (String (ascii_of_nat 159)
         (String (ascii_of_nat 152) (String (ascii_of_nat 128) EmptyString))) in
  js_get (VStr face) "length" = VNum 2%float
  /\ points face = [VStr face]
  /\ js_index (VStr face) 1
     = VStr (String (ascii_of_nat 237)
               (String (ascii_of_nat 184)
                  (String (ascii_of_nat 128) EmptyString))).
Proof. vm_compute. repeat split. Qed.

(** Text that is only white space is dropped without a trace. *)
Example blank_message_ignored :
  onMessage (Text "  ") Demo.demo_world = Demo.demo_world.
Proof. reflexivity. Qed.

End Runs.

(* ================================================================== *)
(** ** Properties *)
(* ================================================================== *)

(** Case analysis on every guard of a method body: the conditions of its
    [if]s and the outcome of a destructuring. *)
Ltac case_guards :=
  repeat match goal with
         | |- context [if ?c then _ else _] => destruct c
         | |- context [match destructure3 ?v with _ => _ end] =>
             destruct (destructure3 v) as [?|[[? ?] ?]]
         | |- context [match deg_to_rad ?v with _ => _ end] =>
             destruct (deg_to_rad v)
         end.

(** *** Lists and loops *)

Lemma fold_left_invariant {A B} (P : A -> Prop) (f : A -> B -> A) :
  (forall a b, P a -> P (f a b)) ->
  forall l a, P a -> P (fold_left f l a).
Proof.
  intros step l. induction l as [|b l IH]; intros a Ha; simpl; auto.
Qed.

Lemma NoDup_app_disjoint {A} (l1 l2 : list A) :
  NoDup (l1 ++ l2) -> forall x, In x l1 -> In x l2 -> False.
Proof.
  induction l1 as [|a l1 IH]; simpl; intros Hnd x H1 H2; [contradiction|].
  inversion Hnd as [|? ? Ha Hnd']; subst.
  destruct H1 as [->|H1].
  - apply Ha. apply in_or_app. right. exact H2.
  - exact (IH Hnd' x H1 H2).
Qed.

Lemma slice_last_length {A} (n : nat) (l : list A) :
  List.length (slice_last n l) <= n.
Proof. unfold slice_last. rewrite length_skipn. lia. Qed.

Lemma slice_last_snoc {A} (n : nat) (l : list A) (x : A) :
  0 < n -> slice_last n (l ++ [x]) = skipn (List.length l + 1 - n) l ++ [x].
Proof.
  intros Hn. unfold slice_last. rewrite length_app. simpl.
  rewrite skipn_app.
  replace (List.length l + 1 - n - List.length l) with 0 by lia.
  reflexivity.
Qed.

(** *** What a message can do *)

(** What [onMessage] does, by cases: nothing; one log line (an unknown
    type, or a failure before anything was logged); a scene ingestion or a
    batch enqueued after the line that reports the message; two log
    lines. *)
Lemma onMessage_cases {host : Host} data w :
  onMessage data w = w
  \/ (exists m, onMessage data w = log m w)
  \/ (exists m d, onMessage data w = handleSceneState d (log m w))
  \/ (exists m o d, onMessage data w = enqueuePhysics o d (log m w))
  \/ (exists m m', onMessage data w = log m' (log m w)).
Proof.
  unfold onMessage, onMessage_try.
  destruct (blank _); [left; reflexivity|].
  destruct (JSON_parse _) as [e|msg]; [right; left; eexists; reflexivity|].
  destruct (nullish msg); [right; left; eexists; reflexivity|].
  destruct (negb _); [left; reflexivity|].
  unfold dispatch.
  destruct (to_string (js_get msg "type")) as [shown|];
    [|right; left; eexists; reflexivity].
  destruct (strict_eq _ (VStr "SCENE_STATE")).
  { right; right; left. eexists _, _. reflexivity. }
  destruct (is_transform_type _).
  { right; right; right; left. eexists _, _, _. reflexivity. }
  destruct (strict_eq _ _).
  - destruct (to_string _); right; right; right; right; eexists _, _; reflexivity.
  - right; left. eexists. reflexivity.
Qed.

(** *** The log stays bounded through every method *)

Section LogBound.

Context {host : Host}.

Lemma log_lines m w :
  State.log (state (log m w))
  = slice_last 400
      (State.log (state w)
       ++ [(Date_toISOString (clock_reads w) ++ " — " ++ m)%string]).
Proof. reflexivity. Qed.

Lemma log_ok_log n m w : log_ok n (log m w).
Proof.
  unfold log_ok. rewrite log_lines.
  pose proof (slice_last_length 400
    (State.log (state w)
     ++ [(Date_toISOString (clock_reads w) ++ " — " ++ m)%string])).
  lia.
Qed.

Lemma log_ok_rebuildObjectIndex n w : log_ok n w -> log_ok n (rebuildObjectIndex w).
Proof.
  intros H. unfold rebuildObjectIndex.
  destruct (getThreeScene (with_objectIndex [] w)); [apply log_ok_log | exact H].
Qed.

Lemma log_ok_resolveObject n k w : log_ok n w -> log_ok n (snd (resolveObject k w)).
Proof.
  intros H. unfold resolveObject.
  destruct (map_get k (objectIndex w)); [exact H|].
  destruct (getThreeScene w); [|exact H].
  match goal with |- context [match ?f with Some _ => _ | None => _ end] => destruct f end;
    [exact H | apply log_ok_rebuildObjectIndex, H].
Qed.

Lemma state_apply_orientation o u w :
  match apply_orientation o u w with
  | Returned w' | Thrown _ w' => state w' = state w
  end.
Proof.
  unfold apply_orientation, write_quaternion, set_rotation_from_euler.
  case_guards; reflexivity.
Qed.

Lemma state_applyOneUpdateTo t u w :
  match applyOneUpdateTo t u w with
  | Returned w' | Thrown _ w' => state w' = state w
  end.
Proof.
  unfold applyOneUpdateTo.
  set (o := transform_target (heap w) t).
  assert (Hp : state (apply_position o u w) = state w).
  { unfold apply_position. case_guards; reflexivity. }
  pose proof (state_apply_orientation o u (apply_position o u w)) as Ho.
  destruct (apply_orientation o u (apply_position o u w)) as [w1|e w1]; simpl.
  - unfold notify_transform. destruct (iso _); simpl; congruence.
  - congruence.
Qed.

Lemma log_ok_flush_step n hint acc entry :
  log_ok n (fst acc) ->
  match flush_step hint acc entry with
  | Returned acc' => log_ok n (fst acc')
  | Thrown _ w' => log_ok n w'
  end.
Proof.
  destruct acc as [w applied], entry as [key u]. simpl. intros H.
  pose proof (log_ok_resolveObject n key w H) as Hr.
  destruct (resolveObject key w) as [[o|] w1]; simpl in *; [|exact Hr].
  destruct (layer_mismatch _ _); simpl; [exact Hr|].
  pose proof (state_applyOneUpdateTo o u w1) as Ha.
  destruct (applyOneUpdateTo o u w1); simpl; unfold log_ok in *; rewrite Ha; exact Hr.
Qed.

Lemma log_ok_flush_loop n hint entries : forall acc,
  log_ok n (fst acc) ->
  match flush_loop hint entries acc with
  | Returned acc' => log_ok n (fst acc')
  | Thrown _ w' => log_ok n w'
  end.
Proof.
  induction entries as [|entry rest IH]; intros acc H; simpl; [exact H|].
  pose proof (log_ok_flush_step n hint acc entry H) as Hs.
  destruct (flush_step hint acc entry) as [acc'|e w']; simpl;
    [apply IH; exact Hs | exact Hs].
Qed.

Lemma log_ok_flushPending n w :
  log_ok n w -> log_ok n (world_after (flushPending w)).
Proof.
  intros H. unfold flushPending.
  destruct (iso w); [|exact H].
  destruct (pending w) as [|p ps] eqn:Ep; [exact H|].
  pose proof (log_ok_flush_loop n (State.layerId (state w)) (p :: ps) (w, 0) H) as Hl.
  destruct (flush_loop _ _ _) as [[w1 applied]|e w1]; simpl in *; [|exact Hl].
  destruct (Nat.eqb applied 0); [exact Hl | apply log_ok_log].
Qed.

Lemma log_ok_animationFrame n w : log_ok n w -> log_ok n (animationFrame w).
Proof.
  intros H. unfold animationFrame.
  apply fold_left_invariant; [|exact H].
  intros a _ Ha. unfold frame_callback. apply log_ok_flushPending. exact Ha.
Qed.

Lemma log_ok_handleSceneState n d w : log_ok n w -> log_ok n (handleSceneState d w).
Proof.
  intros H. unfold handleSceneState.
  destruct (iso w); [|apply log_ok_log].
  destruct (handleSceneState_try d w) eqn:E; [|apply log_ok_log].
  unfold handleSceneState_try in E.
  destruct (stripPhysicsDeep d); [discriminate|].
  destruct (iso (clearLayer _ w)); [|discriminate].
  destruct (IsoCard_addObjectsToLayer _ _ _ _) as [[c' h'] [e|]]; [discriminate|].
  injection E as <-. apply log_ok_log.
Qed.

Lemma log_ok_enqueuePhysics n o d w : log_ok n w -> log_ok n (enqueuePhysics o d w).
Proof.
  intros H. unfold enqueuePhysics.
  destruct (collect o d); [|exact H].
  cbn. destruct (rafHandle w); exact H.
Qed.

Lemma log_ok_onMessage n data w : log_ok n w -> log_ok n (onMessage data w).
Proof.
  intros H.
  destruct (onMessage_cases data w)
    as [->|[[m ->]|[(m & d & ->)|[(m & o & d & ->)|(m & m' & ->)]]]].
  - exact H.
  - apply log_ok_log.
  - apply log_ok_handleSceneState, log_ok_log.
  - apply log_ok_enqueuePhysics, log_ok_log.
  - apply log_ok_log.
Qed.

Lemma log_ok_step n w e : log_ok n w -> log_ok n (step w e).
Proof.
  intros H. destruct e; simpl.
  - apply log_ok_onMessage, H.
  - apply log_ok_enqueuePhysics, H.
  - apply log_ok_animationFrame, H.
  - exact H.
Qed.

End LogBound.

(** C8. The on-screen log is bounded and append-only: a [log] call puts one
    line, the ISO timestamp followed by the message, after the lines that
    were there and keeps the last 400, so the lines it retains are a suffix
    of the old log, unchanged; the log has at most 400 lines after any
    [log] call, and, over any sequence of events, never more than 400 (or
    than it started with). *)
Theorem log_bounded_append_only :
  forall (host : Host) (m : string) (w : World),
    let line := (Date_toISOString (clock_reads w) ++ " — " ++ m)%string in
    let old := State.log (state w) in
    let new := State.log (state (log m w)) in
    new = skipn (List.length old + 1 - 400) old ++ [line]
    /\ List.length new <= 400
    /\ (List.length old < 400 -> new = old ++ [line])
    /\ (forall events : list event,
          List.length (State.log (state (run events w)))
          <= Nat.max 400 (List.length old)).
Proof.
  intros host m w line old new.
  assert (Hnew : new = slice_last 400 (old ++ [line])) by reflexivity.
  repeat split.
  - rewrite Hnew. apply slice_last_snoc. lia.
  - rewrite Hnew. apply slice_last_length.
  - intros Hlt. rewrite Hnew, slice_last_snoc by lia.
    replace (List.length old + 1 - 400) with 0 by lia. reflexivity.
  - intros events. unfold run.
    apply (fold_left_invariant (log_ok (List.length old)) step).
    + intros a e Ha. apply log_ok_step, Ha.
    + unfold log_ok. subst old. lia.
Qed.

(** The 401st line pushes the oldest one out. *)
Lemma log_bounded_append_only_witness :
  let w := with_log (repeat "old" 400) Demo.demo_world in
  State.log (state (log (host := Demo.toy_host) "new" w))
  = repeat "old" 399 ++ ["T0 — new"].
Proof.
  intros w.
  destruct (log_bounded_append_only Demo.toy_host "new" w) as [H _].
  rewrite H. vm_compute. reflexivity.
Defined.

(** *** Message handling *)

(** Whenever the text is not blank and [JSON.parse] rejects it, the [try]
    block throws what the parser threw, with nothing changed. *)
Lemma onMessage_try_parse_error {host : Host} data w e :
  blank (message_text data) = false ->
  JSON_parse (message_text data) = inl e ->
  onMessage_try data w = Thrown e w.
Proof. intros Hb Hp. unfold onMessage_try. rewrite Hb, Hp. reflexivity. Qed.

Lemma strict_eq_string v s : strict_eq v (VStr s) = true -> v = VStr s.
Proof.
  destruct v; simpl; try discriminate.
  intros H. apply String.eqb_eq in H. congruence.
Qed.

(** The [try] block throws before it has changed anything but the log:
    either nothing was done yet, or an ERROR message was reported as
    received and its [message] could not be printed. *)
Lemma onMessage_try_thrown {host : Host} data w e w' :
  onMessage_try data w = Thrown e w' ->
  w' = w \/ (w' = log "Received: ERROR" w /\ e = TypeError_to_primitive).
Proof.
  unfold onMessage_try. intros H.
  destruct (blank _); [discriminate|].
  destruct (JSON_parse _) as [e0|msg]; [injection H as _ <-; left; reflexivity|].
  destruct (nullish msg); [injection H as _ <-; left; reflexivity|].
  destruct (negb _); [discriminate|].
  unfold dispatch in H.
  destruct (to_string (js_get msg "type")) as [shown|] eqn:Es;
    [|injection H as _ <-; left; reflexivity].
  destruct (strict_eq _ (VStr "SCENE_STATE")); [discriminate|].
  destruct (is_transform_type _); [discriminate|].
  destruct (strict_eq _ (VStr "ERROR")) eqn:Ee; [|discriminate].
  destruct (to_string (_ ?? _)); [discriminate|].
  injection H as <- <-. right.
  apply strict_eq_string in Ee. rewrite Ee in Es. injection Es as <-.
  split; reflexivity.
Qed.

(** C6, as the code has it.  Errors in message handling are turned into log
    text only.  A socket payload whose text fails [JSON.parse] makes the
    [try] block throw with nothing changed.  Whenever the block throws,
    either nothing had been changed at that moment, or (an ERROR message
    whose [message] has no conversion to text) the line ["Received: ERROR"]
    had been logged and nothing else; [onMessage] then appends the one line
    ["Message parse failed: ..."]; the pending buffer, the object index, the
    IsoCard instance, the scene objects, the calls into IsoCard and the
    frame request are as they were. *)
Theorem onMessage_error_only_logs :
  forall (host : Host) (data : SocketData) (w : World),
    (forall e,
        blank (message_text data) = false ->
        JSON_parse (message_text data) = inl e ->
        onMessage_try data w = Thrown e w)
    /\ (forall e w',
          onMessage_try data w = Thrown e w' ->
          (w' = w \/ (w' = log "Received: ERROR" w /\ e = TypeError_to_primitive))
          /\ onMessage data w
             = log ("Message parse failed: " ++ exn_text e)%string w'
          /\ State.log (state (onMessage data w))
             = slice_last 400
                 (State.log (state w')
                  ++ [(Date_toISOString (clock_reads w') ++ " — "
                       ++ "Message parse failed: " ++ exn_text e)%string])
          /\ pending (onMessage data w) = pending w
          /\ objectIndex (onMessage data w) = objectIndex w
          /\ iso (onMessage data w) = iso w
          /\ heap (onMessage data w) = heap w
          /\ iso_calls (onMessage data w) = iso_calls w
          /\ rafHandle (onMessage data w) = rafHandle w
          /\ raf_requests (onMessage data w) = raf_requests w).
Proof.
  intros host data w. split.
  - intros e. apply onMessage_try_parse_error.
  - intros e w' H.
    pose proof (onMessage_try_thrown _ _ _ _ H) as Hw.
    split; [exact Hw|].
    unfold onMessage. rewrite H.
    destruct Hw as [->|[-> _]]; repeat split.
Qed.

(** A payload that is not JSON, and the payload [null], whose [type] cannot
    be read: both throw, and both end as one log line. *)
Lemma onMessage_error_only_logs_witness :
  State.log (state (onMessage (host := Demo.toy_host) (Text "{") Demo.demo_world))
  = ["T0 — Message parse failed: Unexpected token"]
  /\ onMessage (host := Demo.toy_host) (Text "null") Demo.demo_world
     = log (host := Demo.toy_host)
         "Message parse failed: Cannot read properties of null" Demo.demo_world.
Proof.
  split.
  - destruct (onMessage_error_only_logs Demo.toy_host (Text "{") Demo.demo_world)
      as [Hparse Hthrown].
    destruct (Hthrown Demo.SyntaxError Demo.demo_world
                (Hparse Demo.SyntaxError eq_refl eq_refl))
      as (_ & _ & Hlog & _).
    rewrite Hlog. reflexivity.
  - apply (proj2 (onMessage_error_only_logs Demo.toy_host (Text "null")
                    Demo.demo_world)
             (Demo.TypeError "Cannot read properties of null")
             Demo.demo_world eq_refl).
Defined.

(** C6 as stated fails for the log.  The server sends an ERROR message
    whose [message] is the object [{"toString": 1}].  The message is reported
    as received; printing its [message] then throws, since the object's own
    [toString] hides the inherited one and cannot be called.  The handling
    has thrown, and the log has gained two lines, of which the first is not
    a ["Message parse failed"] line: a trace of the handling that failed. *)
Lemma onMessage_error_only_logs_counterexample :
  let w := onMessage (host := Demo.toy_host) (Text Demo.text_unprintable)
             Demo.demo_world in
  onMessage_try (host := Demo.toy_host) (Text Demo.text_unprintable) Demo.demo_world
  = Thrown (Demo.TypeError "Cannot convert object to primitive value")
      (log (host := Demo.toy_host) "Received: ERROR" Demo.demo_world)
  /\ State.log (state w)
     = ["T0 — Received: ERROR";
        "T1 — Message parse failed: Cannot convert object to primitive value"]
  /\ State.log (state w)
     <> State.log
          (state (log (host := Demo.toy_host)
                    "Message parse failed: Cannot convert object to primitive value"
                    Demo.demo_world)).
Proof.
  intros w. split; [reflexivity|]. split; [reflexivity|].
  vm_compute. discriminate.
Defined.

(** *** Transform application *)

Section Transform.

Context {host : Host}.

Lemma heap_set_same h r o : THREE.heap_set h r o r = o.
Proof. unfold THREE.heap_set. rewrite Nat.eqb_refl. reflexivity. Qed.

Lemma heap_set_other h r o r' : r' <> r -> THREE.heap_set h r o r' = h r'.
Proof.
  intros Hne. unfold THREE.heap_set.
  destruct (Nat.eqb_spec r' r); [contradiction | reflexivity].
Qed.

(** Writing a position leaves every quaternion alone, and conversely. *)
Lemma quaternion_set_position o p w r :
  THREE.quaternion (heap (set_position o p w) r) = THREE.quaternion (heap w r).
Proof.
  unfold set_position. cbn. unfold THREE.heap_set.
  destruct (Nat.eqb_spec r o); [subst|]; reflexivity.
Qed.

Lemma position_set_quaternion o q w r :
  THREE.position (heap (set_quaternion o q w) r) = THREE.position (heap w r).
Proof.
  unfold set_quaternion. cbn. unfold THREE.heap_set.
  destruct (Nat.eqb_spec r o); [subst|]; reflexivity.
Qed.

Lemma position_set_position o p w :
  THREE.position (heap (set_position o p w) o) = p.
Proof. unfold set_position. cbn. rewrite heap_set_same. reflexivity. Qed.

Lemma quaternion_set_quaternion o q w :
  THREE.quaternion (heap (set_quaternion o q w) o) = q.
Proof. unfold set_quaternion. cbn. rewrite heap_set_same. reflexivity. Qed.

Lemma position_set_position_other o p w r :
  r <> o -> THREE.position (heap (set_position o p w) r) = THREE.position (heap w r).
Proof. intros Hne. unfold set_position. cbn. rewrite heap_set_other; auto. Qed.

Lemma quaternion_set_quaternion_other o q w r :
  r <> o ->
  THREE.quaternion (heap (set_quaternion o q w) r) = THREE.quaternion (heap w r).
Proof. intros Hne. unfold set_quaternion. cbn. rewrite heap_set_other; auto. Qed.

Lemma apply_position_position o u w :
  THREE.position (heap (apply_position o u w) o)
  = position_of_update u (THREE.position (heap w o)).
Proof.
  unfold apply_position, position_of_update.
  destruct (truthy (prop "position" u));
    [rewrite position_set_position; reflexivity|].
  destruct (truthy (prop "pos" u));
    [rewrite position_set_position; reflexivity | reflexivity].
Qed.

Lemma apply_position_other o u w r :
  r <> o ->
  THREE.position (heap (apply_position o u w) r) = THREE.position (heap w r).
Proof.
  intros Hne. unfold apply_position.
  destruct (truthy (prop "position" u)); [apply position_set_position_other, Hne|].
  destruct (truthy (prop "pos" u)); [|reflexivity].
  rewrite position_set_position_other by exact Hne. reflexivity.
Qed.

Lemma apply_position_quaternion o u w r :
  THREE.quaternion (heap (apply_position o u w) r) = THREE.quaternion (heap w r).
Proof.
  unfold apply_position.
  destruct (truthy (prop "position" u)); [apply quaternion_set_position|].
  destruct (truthy (prop "pos" u)); [|reflexivity].
  rewrite quaternion_set_position. reflexivity.
Qed.

Lemma apply_orientation_position o u w r :
  match apply_orientation o u w with
  | Returned w' | Thrown _ w' =>
      THREE.position (heap w' r) = THREE.position (heap w r)
  end.
Proof.
  unfold apply_orientation, write_quaternion, set_rotation_from_euler.
  case_guards;
    try reflexivity; rewrite position_set_quaternion; reflexivity.
Qed.

Lemma apply_orientation_other o u w r :
  r <> o ->
  match apply_orientation o u w with
  | Returned w' | Thrown _ w' =>
      THREE.quaternion (heap w' r) = THREE.quaternion (heap w r)
  end.
Proof.
  intros Hne. unfold apply_orientation, write_quaternion, set_rotation_from_euler.
  case_guards;
    try reflexivity; rewrite quaternion_set_quaternion_other by exact Hne;
    reflexivity.
Qed.

Lemma finish_update_position o w r :
  THREE.position (heap (finish_update o w) r) = THREE.position (heap w r).
Proof.
  unfold finish_update, notify_transform. cbn.
  destruct (iso w); cbn; unfold THREE.heap_set;
    destruct (Nat.eqb_spec r o); subst; reflexivity.
Qed.

Lemma finish_update_quaternion o w r :
  THREE.quaternion (heap (finish_update o w) r) = THREE.quaternion (heap w r).
Proof.
  unfold finish_update, notify_transform. cbn.
  destruct (iso w); cbn; unfold THREE.heap_set;
    destruct (Nat.eqb_spec r o); subst; reflexivity.
Qed.

Lemma applyOneUpdateTo_unfold target u w :
  applyOneUpdateTo target u w
  = let o := transform_target (heap w) target in
    match apply_orientation o u (apply_position o u w) with
    | Returned w' => Returned (finish_update o w')
    | Thrown e w' => Thrown e w'
    end.
Proof. reflexivity. Qed.

(** Whatever the outcome, the moved object's position is the one the
    update's position fields decide. *)
Lemma applyOneUpdateTo_position target u w :
  let o := transform_target (heap w) target in
  match applyOneUpdateTo target u w with
  | Returned w' | Thrown _ w' =>
      THREE.position (heap w' o)
      = position_of_update u (THREE.position (heap w o))
  end.
Proof.
  intros o. rewrite applyOneUpdateTo_unfold. fold o. cbv zeta.
  pose proof (apply_orientation_position o u (apply_position o u w) o) as H.
  destruct (apply_orientation o u (apply_position o u w)) as [w'|e w'].
  - rewrite finish_update_position, H. apply apply_position_position.
  - rewrite H. apply apply_position_position.
Qed.

(** An object other than the moved one keeps position and quaternion. *)
Lemma applyOneUpdateTo_other target u w r :
  r <> transform_target (heap w) target ->
  match applyOneUpdateTo target u w with
  | Returned w' | Thrown _ w' =>
      THREE.position (heap w' r) = THREE.position (heap w r)
      /\ THREE.quaternion (heap w' r) = THREE.quaternion (heap w r)
  end.
Proof.
  intros Hne. rewrite applyOneUpdateTo_unfold. cbv zeta.
  set (o := transform_target (heap w) target) in *.
  pose proof (apply_orientation_position o u (apply_position o u w) r) as Hp.
  pose proof (apply_orientation_other o u (apply_position o u w) r Hne) as Hq.
  destruct (apply_orientation o u (apply_position o u w)) as [w'|e w'].
  - rewrite finish_update_position, finish_update_quaternion, Hp, Hq.
    split; [apply apply_position_other, Hne | apply apply_position_quaternion].
  - rewrite Hp, Hq.
    split; [apply apply_position_other, Hne | apply apply_position_quaternion].
Qed.

(** When the orientation step returns, so does the whole method, with the
    quaternion that step wrote. *)
Lemma applyOneUpdateTo_quaternion target u w w1 q :
  let o := transform_target (heap w) target in
  apply_orientation o u (apply_position o u w) = Returned w1 ->
  THREE.quaternion (heap w1 o) = q ->
  exists w', applyOneUpdateTo target u w = Returned w'
             /\ THREE.quaternion (heap w' o) = q.
Proof.
  intros o H Hq. rewrite applyOneUpdateTo_unfold. fold o. cbv zeta. rewrite H.
  eexists. split; [reflexivity|].
  rewrite finish_update_quaternion. exact Hq.
Qed.

(** Whatever the outcome of the orientation step, the moved object has the
    quaternion that step left. *)
Lemma applyOneUpdateTo_quaternion_either target u w q :
  let o := transform_target (heap w) target in
  match apply_orientation o u (apply_position o u w) with
  | Returned w1 | Thrown _ w1 => THREE.quaternion (heap w1 o) = q
  end ->
  match applyOneUpdateTo target u w with
  | Returned w' | Thrown _ w' => THREE.quaternion (heap w' o) = q
  end.
Proof.
  intros o H. rewrite applyOneUpdateTo_unfold. fold o. cbv zeta.
  destruct (apply_orientation o u (apply_position o u w)) as [w1|e w1];
    [rewrite finish_update_quaternion|]; exact H.
Qed.

Lemma to_number_convertible v x : to_number v = Some x -> convertible v = true.
Proof. unfold to_number. destruct (convertible v); [reflexivity | discriminate]. Qed.

End Transform.

(** C5. [applyOneUpdateTo] reads the tolerant formats in a fixed order.  On
    the object it moves, the position is that of the [position] object when
    there is one (three.js keeping the old [z] when the object has none),
    else the first three elements of [pos], else unchanged (this much holds
    whatever the outcome).  The orientation is the [rotation] quaternion
    when there is one; else a 4-element [rot] array taken as a quaternion
    (in both cases the components are stored as given, and the method
    returns when they are numbers, or anything else that converts to a
    primitive); else a 3-element [eulerDeg] array, each angle converted to a
    number, multiplied by [Math.PI] and divided by 180, in XYZ order; else a
    3-element [rot] array as XYZ radians; and it is unchanged when
    [rotation], [rot] and [eulerDeg] are all absent. *)
Theorem applyOneUpdateTo_formats :
  forall (host : Host) (target : THREE.ref) (u : obj) (w : World),
    let o := transform_target (heap w) target in
    let position := prop "position" u in
    let pos := prop "pos" u in
    let rotation := prop "rotation" u in
    let rot := prop "rot" u in
    let eulerDeg := prop "eulerDeg" u in
    match applyOneUpdateTo target u w with
    | Returned w' | Thrown _ w' =>
        THREE.position (heap w' o)
        = if truthy position then
            {| THREE.v_x := js_get position "x"; THREE.v_y := js_get position "y";
               THREE.v_z := match js_get position "z" with
                            | VUndef => THREE.v_z (THREE.position (heap w o))
                            | _ => js_get position "z"
                            end |}
          else if truthy pos then
            {| THREE.v_x := js_index pos 0; THREE.v_y := js_index pos 1;
               THREE.v_z := js_index pos 2 |}
          else THREE.position (heap w o)
    end
    /\ (truthy rotation = true ->
        match applyOneUpdateTo target u w with
        | Returned w' | Thrown _ w' =>
            THREE.quaternion (heap w' o)
            = {| THREE.q_x := js_get rotation "x"; THREE.q_y := js_get rotation "y";
                 THREE.q_z := js_get rotation "z"; THREE.q_w := js_get rotation "w" |}
        end
        /\ (convertible (js_get rotation "x") = true ->
            convertible (js_get rotation "y") = true ->
            convertible (js_get rotation "z") = true ->
            convertible (js_get rotation "w") = true ->
            exists w', applyOneUpdateTo target u w = Returned w'))
    /\ (truthy rotation = false ->
        forall a b c d, rot = VArr [a; b; c; d] ->
        match applyOneUpdateTo target u w with
        | Returned w' | Thrown _ w' =>
            THREE.quaternion (heap w' o)
            = {| THREE.q_x := a; THREE.q_y := b; THREE.q_z := c; THREE.q_w := d |}
        end
        /\ (convertible a = true -> convertible b = true ->
            convertible c = true -> convertible d = true ->
            exists w', applyOneUpdateTo target u w = Returned w'))
    /\ (truthy rotation = false ->
        truthy rot && strict_eq (js_get rot "length") (VNum 4%float) = false ->
        forall ex ey ez x y z, eulerDeg = VArr [ex; ey; ez] ->
        to_number ex = Some x -> to_number ey = Some y -> to_number ez = Some z ->
        exists w', applyOneUpdateTo target u w = Returned w'
          /\ THREE.quaternion (heap w' o)
             = Quaternion_setFromEuler
                 {| THREE.e_x := VNum (PrimFloat.div (PrimFloat.mul x Math_PI) 180%float);
                    THREE.e_y := VNum (PrimFloat.div (PrimFloat.mul y Math_PI) 180%float);
                    THREE.e_z := VNum (PrimFloat.div (PrimFloat.mul z Math_PI) 180%float);
                    THREE.e_order := "XYZ" |})
    /\ (truthy rotation = false ->
        truthy eulerDeg && strict_eq (js_get eulerDeg "length") (VNum 3%float) = false ->
        forall rx ry rz, rot = VArr [rx; ry; rz] ->
        convertible rx = true -> convertible ry = true -> convertible rz = true ->
        exists w', applyOneUpdateTo target u w = Returned w'
          /\ THREE.quaternion (heap w' o)
             = Quaternion_setFromEuler
                 {| THREE.e_x := rx; THREE.e_y := ry; THREE.e_z := rz;
                    THREE.e_order := "XYZ" |})
    /\ (truthy rotation = false -> truthy rot = false -> truthy eulerDeg = false ->
        exists w', applyOneUpdateTo target u w = Returned w'
          /\ THREE.quaternion (heap w' o) = THREE.quaternion (heap w o)).
Proof.
  intros host target u w o position pos rotation rot eulerDeg.
  split; [exact (applyOneUpdateTo_position target u w)|].
  repeat apply conj.
  - intros Hr. split.
    + apply applyOneUpdateTo_quaternion_either.
      unfold apply_orientation, write_quaternion. fold rotation. rewrite Hr.
      destruct (THREE.Quaternion_convertible _); apply quaternion_set_quaternion.
    + intros Hx Hy Hz Hw.
      rewrite applyOneUpdateTo_unfold. fold o. cbv zeta.
      unfold apply_orientation, write_quaternion, THREE.Quaternion_convertible.
      fold rotation. rewrite Hr. cbn [THREE.q_x THREE.q_y THREE.q_z THREE.q_w].
      rewrite Hx, Hy, Hz, Hw. eexists. reflexivity.
  - intros Hr a b c d Hrot. split.
    + apply applyOneUpdateTo_quaternion_either.
      unfold apply_orientation, write_quaternion. fold rotation rot.
      rewrite Hr, Hrot. cbn.
      destruct (THREE.Quaternion_convertible _); apply quaternion_set_quaternion.
    + intros Ha Hb Hc Hd.
      rewrite applyOneUpdateTo_unfold. fold o. cbv zeta.
      unfold apply_orientation, write_quaternion, THREE.Quaternion_convertible.
      fold rotation rot. rewrite Hr, Hrot. cbn.
      rewrite Ha, Hb, Hc, Hd. eexists. reflexivity.
  - intros Hr H4 ex ey ez x y z He Hx Hy Hz.
    eapply applyOneUpdateTo_quaternion.
    + unfold apply_orientation. fold rotation rot eulerDeg.
      rewrite Hr, H4, He. cbn. unfold deg_to_rad. rewrite Hx, Hy, Hz.
      unfold set_rotation_from_euler. cbn. reflexivity.
    + apply quaternion_set_quaternion.
  - intros Hr H3 rx ry rz Hrot Hx Hy Hz.
    eapply applyOneUpdateTo_quaternion.
    + unfold apply_orientation. fold rotation rot eulerDeg.
      rewrite Hr, H3, Hrot. cbn. unfold set_rotation_from_euler.
      rewrite Hx, Hy, Hz. cbn. reflexivity.
    + apply quaternion_set_quaternion.
  - intros Hr Hrot He.
    eapply applyOneUpdateTo_quaternion.
    + unfold apply_orientation. fold rotation rot eulerDeg.
      rewrite Hr, Hrot, He. reflexivity.
    + rewrite apply_position_quaternion. reflexivity.
Qed.

(** An update with [pos], [eulerDeg] and a 3-element [rot], sent for the
    mesh ["ball"]: the group above it is moved, and [eulerDeg] wins over
    [rot]; 90 degrees are the double nearest to pi/2 and 180 degrees the one
    nearest to pi. *)
Lemma applyOneUpdateTo_formats_witness :
  let u := [("pos", VArr [VNum 1; VNum 2; VNum 3]);
            ("eulerDeg", VArr [VNum 90; VNum 0; VNum 180]);
            ("rot", VArr [VNum 1; VNum 1; VNum 1])]%float in
  exists w',
    applyOneUpdateTo (host := Demo.toy_host) 2 u Demo.demo_world = Returned w'
    /\ THREE.quaternion (heap w' 1)
       = Quaternion_setFromEuler (Host := Demo.toy_host)
           {| THREE.e_x := VNum 0x1.921fb54442d18p+0%float;
              THREE.e_y := VNum 0%float;
              THREE.e_z := VNum 0x1.921fb54442d18p+1%float;
              THREE.e_order := "XYZ" |}.
Proof.
  intros u.
  destruct (applyOneUpdateTo_formats Demo.toy_host 2 u Demo.demo_world)
    as (_ & _ & _ & He & _).
  exact (He eq_refl eq_refl (VNum 90%float) (VNum 0%float) (VNum 180%float)
           90%float 0%float 180%float eq_refl eq_refl eq_refl eq_refl).
Defined.

(** *** What a flush leaves alone *)

Section Flush.

Context {host : Host}.

Lemma same_frame_refl w : same_frame w w.
Proof. repeat split. Qed.

Lemma same_frame_trans w1 w2 w3 :
  same_frame w1 w2 -> same_frame w2 w3 -> same_frame w1 w3.
Proof.
  unfold same_frame. intros (a1 & a2 & a3 & a4 & a5 & a6) (b1 & b2 & b3 & b4 & b5 & b6).
  repeat split; congruence.
Qed.

Lemma same_frame_rebuildObjectIndex w : same_frame w (rebuildObjectIndex w).
Proof.
  unfold rebuildObjectIndex.
  destruct (getThreeScene (with_objectIndex [] w)); repeat split.
Qed.

Lemma same_frame_resolveObject k w : same_frame w (snd (resolveObject k w)).
Proof.
  unfold resolveObject.
  destruct (map_get k (objectIndex w)); [apply same_frame_refl|].
  destruct (getThreeScene w); [|apply same_frame_refl].
  match goal with |- context [match ?f with Some _ => _ | None => _ end] => destruct f end;
    [repeat split | apply same_frame_rebuildObjectIndex].
Qed.

(** Resolving a key touches the index and the log, never the scene objects
    or IsoCard. *)
Lemma resolveObject_heap k w :
  heap (snd (resolveObject k w)) = heap w
  /\ iso_calls (snd (resolveObject k w)) = iso_calls w.
Proof.
  unfold resolveObject.
  destruct (map_get k (objectIndex w)); [split; reflexivity|].
  destruct (getThreeScene w); [|split; reflexivity].
  match goal with |- context [match ?f with Some _ => _ | None => _ end] => destruct f end;
    [split; reflexivity|].
  unfold rebuildObjectIndex.
  destruct (getThreeScene (with_objectIndex [] w)); split; reflexivity.
Qed.

Lemma same_frame_apply_orientation o u w :
  match apply_orientation o u w with
  | Returned w' | Thrown _ w' => same_frame w w'
  end.
Proof.
  unfold apply_orientation, write_quaternion, set_rotation_from_euler.
  case_guards; repeat split.
Qed.

Lemma same_frame_applyOneUpdateTo t u w :
  match applyOneUpdateTo t u w with
  | Returned w' | Thrown _ w' => same_frame w w'
  end.
Proof.
  rewrite applyOneUpdateTo_unfold. cbv zeta.
  set (o := transform_target (heap w) t).
  assert (Hp : same_frame w (apply_position o u w)).
  { unfold apply_position.
    case_guards; repeat split. }
  pose proof (same_frame_apply_orientation o u (apply_position o u w)) as Ho.
  destruct (apply_orientation o u (apply_position o u w)) as [w1|e w1].
  - eapply same_frame_trans; [exact Hp|]. eapply same_frame_trans; [exact Ho|].
    unfold finish_update, notify_transform. cbn. destruct (iso w1); repeat split.
  - eapply same_frame_trans; eassumption.
Qed.

Lemma same_frame_flush_step hint acc entry :
  match flush_step hint acc entry with
  | Returned acc' => same_frame (fst acc) (fst acc')
  | Thrown _ w' => same_frame (fst acc) w'
  end.
Proof.
  destruct acc as [w applied], entry as [key u]. simpl.
  pose proof (same_frame_resolveObject key w) as Hr.
  destruct (resolveObject key w) as [[o|] w1]; simpl in *; [|exact Hr].
  destruct (layer_mismatch _ _); simpl; [exact Hr|].
  pose proof (same_frame_applyOneUpdateTo o u w1) as Ha.
  destruct (applyOneUpdateTo o u w1); simpl; eapply same_frame_trans; eassumption.
Qed.

Lemma same_frame_flush_loop hint entries : forall acc,
  match flush_loop hint entries acc with
  | Returned acc' => same_frame (fst acc) (fst acc')
  | Thrown _ w' => same_frame (fst acc) w'
  end.
Proof.
  induction entries as [|entry rest IH]; intros acc; simpl; [apply same_frame_refl|].
  pose proof (same_frame_flush_step hint acc entry) as Hs.
  destruct (flush_step hint acc entry) as [acc'|e w']; simpl; [|exact Hs].
  specialize (IH acc').
  destruct (flush_loop hint rest acc'); eapply same_frame_trans; eassumption.
Qed.

(** A flush never touches the frame request, the IsoCard instance or the
    viewing layer; if it throws, the buffer is as it was. *)
Lemma flushPending_frame w :
  match flushPending w with
  | Returned w' =>
      rafHandle w' = rafHandle w /\ raf_requests w' = raf_requests w
      /\ raf_next w' = raf_next w /\ iso w' = iso w
  | Thrown _ w' => same_frame w w'
  end.
Proof.
  unfold flushPending.
  destruct (iso w) eqn:Ei; [|repeat split; assumption].
  destruct (pending w) as [|p ps] eqn:Ep; [repeat split; assumption|].
  pose proof (same_frame_flush_loop (State.layerId (state w)) (p :: ps) (w, 0)) as Hl.
  destruct (flush_loop _ _ _) as [[w1 applied]|e w1]; simpl in *; [|exact Hl].
  destruct Hl as (_ & H2 & H3 & H4 & H5 & _).
  destruct (Nat.eqb applied 0); cbn; repeat split; congruence.
Qed.

End Flush.

(** *** Draining the buffer *)

Section Drain.

Context {host : Host}.

Lemma forallb_nth {A} (f : A -> bool) (l : list A) (d : A) (i : nat) :
  forallb f l = true -> f d = true -> f (nth i l d) = true.
Proof.
  revert i. induction l as [|x l IH]; intros i Hl Hd; simpl in *.
  - destruct i; exact Hd.
  - apply andb_prop in Hl as [Hx Hl]. destruct i; [exact Hx | apply IH; assumption].
Qed.

Lemma convertible_strings l : forallb convertible (map VStr l) = true.
Proof. induction l as [|c l IH]; simpl; [reflexivity | exact IH]. Qed.

(** The elements of a tolerated array convert. *)
Lemma convertible_js_index v i :
  destructurable v = true -> convertible v = true ->
  convertible (js_index v i) = true.
Proof.
  destruct v as [| |b|n|s|items|fs]; simpl; intros Hd Hc;
    try reflexivity; try discriminate.
  - apply forallb_nth; [apply convertible_strings | reflexivity].
  - apply forallb_nth; [exact Hc | reflexivity].
Qed.

Lemma destructure3_tolerated v :
  destructurable v = true -> convertible v = true ->
  truthy v && strict_eq (js_get v "length") (VNum 3%float) = true ->
  exists a b c,
    destructure3 v = inr (a, b, c)
    /\ convertible a = true /\ convertible b = true /\ convertible c = true.
Proof.
  destruct v as [| |b|n|s|items|fs]; simpl; intros Hd Hc Hl; try discriminate;
    try (rewrite andb_false_r in Hl; discriminate);
    eexists _, _, _; (split; [reflexivity|]); repeat split;
    apply forallb_nth;
    first [apply convertible_strings | exact Hc | reflexivity].
Qed.

Lemma deg_to_rad_convertible v :
  convertible v = true -> exists n, deg_to_rad v = Some (VNum n).
Proof.
  intros H. unfold deg_to_rad, to_number. rewrite H. eexists. reflexivity.
Qed.

Lemma apply_orientation_returns o u w :
  tolerated u = true -> exists w', apply_orientation o u w = Returned w'.
Proof.
  unfold tolerated. intros Ht.
  repeat (apply andb_prop in Ht as [Ht ?]).
  unfold apply_orientation.
  destruct (truthy (prop "rotation" u)).
  { unfold write_quaternion, THREE.Quaternion_convertible. cbn.
    rewrite Ht. repeat match goal with H : _ = true |- _ => rewrite H end.
    eexists; reflexivity. }
  destruct (truthy (prop "rot" u) && strict_eq _ (VNum 4%float)).
  { unfold write_quaternion, THREE.Quaternion_convertible. cbn.
    rewrite !convertible_js_index by assumption. eexists; reflexivity. }
  destruct (truthy (prop "eulerDeg" u) && strict_eq _ (VNum 3%float)) eqn:E3.
  { destruct (destructure3_tolerated (prop "eulerDeg" u))
      as (a & b & c & -> & Ha & Hb & Hc); try assumption.
    destruct (deg_to_rad_convertible a Ha) as [x ->].
    destruct (deg_to_rad_convertible b Hb) as [y ->].
    destruct (deg_to_rad_convertible c Hc) as [z ->].
    eexists; reflexivity. }
  destruct (truthy (prop "rot" u) && strict_eq _ (VNum 3%float)) eqn:R3.
  { destruct (destructure3_tolerated (prop "rot" u))
      as (a & b & c & -> & Ha & Hb & Hc); try assumption.
    unfold set_rotation_from_euler. rewrite Ha, Hb, Hc.
    eexists; reflexivity. }
  eexists; reflexivity.
Qed.

Lemma applyOneUpdateTo_returns t u w :
  tolerated u = true -> exists w', applyOneUpdateTo t u w = Returned w'.
Proof.
  intros Ht. rewrite applyOneUpdateTo_unfold. cbv zeta.
  destruct (apply_orientation_returns (transform_target (heap w) t) u
              (apply_position (transform_target (heap w) t) u w) Ht) as [w1 ->].
  eexists; reflexivity.
Qed.


End Drain.




(** *** One flush per animation frame *)

Section Frames.

Context {host : Host}.

Lemma raf_same_refl w : raf_same w w.
Proof. split; reflexivity. Qed.

Lemma raf_same_trans w1 w2 w3 : raf_same w1 w2 -> raf_same w2 w3 -> raf_same w1 w3.
Proof. unfold raf_same. intros [] []. split; congruence. Qed.

Lemma raf_same_removeObject id w : raf_same w (removeObject id w).
Proof.
  unfold removeObject. destruct (iso w); [|apply raf_same_refl].
  destruct (IsoCard_removeObject _ _ _). split; reflexivity.
Qed.

Lemma raf_same_clearLayer layerId w : raf_same w (clearLayer layerId w).
Proof.
  unfold clearLayer.
  destruct (iso w) as [c|]; [|apply raf_same_refl].
  destruct (Iso.objects c) as [entries|]; [|apply raf_same_refl].
  assert (H : raf_same w
                (fold_left (fun w e => removeObject (Iso.id e) w)
                   (filter (in_layer layerId) entries) w)).
  { apply (fold_left_invariant (raf_same w)); [|apply raf_same_refl].
    intros a e Ha. eapply raf_same_trans; [exact Ha | apply raf_same_removeObject]. }
  destruct (filter (in_layer layerId) entries); [exact H|].
  eapply raf_same_trans; [exact H | split; reflexivity].
Qed.

Lemma raf_same_tag_layer layerId w e : raf_same w (tag_layer layerId w e).
Proof. unfold tag_layer. destruct (Iso.threeObj e); split; reflexivity. Qed.

Lemma raf_same_rebuildObjectIndex w : raf_same w (rebuildObjectIndex w).
Proof.
  unfold rebuildObjectIndex.
  destruct (getThreeScene (with_objectIndex [] w)); split; reflexivity.
Qed.

Lemma raf_same_handleSceneState d w : raf_same w (handleSceneState d w).
Proof.
  unfold handleSceneState.
  destruct (iso w); [|split; reflexivity].
  assert (H : match handleSceneState_try d w with
              | Returned w' | Thrown _ w' => raf_same w w'
              end).
  { unfold handleSceneState_try.
    destruct (stripPhysicsDeep d); [apply raf_same_refl|].
    pose proof (raf_same_clearLayer (State.layerId (state w)) w) as Hc.
    destruct (iso (clearLayer _ w)); [|exact Hc].
    destruct (IsoCard_addObjectsToLayer _ _ _ _) as [[c' h'] [e|]].
    - eapply raf_same_trans; [exact Hc | split; reflexivity].
    - eapply raf_same_trans; [exact Hc|].
      match goal with
      | |- raf_same ?a (log _ (call _ (rebuildObjectIndex ?b))) =>
          assert (Hb : raf_same a b)
      end.
      { destruct (Iso.objects c'); [|split; reflexivity].
        apply (fold_left_invariant (raf_same _)); [|split; reflexivity].
        intros a e Ha. eapply raf_same_trans; [exact Ha | apply raf_same_tag_layer]. }
      eapply raf_same_trans; [exact Hb|].
      eapply raf_same_trans; [apply raf_same_rebuildObjectIndex | split; reflexivity]. }
  destruct (handleSceneState_try d w); [exact H|].
  eapply raf_same_trans; [exact H | split; reflexivity].
Qed.

(** [enqueuePhysics] requests a frame exactly when it has buffered
    something and no request is outstanding. *)
Lemma enqueuePhysics_raf objects d w :
  match collect objects d, rafHandle w with
  | Some _, None =>
      rafHandle (enqueuePhysics objects d w) = Some (raf_next w)
      /\ raf_requests (enqueuePhysics objects d w) = raf_requests w ++ [raf_next w]
  | _, _ => raf_same w (enqueuePhysics objects d w)
  end.
Proof.
  unfold enqueuePhysics.
  destruct (collect objects d); [|apply raf_same_refl].
  destruct (rafHandle w) eqn:E; cbn; rewrite E; split; reflexivity.
Qed.

Lemma raf_inv_same w w' : raf_same w w' -> raf_inv w -> raf_inv w'.
Proof.
  unfold raf_same, raf_inv. intros [H1 H2]. rewrite H1, H2. exact (fun x => x).
Qed.

Lemma raf_inv_enqueuePhysics objects d w :
  raf_inv w -> raf_inv (enqueuePhysics objects d w).
Proof.
  intros Hinv. pose proof (enqueuePhysics_raf objects d w) as H.
  destruct (collect objects d); [|eapply raf_inv_same; eassumption].
  destruct (rafHandle w) eqn:E; [eapply raf_inv_same; eassumption|].
  destruct H as [H1 H2]. right. exists (raf_next w).
  destruct Hinv as [[_ Hq]|[h [Hh _]]]; [|congruence].
  rewrite H1, H2, Hq. split; reflexivity.
Qed.

Lemma raf_inv_onMessage data w : raf_inv w -> raf_inv (onMessage data w).
Proof.
  intros Hinv.
  destruct (onMessage_cases data w)
    as [->|[[m ->]|[(m & d & ->)|[(m & o & d & ->)|(m & m' & ->)]]]].
  - exact Hinv.
  - eapply raf_inv_same; [|exact Hinv]. split; reflexivity.
  - eapply raf_inv_same; [apply raf_same_handleSceneState|].
    eapply raf_inv_same; [|exact Hinv]. split; reflexivity.
  - apply raf_inv_enqueuePhysics.
    eapply raf_inv_same; [|exact Hinv]. split; reflexivity.
  - eapply raf_inv_same; [|exact Hinv]. split; reflexivity.
Qed.

(** What an animation frame does, by the number of requested callbacks. *)
Lemma animationFrame_cases w :
  raf_inv w ->
  (raf_requests w = [] /\ animationFrame w = with_raf_requests [] w)
  \/ (exists h, raf_requests w = [h] /\ rafHandle w = Some h
      /\ animationFrame w
         = world_after
             (flushPending (with_rafHandle None (with_raf_requests [] w)))).
Proof.
  intros [[_ Hq]|[h [Hh Hq]]]; unfold animationFrame; rewrite Hq.
  - left. split; reflexivity.
  - right. exists h. repeat split. exact Hh.
Qed.

Lemma raf_inv_animationFrame w : raf_inv w -> raf_inv (animationFrame w).
Proof.
  intros Hinv. left.
  destruct (animationFrame_cases w Hinv) as [[Hq ->]|[h (Hq & Hh & ->)]].
  - destruct Hinv as [[Hn _]|[h [_ Hh]]]; [|congruence]. split; [exact Hn | reflexivity].
  - pose proof (flushPending_frame (with_rafHandle None (with_raf_requests [] w))) as Hf.
    destruct (flushPending _) as [w'|e w']; simpl.
    + destruct Hf as (H1 & H2 & _). rewrite H1, H2. split; reflexivity.
    + destruct Hf as (_ & H1 & H2 & _). rewrite H1, H2. split; reflexivity.
Qed.

Lemma raf_inv_step w e : raf_inv w -> raf_inv (step w e).
Proof.
  intros Hinv. destruct e; simpl.
  - apply raf_inv_onMessage, Hinv.
  - apply raf_inv_enqueuePhysics, Hinv.
  - apply raf_inv_animationFrame, Hinv.
  - eapply raf_inv_same; [|exact Hinv]. split; reflexivity.
Qed.

End Frames.

(** C2. Buffered updates are applied at most once per animation frame.
    Starting from a component with no frame requested, after any sequence
    of messages, [enqueuePhysics] calls, frames and layer edits: at most one
    callback is requested, and one is requested exactly while [rafHandle] is
    non-null; [enqueuePhysics] requests a frame only when [rafHandle] is
    null; and the next animation frame either has nothing to run, or runs
    [flushPending] once, after [rafHandle] has been set back to null. *)
Theorem one_flush_per_frame :
  forall (host : Host) (w0 : World) (events : list event),
    rafHandle w0 = None ->
    raf_requests w0 = [] ->
    let w := run events w0 in
    List.length (raf_requests w) <= 1
    /\ (rafHandle w = None <-> raf_requests w = [])
    /\ (forall objects d,
          rafHandle w <> None ->
          raf_requests (enqueuePhysics objects d w) = raf_requests w
          /\ rafHandle (enqueuePhysics objects d w) = rafHandle w)
    /\ ((raf_requests w = [] /\ animationFrame w = with_raf_requests [] w)
        \/ (exists h, raf_requests w = [h] /\ rafHandle w = Some h
            /\ animationFrame w
               = world_after
                   (flushPending (with_rafHandle None (with_raf_requests [] w)))))
    /\ rafHandle (animationFrame w) = None
    /\ raf_requests (animationFrame w) = [].
Proof.
  intros host w0 events Hn Hq w.
  assert (Hinv : raf_inv w).
  { unfold w, run. apply (fold_left_invariant raf_inv step).
    - intros a e Ha. apply raf_inv_step, Ha.
    - left. split; assumption. }
  assert (Hafter : rafHandle (animationFrame w) = None
                   /\ raf_requests (animationFrame w) = []).
  { destruct (raf_inv_animationFrame w Hinv) as [H|[h [H1 H2]]]; [exact H|].
    exfalso. destruct (animationFrame_cases w Hinv) as [[_ E]|[h' (_ & _ & E)]];
      rewrite E in H2.
    + discriminate.
    + pose proof (flushPending_frame (with_rafHandle None (with_raf_requests [] w))) as Hf.
      destruct (flushPending _); simpl in H2.
      * destruct Hf as (_ & Hr & _). rewrite Hr in H2. discriminate.
      * destruct Hf as (_ & _ & Hr & _). rewrite Hr in H2. discriminate. }
  split; [|split; [|split; [|split; [|exact Hafter]]]].
  - destruct Hinv as [[_ ->]|[h [_ ->]]]; simpl; lia.
  - destruct Hinv as [[H1 H2]|[h [H1 H2]]]; rewrite H1, H2;
      split; intros E; first [reflexivity | discriminate E].
  - intros objects d Hne.
    pose proof (enqueuePhysics_raf objects d w) as H.
    destruct (collect objects d); [|destruct H as [Ha Hb]; split; [exact Hb | exact Ha]].
    destruct (rafHandle w) eqn:E; [|contradiction].
    destruct H as [Ha Hb]; split; [exact Hb | congruence].
  - apply animationFrame_cases, Hinv.
Qed.

(** Three batches arrive before the frame: one callback is requested, and
    the frame that runs it clears the handle and drains the buffer. *)
Lemma one_flush_per_frame_witness :
  let batch := VArr [VObj [("name", VStr "ball");
                           ("pos", VArr [VNum 1; VNum 2; VNum 3]%float)]] in
  let events := [Enqueue batch VUndef; Message (Text Demo.text_tick);
                 Enqueue batch (VStr "server_layer")] in
  let w := run (host := Demo.toy_host) events Demo.demo_world in
  raf_requests w = [1]
  /\ rafHandle (animationFrame (host := Demo.toy_host) w) = None
  /\ pending (animationFrame (host := Demo.toy_host) w) = [].
Proof.
  intros batch events w.
  pose proof (one_flush_per_frame Demo.toy_host Demo.demo_world events
                eq_refl eq_refl) as (_ & _ & _ & _ & Hh & _).
  split; [reflexivity|]. split; [exact Hh|]. reflexivity.
Defined.

(** *** The layer guard *)

Section LayerGuard.

Context {host : Host}.

Lemma flush_loop_app hint a b acc :
  flush_loop hint (a ++ b) acc = bind (flush_loop hint a acc) (flush_loop hint b).
Proof.
  revert acc. induction a as [|entry a IH]; intros acc; simpl; [reflexivity|].
  destruct (flush_step hint acc entry); simpl; [apply IH | reflexivity].
Qed.

(** The layer tag of an object is never empty: the chain ends in ["main"]. *)
Lemma object_layer_truthy h o : truthy (object_layer h o) = true.
Proof.
  unfold object_layer, js_or.
  repeat match goal with
         | |- context [if truthy ?v then _ else _] => destruct (truthy v) eqn:?
         end; try assumption; reflexivity.
Qed.

Lemma moved_only_refl w : moved_only_as_told w w.
Proof. exists []. rewrite app_nil_r. split; [reflexivity | intros; split; reflexivity]. Qed.

Lemma moved_only_same w w' :
  heap w' = heap w -> iso_calls w' = iso_calls w -> moved_only_as_told w w'.
Proof.
  intros Hh Hc. exists []. rewrite app_nil_r, Hh.
  split; [exact Hc | intros; split; reflexivity].
Qed.

Lemma moved_only_trans w1 w2 w3 :
  moved_only_as_told w1 w2 -> moved_only_as_told w2 w3 -> moved_only_as_told w1 w3.
Proof.
  intros (c1 & Hc1 & H1) (c2 & Hc2 & H2). exists (c1 ++ c2). split.
  - rewrite Hc2, Hc1, app_assoc. reflexivity.
  - intros r Hr.
    assert (Hr1 : ~ moved_in c1 r).
    { intros (p & q & Hin). apply Hr. exists p, q. apply in_or_app. left. exact Hin. }
    assert (Hr2 : ~ moved_in c2 r).
    { intros (p & q & Hin). apply Hr. exists p, q. apply in_or_app. right. exact Hin. }
    destruct (H1 r Hr1) as [Hp1 Hq1]. destruct (H2 r Hr2) as [Hp2 Hq2].
    split; congruence.
Qed.

Lemma iso_calls_apply_position o u w :
  iso_calls (apply_position o u w) = iso_calls w.
Proof.
  unfold apply_position.
  case_guards; reflexivity.
Qed.

Lemma iso_calls_apply_orientation o u w :
  match apply_orientation o u w with
  | Returned w' | Thrown _ w' => iso_calls w' = iso_calls w
  end.
Proof.
  unfold apply_orientation, write_quaternion, set_rotation_from_euler.
  case_guards; reflexivity.
Qed.

(** With an IsoCard instance in place, an applied update announces the
    object it moved. *)
Lemma applyOneUpdateTo_moved t u w w' :
  iso w <> None ->
  applyOneUpdateTo t u w = Returned w' ->
  moved_only_as_told w w'.
Proof.
  intros Hi H.
  pose proof (applyOneUpdateTo_other t u w) as Hother. rewrite H in Hother.
  rewrite applyOneUpdateTo_unfold in H. cbv zeta in H.
  set (o := transform_target (heap w) t) in *.
  pose proof (iso_calls_apply_orientation o u (apply_position o u w)) as Hc.
  pose proof (same_frame_apply_orientation o u (apply_position o u w)) as Hf.
  destruct (apply_orientation o u (apply_position o u w)) as [w1|e w1]; [|discriminate].
  injection H as <-.
  assert (Hi1 : iso w1 <> None).
  { destruct Hf as (_ & _ & _ & _ & Hiso & _). rewrite Hiso.
    unfold apply_position.
    case_guards; exact Hi. }
  unfold finish_update, notify_transform in *. cbn in *.
  destruct (iso w1); [|contradiction]. cbn in *.
  eexists. split.
  - unfold call. cbn.
    rewrite Hc, iso_calls_apply_position, <- app_assoc. reflexivity.
  - intros r Hr. apply Hother. intros ->. apply Hr.
    eexists _, _. left. reflexivity.
Qed.

Lemma moved_only_flush_step hint acc entry acc' :
  iso (fst acc) <> None ->
  flush_step hint acc entry = Returned acc' ->
  moved_only_as_told (fst acc) (fst acc').
Proof.
  destruct acc as [w applied], entry as [key u]. simpl. intros Hi H.
  pose proof (resolveObject_heap key w) as [Hh Hc].
  pose proof (same_frame_resolveObject key w) as (_ & _ & _ & _ & Hiso & _).
  destruct (resolveObject key w) as [[o|] w1]; simpl in *.
  2:{ injection H as <-. apply moved_only_same; assumption. }
  destruct (layer_mismatch _ _).
  { injection H as <-. apply moved_only_same; assumption. }
  destruct (applyOneUpdateTo o u w1) as [w2|e w2] eqn:Ea; simpl in H; [|discriminate].
  injection H as <-. simpl.
  eapply moved_only_trans; [apply moved_only_same; eassumption|].
  eapply applyOneUpdateTo_moved; [|exact Ea]. congruence.
Qed.

Lemma moved_only_flush_loop hint entries : forall acc acc',
  iso (fst acc) <> None ->
  flush_loop hint entries acc = Returned acc' ->
  moved_only_as_told (fst acc) (fst acc').
Proof.
  induction entries as [|entry rest IH]; intros acc acc' Hi H; simpl in H.
  - injection H as <-. apply moved_only_refl.
  - destruct (flush_step hint acc entry) as [acc1|e w1] eqn:Es; simpl in H; [|discriminate].
    pose proof (same_frame_flush_step hint acc entry) as Hf. rewrite Es in Hf.
    eapply moved_only_trans.
    + eapply moved_only_flush_step; eassumption.
    + apply IH; [|exact H].
      destruct Hf as (_ & _ & _ & _ & Hiso & _). congruence.
Qed.

Lemma moved_only_flushPending w w' :
  flushPending w = Returned w' -> moved_only_as_told w w'.
Proof.
  unfold flushPending. intros H.
  destruct (iso w) eqn:Ei; [|injection H as <-; apply moved_only_refl].
  destruct (pending w) as [|p ps]; [injection H as <-; apply moved_only_refl|].
  destruct (flush_loop _ _ _) as [[w1 applied]|e w1] eqn:El; simpl in H; [|discriminate].
  injection H as <-.
  eapply moved_only_trans.
  - eapply (moved_only_flush_loop _ _ (w, 0)); [|exact El]. simpl. congruence.
  - exists [Iso.renderScene]. split.
    + destruct (Nat.eqb applied 0); reflexivity.
    + intros r _. destruct (Nat.eqb applied 0); split; reflexivity.
Qed.

End LayerGuard.

(** C3, as the code has it.  During [flushPending], when the loop reaches a
    buffered update whose effective layer ([u.layerId], else the component's
    [layerId]) is non-empty and differs from the layer tag of the object its
    key resolves to, the iteration ends with the resolution:
    [applyOneUpdateTo] is not called, no call goes to IsoCard, and no scene
    object is touched.  Over the whole flush, an object keeps its position
    and quaternion unless some buffered update was applied to it (which
    shows as the [setTransform] call made for the object moved). *)
Theorem layer_mismatch_skips :
  forall (host : Host) (w : World) (before after : jsmap obj)
         (key : value) (u : obj) (w1 w2 : World) (n1 : nat) (o : THREE.ref),
    let hint := State.layerId (state w) in
    pending w = before ++ (key, u) :: after ->
    flush_loop hint before (w, 0) = Returned (w1, n1) ->
    resolveObject key w1 = (Some o, w2) ->
    truthy (effective_layer u hint) = true ->
    strict_eq (object_layer (heap w2) o) (effective_layer u hint) = false ->
    flush_step hint (w1, n1) (key, u) = Returned (w2, n1)
    /\ heap w2 = heap w1
    /\ iso_calls w2 = iso_calls w1
    /\ flush_loop hint (pending w) (w, 0) = flush_loop hint after (w2, n1)
    /\ (forall w', flushPending w = Returned w' -> moved_only_as_told w w').
Proof.
  intros host w before after key u w1 w2 n1 o hint Hp Hb Hr Hm Hne.
  assert (Hstep : flush_step hint (w1, n1) (key, u) = Returned (w2, n1)).
  { simpl. rewrite Hr. unfold layer_mismatch.
    rewrite Hm, object_layer_truthy, Hne. reflexivity. }
  pose proof (resolveObject_heap key w1) as [Hh Hc]. rewrite Hr in Hh, Hc.
  repeat apply conj.
  - exact Hstep.
  - exact Hh.
  - exact Hc.
  - rewrite Hp, flush_loop_app, Hb.
    change (bind (flush_step hint (w1, n1) (key, u)) (flush_loop hint after)
            = flush_loop hint after (w2, n1)).
    rewrite Hstep. reflexivity.
  - intros w'. apply moved_only_flushPending.
Qed.

(** An update for ["ball"] tagged with another layer than the group's: it
    is resolved (and cached) and nothing else happens. *)
Lemma layer_mismatch_skips_witness :
  let u := [("name", VStr "ball"); ("layerId", VStr "other_layer");
            ("pos", VArr [VNum 9; VNum 9; VNum 9]%float)] in
  let w := with_pending [(VStr "ball", u)] Demo.demo_world in
  let w2 := with_objectIndex [(VStr "ball", 1)] w in
  flush_step (host := Demo.toy_host) "server_layer" (w, 0) (VStr "ball", u)
  = Returned (w2, 0)
  /\ heap w2 = heap w.
Proof.
  intros u w w2.
  destruct (layer_mismatch_skips Demo.toy_host w [] [] (VStr "ball") u w w2 0 1
              eq_refl eq_refl eq_refl eq_refl eq_refl) as (Hs & Hh & _).
  split; [exact Hs | exact Hh].
Defined.

(** C3 as stated fails.  Two updates arrive for the same object, one under
    its name and tagged with another layer, one under its id and untagged.
    The first resolves to the group ["ball"] and is skipped for its layer;
    the second resolves to the mesh inside the group and is applied, to the
    group; so the object of the skipped update has been moved by the
    flush. *)
Lemma layer_mismatch_skips_counterexample :
  let named := VObj [("name", VStr "ball"); ("layerId", VStr "other_layer");
                     ("pos", VArr [VNum 9; VNum 9; VNum 9]%float)] in
  let by_id := VObj [("id", VNum 7%float);
                     ("pos", VArr [VNum 1; VNum 2; VNum 3]%float)] in
  let w := enqueuePhysics (VArr [by_id]) VUndef
             (enqueuePhysics (VArr [named]) VUndef Demo.demo_world) in
  let buffered := [("id", VUndef); ("name", VStr "ball");
                   ("layerId", VStr "other_layer");
                   ("pos", VArr [VNum 9; VNum 9; VNum 9]%float)] in
  In (VStr "ball", buffered) (pending w)
  /\ fst (resolveObject (host := Demo.toy_host) (VStr "ball") w) = Some 1
  /\ truthy (effective_layer buffered (State.layerId (state w))) = true
  /\ strict_eq (object_layer (heap w) 1)
       (effective_layer buffered (State.layerId (state w))) = false
  /\ exists w',
       flushPending (host := Demo.toy_host) w = Returned w'
       /\ THREE.position (heap w' 1)
          = {| THREE.v_x := VNum 1%float; THREE.v_y := VNum 2%float;
               THREE.v_z := VNum 3%float |}
       /\ THREE.position (heap w' 1) <> THREE.position (heap w 1).
Proof.
  intros named by_id w buffered.
  split; [left; reflexivity|].
  split; [reflexivity|].
  split; [reflexivity|].
  split; [reflexivity|].
  eexists. split; [vm_compute; reflexivity|].
  split; [reflexivity|].
  intros H.
  apply (f_equal (fun p => truthy (THREE.v_x p))) in H.
  vm_compute in H. discriminate H.
Defined.

(** *** Objects and maps *)

Lemma field_get_app k fs1 fs2 :
  field_get k (fs1 ++ fs2)
  = match field_get k fs2 with
    | Some v => Some v
    | None => field_get k fs1
    end.
Proof.
  induction fs1 as [|[k' v'] fs1 IH]; simpl.
  - destruct (field_get k fs2); reflexivity.
  - rewrite IH. destruct (field_get k fs2); reflexivity.
Qed.

Lemma field_get_replace_same k v fs :
  has_own k fs = true ->
  field_get k
    (map (fun kv => if String.eqb (fst kv) k then (fst kv, v) else kv) fs)
  = Some v.
Proof.
  unfold has_own. induction fs as [|[k' v'] fs IH]; simpl; [discriminate|].
  intros H. destruct (field_get k fs) eqn:E.
  - rewrite IH by reflexivity. destruct (String.eqb k' k); reflexivity.
  - destruct (String.eqb k' k) eqn:Ek; [|discriminate].
    simpl. rewrite Ek.
    assert (Hnone : field_get k
              (map (fun kv => if String.eqb (fst kv) k then (fst kv, v) else kv) fs)
            = None).
    { clear IH H. induction fs as [|[k2 v2] fs IH2]; simpl in *; [reflexivity|].
      destruct (field_get k fs) eqn:E2; [discriminate|].
      destruct (String.eqb k2 k) eqn:Ek2; [discriminate|].
      simpl. rewrite (IH2 eq_refl), Ek2. reflexivity. }
    rewrite Hnone. reflexivity.
Qed.

Lemma field_get_replace_other k v k' fs :
  k' <> k ->
  field_get k'
    (map (fun kv => if String.eqb (fst kv) k then (fst kv, v) else kv) fs)
  = field_get k' fs.
Proof.
  intros Hne. induction fs as [|[k2 v2] fs IH]; simpl; [reflexivity|].
  rewrite IH. destruct (field_get k' fs); [destruct (String.eqb k2 k); reflexivity|].
  destruct (String.eqb_spec k2 k) as [->|Hk]; simpl; [|reflexivity].
  destruct (String.eqb_spec k k'); [congruence | reflexivity].
Qed.

Lemma field_get_set k v k' fs :
  field_get k' (field_set k v fs)
  = if String.eqb k k' then Some v else field_get k' fs.
Proof.
  unfold field_set. destruct (String.eqb_spec k k') as [<-|Hne].
  - destruct (has_own k fs) eqn:E.
    + apply field_get_replace_same, E.
    + rewrite field_get_app. simpl. rewrite String.eqb_refl. reflexivity.
  - destruct (has_own k fs) eqn:E.
    + apply field_get_replace_other. congruence.
    + rewrite field_get_app. simpl.
      destruct (String.eqb_spec k k'); [contradiction | reflexivity].
Qed.

Lemma prop_set k v k' fs :
  prop k' (field_set k v fs) = if String.eqb k k' then v else prop k' fs.
Proof. unfold prop. rewrite field_get_set. destruct (String.eqb k k'); reflexivity. Qed.

Lemma has_own_set k v k' fs :
  has_own k' (field_set k v fs) = String.eqb k k' || has_own k' fs.
Proof. unfold has_own. rewrite field_get_set. destruct (String.eqb k k'); reflexivity. Qed.

(** A spread overrides exactly the properties its source has. *)
Lemma field_get_fold_set k ps : forall acc,
  field_get k (fold_left (fun a kv => field_set (fst kv) (snd kv) a) ps acc)
  = match field_get k ps with
    | Some v => Some v
    | None => field_get k acc
    end.
Proof.
  induction ps as [|[k' v'] ps IH]; intros acc; simpl; [reflexivity|].
  rewrite IH, field_get_set.
  destruct (field_get k ps); [reflexivity|].
  destruct (String.eqb k' k); reflexivity.
Qed.

Lemma prop_spread k acc v :
  prop k (spread acc v)
  = if has_own k (own_props v) then prop k (own_props v) else prop k acc.
Proof.
  unfold prop, has_own, spread. rewrite field_get_fold_set.
  destruct (field_get k (own_props v)); reflexivity.
Qed.

Lemma has_own_spread k acc v :
  has_own k (spread acc v) = has_own k (own_props v) || has_own k acc.
Proof.
  unfold has_own, spread. rewrite field_get_fold_set.
  destruct (field_get k (own_props v)); reflexivity.
Qed.

Lemma has_own_false_iff k fs : has_own k fs = false <-> ~ In k (map fst fs).
Proof.
  unfold has_own. induction fs as [|[k' v'] fs IH]; simpl.
  - split; [intros _ [] | reflexivity].
  - destruct (field_get k fs) eqn:E.
    + split; [discriminate|]. intros H. exfalso. apply H. right.
      apply Decidable.not_not; [|intros Hn; apply IH in Hn; discriminate].
      unfold Decidable.decidable. destruct (in_dec string_dec k (map fst fs)); auto.
    + destruct (String.eqb_spec k' k) as [->|Hne].
      * split; [discriminate|]. intros H. exfalso. apply H. left. reflexivity.
      * split; [|reflexivity]. intros _ [H|H]; [contradiction|].
        apply (proj1 IH eq_refl). exact H.
Qed.

(** Spreading an object without repeated names into a literal that has none
    of them appends its members in order. *)
Lemma fold_set_fresh fs : forall acc,
  NoDup (map fst fs) ->
  (forall k, In k (map fst fs) -> ~ In k (map fst acc)) ->
  fold_left (fun a kv => field_set (fst kv) (snd kv) a) fs acc = acc ++ fs.
Proof.
  induction fs as [|[k v] fs IH]; intros acc Hnd Hfresh; simpl.
  - rewrite app_nil_r. reflexivity.
  - inversion Hnd as [|? ? Hk Hnd']; subst.
    assert (Hown : has_own k acc = false).
    { apply has_own_false_iff, Hfresh. left. reflexivity. }
    unfold field_set at 2. rewrite Hown. rewrite IH.
    + rewrite <- app_assoc. reflexivity.
    + exact Hnd'.
    + intros k' Hin. rewrite map_app, in_app_iff. simpl.
      intros [H|[H|[]]].
      * apply (Hfresh k'); [right; exact Hin | exact H].
      * subst. contradiction.
Qed.

Lemma own_keys_nodup fs : NoDup (map fst fs) -> own_keys fs = map fst fs.
Proof.
  intros Hnd. unfold own_keys, spread. simpl.
  rewrite fold_set_fresh; [reflexivity | exact Hnd | intros k _ []].
Qed.

(** SameValueZero on primitive keys is equality of their normal forms. *)
Lemma spec_float_eqb_eq x y : spec_float_eqb x y = true <-> x = y.
Proof.
  destruct x as [a|a| |a m e], y as [b|b| |b m' e']; simpl;
    try (split; [discriminate | intros H; discriminate H]);
    try (rewrite Bool.eqb_true_iff; split; [intros ->; reflexivity | intros H; injection H; auto]).
  - split; reflexivity.
  - rewrite !andb_true_iff, Bool.eqb_true_iff, Pos.eqb_eq, Z.eqb_eq.
    split; [intros [[-> ->] ->]; reflexivity | intros H; injection H; auto].
Qed.

Lemma prim_key_eqb_eq x y : prim_key_eqb x y = true <-> x = y.
Proof.
  destruct x, y; simpl;
    try (split; [discriminate | intros H; discriminate H]);
    try (split; reflexivity).
  - rewrite Bool.eqb_true_iff. split; [intros ->; reflexivity | intros H; injection H; auto].
  - rewrite spec_float_eqb_eq. split; [intros ->; reflexivity | intros H; injection H; auto].
  - rewrite String.eqb_eq. split; [intros ->; reflexivity | intros H; injection H; auto].
Qed.

Lemma same_value_zero_spec a b :
  same_value_zero a b = true
  <-> exists x, key_of a = Some x /\ key_of b = Some x.
Proof.
  unfold same_value_zero.
  destruct (key_of a) as [x|], (key_of b) as [y|].
  - rewrite prim_key_eqb_eq. split.
    + intros ->. exists y. split; reflexivity.
    + intros (z & Hx & Hy). congruence.
  - split; [discriminate | intros (z & _ & H); discriminate H].
  - split; [discriminate | intros (z & H & _); discriminate H].
  - split; [discriminate | intros (z & H & _); discriminate H].
Qed.

Lemma same_value_zero_refl k : key_of k <> None -> same_value_zero k k = true.
Proof.
  intros H. apply same_value_zero_spec.
  destruct (key_of k) as [x|]; [exists x; split; reflexivity | contradiction].
Qed.

Lemma map_get_set_same {V} k (v : V) m :
  key_of k <> None -> map_get k (map_set k v m) = Some v.
Proof.
  intros Hk. induction m as [|[k' v'] m IH]; simpl.
  - rewrite same_value_zero_refl by exact Hk. reflexivity.
  - destruct (same_value_zero k' k) eqn:E; simpl; rewrite E; [reflexivity | exact IH].
Qed.

Lemma map_get_set_other {V} k (v : V) k' m :
  same_value_zero k k' = false -> map_get k' (map_set k v m) = map_get k' m.
Proof.
  intros Hne. induction m as [|[k0 v0] m IH]; simpl.
  - rewrite Hne. reflexivity.
  - destruct (same_value_zero k0 k) eqn:E; simpl.
    + assert (E' : same_value_zero k0 k' = false).
      { destruct (same_value_zero k0 k') eqn:E'; [|reflexivity].
        apply same_value_zero_spec in E as (x & Hx0 & Hx).
        apply same_value_zero_spec in E' as (y & Hy0 & Hy).
        assert (same_value_zero k k' = true).
        { apply same_value_zero_spec. exists x. split; congruence. }
        congruence. }
      rewrite E'. reflexivity.
    + destruct (same_value_zero k0 k'); [reflexivity | exact IH].
Qed.

(** *** Buffering *)

Lemma prop_spread_nil k v : prop k (spread [] v) = prop k (own_props v).
Proof.
  rewrite prop_spread. unfold has_own, prop.
  destruct (field_get k (own_props v)); reflexivity.
Qed.

Lemma has_own_spread_nil k v : has_own k (spread [] v) = has_own k (own_props v).
Proof. rewrite has_own_spread. simpl. apply orb_false_r. Qed.

Lemma prop_array_entry f fs d :
  prop f (array_entry (VObj fs) d)
  = if String.eqb "layerId" f then prop "layerId" fs ?? d else prop f fs.
Proof. unfold array_entry. rewrite prop_set, prop_spread_nil. reflexivity. Qed.

Lemma has_own_array_entry f fs d :
  has_own f (array_entry (VObj fs) d) = String.eqb "layerId" f || has_own f fs.
Proof. unfold array_entry. rewrite has_own_set, has_own_spread_nil. reflexivity. Qed.

Lemma prop_record_entry f name o d :
  prop f (record_entry name o d)
  = if String.eqb "layerId" f then js_get o "layerId" ?? d
    else if String.eqb "name" f then js_get o "name" ?? VStr name
    else if String.eqb "id" f then js_get o "id"
    else prop f (own_props (o ||| VObj [])).
Proof. unfold record_entry. rewrite !prop_set, prop_spread_nil. reflexivity. Qed.

Lemma has_own_record_entry f name o d :
  has_own f (record_entry name o d)
  = String.eqb "layerId" f || (String.eqb "name" f
      || (String.eqb "id" f || has_own f (own_props (o ||| VObj [])))).
Proof. unfold record_entry. rewrite !has_own_set, has_own_spread_nil. reflexivity. Qed.

(** The overlay [{ ...prev, ...u }], property by property. *)
Lemma prop_overlay f prev u :
  prop f (spread (spread [] (VObj prev)) (VObj u))
  = if has_own f u then prop f u else prop f prev.
Proof. rewrite prop_spread, prop_spread_nil. reflexivity. Qed.

Lemma pending_enqueuePhysics objects d w arr :
  collect objects d = Some arr ->
  pending (enqueuePhysics objects d w) = fold_left merge_update arr (pending w).
Proof.
  intros H. unfold enqueuePhysics. rewrite H. cbn.
  destruct (rafHandle w); reflexivity.
Qed.

Lemma collect_record_nodup fs d :
  NoDup (map fst fs) ->
  collect (VObj fs) d
  = Some (map (fun key => record_entry key (prop key fs) d) (map fst fs)).
Proof. intros H. simpl. rewrite own_keys_nodup by exact H. reflexivity. Qed.

Lemma prop_app_l k fs1 fs2 :
  ~ In k (map fst fs2) -> prop k (fs1 ++ fs2) = prop k fs1.
Proof.
  intros H. unfold prop. rewrite field_get_app.
  apply has_own_false_iff in H. unfold has_own in H.
  destruct (field_get k fs2); [discriminate | reflexivity].
Qed.

Lemma prop_app_r k fs1 fs2 :
  In k (map fst fs2) -> prop k (fs1 ++ fs2) = prop k fs2.
Proof.
  intros H. unfold prop. rewrite field_get_app.
  destruct (field_get k fs2) eqn:E; [reflexivity|].
  exfalso. revert H. apply has_own_false_iff. unfold has_own. rewrite E. reflexivity.
Qed.

(** C1, as the code has it.  [enqueuePhysics] buffers updates in a map keyed
    by id, else name, with last-write-wins merging.  (a) A falsy array
    entry and one with neither id nor name are dropped.  (b) Any other array
    entry is stored under [id ?? name]; what is stored has, for every
    property but [layerId], the entry's value when the entry has the
    property and the previously buffered value when it has not; its
    [layerId] is always the entry's own, else the batch's default, whatever
    was buffered.  (c) A record entry is stored under [id ?? (name ?? key)]
    likewise, its [id], [name] and [layerId] always being the entry's own
    (the record key standing in for a missing name, the default for a
    missing layer).  (d) A batch is merged entry by entry in order, so a
    later entry for the same key overrides an earlier one.  (e) In the map,
    the stored update is found under its key and every other key keeps its
    update. *)
Theorem enqueuePhysics_overlay :
  forall (d : value) (w : World),
    (forall it,
        truthy it = false \/ nullish (js_get it "id" ?? js_get it "name") = true ->
        pending (enqueuePhysics (VArr [it]) d w) = pending w)
    /\ (forall fs,
          let key := prop "id" fs ?? prop "name" fs in
          let prev :=
            match map_get key (pending w) with
            | Some buffered => buffered
            | None => [("id", prop "id" fs); ("name", prop "name" fs)]
            end in
          nullish key = false ->
          exists merged,
            pending (enqueuePhysics (VArr [VObj fs]) d w)
            = map_set key merged (pending w)
            /\ prop "layerId" merged = prop "layerId" fs ?? d
            /\ forall f, f <> "layerId" ->
                 prop f merged = if has_own f fs then prop f fs else prop f prev)
    /\ (forall name o,
          let id := js_get o "id" in
          let nm := js_get o "name" ?? VStr name in
          let key := id ?? nm in
          let prev :=
            match map_get key (pending w) with
            | Some buffered => buffered
            | None => [("id", id); ("name", nm)]
            end in
          exists merged,
            pending (enqueuePhysics (VObj [(name, o)]) d w)
            = map_set key merged (pending w)
            /\ prop "id" merged = id
            /\ prop "name" merged = nm
            /\ prop "layerId" merged = js_get o "layerId" ?? d
            /\ forall f, f <> "id" -> f <> "name" -> f <> "layerId" ->
                 prop f merged
                 = if has_own f (own_props (o ||| VObj []))
                   then prop f (own_props (o ||| VObj []))
                   else prop f prev)
    /\ (forall a b,
          pending (enqueuePhysics (VArr (a ++ b)) d w)
          = pending (enqueuePhysics (VArr b) d (enqueuePhysics (VArr a) d w)))
    /\ (forall fs1 fs2,
          NoDup (map fst (fs1 ++ fs2)) ->
          pending (enqueuePhysics (VObj (fs1 ++ fs2)) d w)
          = pending (enqueuePhysics (VObj fs2) d (enqueuePhysics (VObj fs1) d w)))
    /\ (forall key merged,
          key_of key <> None ->
          map_get key (map_set key merged (pending w)) = Some merged
          /\ forall k', same_value_zero key k' = false ->
               map_get k' (map_set key merged (pending w)) = map_get k' (pending w)).
Proof.
  intros d w.
  split; [|split; [|split; [|split; [|split]]]].
  - intros it H.
    rewrite (pending_enqueuePhysics (VArr [it]) d w []); [reflexivity|].
    simpl. destruct H as [H|H]; rewrite H; simpl; [reflexivity|].
    destruct (negb (truthy it)); reflexivity.
  - intros fs key prev Hkey.
    assert (Hc : collect (VArr [VObj fs]) d = Some [array_entry (VObj fs) d]).
    { simpl. fold key. rewrite Hkey. reflexivity. }
    rewrite (pending_enqueuePhysics _ _ _ _ Hc). simpl. unfold merge_update.
    rewrite !prop_array_entry. simpl String.eqb. cbv iota. fold key. fold prev.
    eexists. split; [reflexivity|]. split.
    + rewrite prop_overlay, has_own_array_entry, prop_array_entry. reflexivity.
    + intros f Hf.
      rewrite prop_overlay, has_own_array_entry, prop_array_entry.
      destruct (String.eqb_spec "layerId" f) as [E|_]; [congruence|]. reflexivity.
  - intros name o id nm key prev.
    assert (Hc : collect (VObj [(name, o)]) d = Some [record_entry name o d]).
    { unfold collect, own_keys, spread. simpl.
      unfold prop. simpl. rewrite String.eqb_refl. reflexivity. }
    rewrite (pending_enqueuePhysics _ _ _ _ Hc). simpl. unfold merge_update.
    rewrite !prop_record_entry. simpl String.eqb. cbv iota.
    fold id. fold nm. fold key. fold prev.
    eexists. split; [reflexivity|].
    repeat split;
      try (rewrite prop_overlay, has_own_record_entry, prop_record_entry; reflexivity).
    intros f H1 H2 H3.
    rewrite prop_overlay, has_own_record_entry, prop_record_entry.
    destruct (String.eqb_spec "layerId" f) as [E|_]; [congruence|].
    destruct (String.eqb_spec "name" f) as [E|_]; [congruence|].
    destruct (String.eqb_spec "id" f) as [E|_]; [congruence|].
    reflexivity.
  - intros a b.
    rewrite (pending_enqueuePhysics (VArr (a ++ b)) d w _ eq_refl).
    rewrite (pending_enqueuePhysics (VArr b) d _ _ eq_refl).
    rewrite (pending_enqueuePhysics (VArr a) d w _ eq_refl).
    rewrite flat_map_app, fold_left_app. reflexivity.
  - intros fs1 fs2 Hnd.
    assert (Hnd1 : NoDup (map fst fs1)).
    { rewrite map_app in Hnd. apply NoDup_app_remove_r in Hnd. exact Hnd. }
    assert (Hnd2 : NoDup (map fst fs2)).
    { rewrite map_app in Hnd. apply NoDup_app_remove_l in Hnd. exact Hnd. }
    rewrite (pending_enqueuePhysics _ d w _ (collect_record_nodup (fs1 ++ fs2) d Hnd)).
    rewrite (pending_enqueuePhysics _ d _ _ (collect_record_nodup fs2 d Hnd2)).
    rewrite (pending_enqueuePhysics _ d w _ (collect_record_nodup fs1 d Hnd1)).
    rewrite map_app, map_app, fold_left_app.
    f_equal.
    + apply map_ext_in. intros k Hk. rewrite prop_app_r by exact Hk. reflexivity.
    + f_equal. apply map_ext_in. intros k Hk. rewrite prop_app_l; [reflexivity|].
      intros Hk2. rewrite map_app in Hnd.
      revert k Hk Hk2. apply NoDup_app_disjoint, Hnd.
  - intros key merged Hk. split.
    + apply map_get_set_same, Hk.
    + intros k' Hne. apply map_get_set_other, Hne.
Qed.

(** A position for object ["a"] is buffered; a rotation for it arrives in
    the same frame: the stored update has both. *)
Lemma enqueuePhysics_overlay_witness :
  let first := VArr [VObj [("id", VStr "a"); ("layerId", VStr "L1");
                           ("pos", VArr [VNum 1; VNum 2; VNum 3]%float)]] in
  let w1 := enqueuePhysics first VUndef Demo.demo_world in
  let second := [("id", VStr "a"); ("rot", VArr [VNum 0; VNum 0; VNum 0; VNum 1]%float)] in
  exists merged,
    pending (enqueuePhysics (VArr [VObj second]) VUndef w1)
    = map_set (VStr "a") merged (pending w1)
    /\ prop "pos" merged = VArr [VNum 1; VNum 2; VNum 3]%float
    /\ prop "rot" merged = VArr [VNum 0; VNum 0; VNum 0; VNum 1]%float.
Proof.
  intros first w1 second.
  destruct (enqueuePhysics_overlay VUndef w1) as (_ & Hb & _).
  destruct (Hb second eq_refl) as (merged & Hp & _ & Hf).
  exists merged. split; [exact Hp|]. split.
  - rewrite (Hf "pos"); [reflexivity | discriminate].
  - rewrite (Hf "rot"); [reflexivity | discriminate].
Defined.

(** C1 as stated fails for [layerId].  The update buffered for ["a"] is
    tagged with layer ["L1"]; the next update for ["a"] has no [layerId] and
    comes in a batch without a default layer; the stored update's [layerId]
    is then [undefined]: the buffered tag is not retained, though the newest
    update has no such field. *)
Lemma enqueuePhysics_overlay_counterexample :
  let first := VArr [VObj [("id", VStr "a"); ("layerId", VStr "L1");
                           ("pos", VArr [VNum 1; VNum 2; VNum 3]%float)]] in
  let w1 := enqueuePhysics first VUndef Demo.demo_world in
  let second := [("id", VStr "a"); ("rot", VArr [VNum 0; VNum 0; VNum 0; VNum 1]%float)] in
  let w2 := enqueuePhysics (VArr [VObj second]) VUndef w1 in
  has_own "layerId" second = false
  /\ exists buffered merged,
       map_get (VStr "a") (pending w1) = Some buffered
       /\ map_get (VStr "a") (pending w2) = Some merged
       /\ prop "layerId" buffered = VStr "L1"
       /\ prop "layerId" merged = VUndef
       /\ prop "layerId" merged <> prop "layerId" buffered.
Proof.
  intros first w1 second w2.
  split; [reflexivity|].
  eexists _, _.
  split; [reflexivity|]. split; [reflexivity|].
  split; [reflexivity|]. split; [reflexivity|].
  discriminate.
Defined.

(** *** Resolving a key *)

Lemma map_get_same_key {V} k k' (m : jsmap V) :
  same_value_zero k k' = true -> map_get k m = map_get k' m.
Proof.
  intros H. apply same_value_zero_spec in H as (x & Hk & Hk').
  induction m as [|[k0 v0] m IH]; simpl; [reflexivity|].
  assert (E : same_value_zero k0 k = same_value_zero k0 k').
  { unfold same_value_zero. rewrite Hk, Hk'. reflexivity. }
  rewrite E, IH. reflexivity.
Qed.

Lemma map_get_set {V} k (v : V) k' m :
  map_get k' (map_set k v m)
  = if same_value_zero k k' then Some v else map_get k' m.
Proof.
  destruct (same_value_zero k k') eqn:E.
  - rewrite <- (map_get_same_key k k' _ E).
    apply map_get_set_same.
    apply same_value_zero_spec in E as (x & Hk & _). congruence.
  - apply map_get_set_other, E.
Qed.

Lemma map_set_keeps {V} k (v : V) k' m :
  map_get k' m <> None -> map_get k' (map_set k v m) <> None.
Proof.
  intros H. rewrite map_get_set.
  destruct (same_value_zero k k'); [discriminate | exact H].
Qed.

Section Resolve.

Context {host : Host}.

Lemma objectIndex_rebuildObjectIndex w scene :
  getThreeScene w = Some scene ->
  objectIndex (rebuildObjectIndex w)
  = fold_left index_entry
      (match iso w with
       | Some c => match Iso.objects c with Some entries => entries | None => [] end
       | None => []
       end)
      (fold_left (index_named (heap w)) (THREE.traverse scene) []).
Proof.
  intros H. unfold rebuildObjectIndex.
  change (getThreeScene (with_objectIndex [] w)) with (getThreeScene w).
  rewrite H. cbn. destruct (iso w) as [c|]; [|reflexivity].
  destruct (Iso.objects c); reflexivity.
Qed.

End Resolve.

(** *** Scene ingestion *)

(** Induction on values, through arrays and members. *)
Lemma value_rect' (P : value -> Prop) :
  P VUndef -> P VNull -> (forall b, P (VBool b)) -> (forall n, P (VNum n)) ->
  (forall s, P (VStr s)) ->
  (forall items, Forall P items -> P (VArr items)) ->
  (forall fs, Forall (fun kv => P (snd kv)) fs -> P (VObj fs)) ->
  forall v, P v.
Proof.
  intros Hu Hn Hb Hnum Hs Ha Ho.
  fix IH 1. intros [| |b|n|s|items|fs].
  - exact Hu.
  - exact Hn.
  - apply Hb.
  - apply Hnum.
  - apply Hs.
  - apply Ha. induction items as [|x items IHl]; constructor; [apply IH | exact IHl].
  - apply Ho. induction fs as [|[k x] fs IHl]; constructor; [apply IH | exact IHl].
Qed.

Lemma physics_free_stripped v : physics_free (stripped v) = true.
Proof.
  induction v as [| |b|n|s|items IH|fs IH] using value_rect'; try reflexivity.
  - simpl. destruct (_ || _); [reflexivity|]. destruct (PrimFloat.is_zero n); reflexivity.
  - simpl. induction IH as [|x items Hx _ IHl]; simpl; [reflexivity|].
    rewrite Hx, IHl. reflexivity.
  - simpl. induction IH as [|[k x] fs Hx _ IHl]; simpl; [reflexivity|].
    destruct (has_own k fs); [exact IHl|].
    destruct (String.eqb k "physics") eqn:Ek; [exact IHl|].
    simpl in Hx. destruct x; simpl in *; try exact IHl;
      rewrite Ek; simpl; rewrite ?Hx; try exact IHl.
Qed.

Lemma string_of_nat_not_physics n : String.eqb (string_of_nat n) "physics" = false.
Proof.
  destruct (String.eqb_spec (string_of_nat n) "physics") as [H|]; [|reflexivity].
  pose proof (NilEmpty.usu (Nat.to_uint n)) as Hu.
  unfold string_of_nat in H. rewrite H in Hu. vm_compute in Hu. discriminate Hu.
Qed.

Lemma members_free_indexed items : forall i,
  forallb physics_free items = true -> members_free (indexed i items) = true.
Proof.
  induction items as [|x items IH]; intros i H; simpl; [reflexivity|].
  simpl in H. apply andb_prop in H as [Hx Hr].
  rewrite string_of_nat_not_physics, Hx. simpl. apply IH, Hr.
Qed.

Lemma physics_free_chars s : forallb physics_free (chars s) = true.
Proof.
  unfold chars. induction (code_units s) as [|c l IH]; simpl;
    [reflexivity | exact IH].
Qed.

Lemma members_free_own_props v :
  physics_free v = true -> members_free (own_props v) = true.
Proof.
  destruct v; simpl; intros H; try reflexivity.
  - apply members_free_indexed, physics_free_chars.
  - apply members_free_indexed, H.
  - exact H.
Qed.

Lemma members_free_set k v fs :
  String.eqb k "physics" = false -> physics_free v = true ->
  members_free fs = true -> members_free (field_set k v fs) = true.
Proof.
  intros Hk Hv Hfs. unfold field_set, members_free in *.
  destruct (has_own k fs).
  - rewrite forallb_forall in *. intros kv Hin.
    apply in_map_iff in Hin as ([k0 v0] & <- & Hin). simpl.
    destruct (String.eqb_spec k0 k) as [->|_]; simpl.
    + rewrite Hk, Hv. reflexivity.
    + apply (Hfs _ Hin).
  - rewrite forallb_app, Hfs. simpl. rewrite Hk, Hv. reflexivity.
Qed.

Lemma members_free_fold_set ps : forall acc,
  members_free ps = true -> members_free acc = true ->
  members_free (fold_left (fun a kv => field_set (fst kv) (snd kv) a) ps acc) = true.
Proof.
  induction ps as [|[k v] ps IH]; intros acc Hps Hacc; simpl; [exact Hacc|].
  simpl in Hps. apply andb_prop in Hps as [Hkv Hps].
  apply andb_prop in Hkv as [Hk Hv].
  apply IH; [exact Hps|].
  apply members_free_set; [|exact Hv | exact Hacc].
  destruct (String.eqb k "physics"); [discriminate | reflexivity].
Qed.

(** An object put into the layer carries the layer and, when it came out of
    [stripPhysicsDeep], no ["physics"] member. *)
Lemma into_layer_layer layerId o : js_get (into_layer layerId o) "layer" = VStr layerId.
Proof. unfold into_layer. simpl. rewrite prop_set. reflexivity. Qed.

Lemma into_layer_physics_free layerId o :
  physics_free o = true -> physics_free (into_layer layerId o) = true.
Proof.
  intros H. unfold into_layer.
  change (members_free (field_set "layer" (VStr layerId) (spread [] o)) = true).
  apply members_free_set; [reflexivity | reflexivity|].
  apply members_free_fold_set; [apply members_free_own_props, H | reflexivity].
Qed.

Lemma members_free_field_get k fs x :
  members_free fs = true -> field_get k fs = Some x -> physics_free x = true.
Proof.
  induction fs as [|[k0 x0] fs IH]; simpl; [discriminate|].
  intros H Hget. apply andb_prop in H as [H0 Hr]. apply andb_prop in H0 as [_ H0].
  destruct (field_get k fs) as [y|] eqn:E0.
  - apply (IH Hr). congruence.
  - destruct (String.eqb k0 k); [|discriminate]. congruence.
Qed.

Lemma physics_free_ensureSceneArray v :
  physics_free v = true -> forallb physics_free (ensureSceneArray v) = true.
Proof.
  intros H. unfold ensureSceneArray.
  destruct v as [| |b|n|s|items|fields]; try reflexivity.
  - exact H.
  - simpl js_get. unfold prop.
    assert (Hself : forallb physics_free [VObj fields] = true).
    { simpl in H |- *. rewrite H. reflexivity. }
    destruct (field_get "scene" fields) as [x|] eqn:E; [|exact Hself].
    pose proof (members_free_field_get "scene" fields x H E) as Hx.
    destruct x; try exact Hself.
    exact Hx.
Qed.

Section Ingest.

Context {host : Host}.

Lemma removeObject_calls id w :
  iso w <> None ->
  iso (removeObject id w) <> None
  /\ iso_calls (removeObject id w) = iso_calls w ++ [Iso.removeObject id].
Proof.
  intros Hi. unfold removeObject. destruct (iso w); [|contradiction].
  destruct (IsoCard_removeObject _ _ _). split; [discriminate | reflexivity].
Qed.

Lemma fold_removeObject_calls entries : forall w,
  iso w <> None ->
  iso (fold_left (fun w e => removeObject (Iso.id e) w) entries w) <> None
  /\ iso_calls (fold_left (fun w e => removeObject (Iso.id e) w) entries w)
     = iso_calls w ++ map (fun e => Iso.removeObject (Iso.id e)) entries.
Proof.
  induction entries as [|e entries IH]; intros w Hi; simpl.
  - rewrite app_nil_r. split; [exact Hi | reflexivity].
  - destruct (removeObject_calls (Iso.id e) w Hi) as [Hi' Hc].
    destruct (IH _ Hi') as [Hi2 Hc2]. split; [exact Hi2|].
    rewrite Hc2, Hc, <- app_assoc. reflexivity.
Qed.

(** [clearLayer] asks IsoCard to remove exactly the objects configured into
    the layer, in list order. *)
Lemma clearLayer_calls layerId w c :
  iso w = Some c ->
  iso (clearLayer layerId w) <> None
  /\ iso_calls (clearLayer layerId w)
     = iso_calls w
       ++ map (fun e => Iso.removeObject (Iso.id e))
            (filter (in_layer layerId) (iso_entries c)).
Proof.
  intros Hi. unfold clearLayer, iso_entries. rewrite Hi.
  destruct (Iso.objects c) as [entries|].
  2:{ simpl. rewrite app_nil_r, Hi. split; [discriminate | reflexivity]. }
  assert (Hw : iso w <> None) by (rewrite Hi; discriminate).
  destruct (fold_removeObject_calls (filter (in_layer layerId) entries) w Hw)
    as [Hi' Hc].
  destruct (filter (in_layer layerId) entries); [split; assumption|].
  split; [exact Hi' | exact Hc].
Qed.

Lemma iso_calls_tag_layers layerId entries : forall w,
  iso_calls (fold_left (tag_layer layerId) entries w) = iso_calls w.
Proof.
  induction entries as [|e entries IH]; intros w; simpl; [reflexivity|].
  rewrite IH. unfold tag_layer. destruct (Iso.threeObj e); reflexivity.
Qed.

Lemma iso_calls_rebuildObjectIndex w :
  iso_calls (rebuildObjectIndex w) = iso_calls w.
Proof.
  unfold rebuildObjectIndex.
  destruct (getThreeScene (with_objectIndex [] w)); reflexivity.
Qed.

End Ingest.

(** C10. Scene ingestion puts every object into the viewing layer.  With an
    IsoCard instance in place, [handleSceneState] on a SCENE_STATE payload
    first asks IsoCard to remove exactly the objects whose config layer is
    the current [layerId], then adds the payload to that layer, and then at
    most renders.  What it adds is the deep-stripped payload, taken as it
    is when an array, as its [scene] member when that is an array, and as a
    one-element array otherwise; and every object added carries [layerId]
    as its [layer] and has no ["physics"] member at any depth. *)
Theorem handleSceneState_normalizes :
  forall (host : Host) (sceneData : value) (w : World) (c : Iso.IsoCard),
    iso w = Some c ->
    sceneData <> VUndef ->
    let layerId := State.layerId (state w) in
    let cleaned := stripped sceneData in
    let payload := map (into_layer layerId) (ensureSceneArray cleaned) in
    (exists rest,
        iso_calls (handleSceneState sceneData w)
        = iso_calls w
          ++ map (fun e => Iso.removeObject (Iso.id e))
               (filter (in_layer layerId) (iso_entries c))
          ++ Iso.addObjectsToLayer layerId payload :: rest
        /\ (rest = [] \/ rest = [Iso.renderScene]))
    /\ (forall o, In o payload ->
          js_get o "layer" = VStr layerId /\ physics_free o = true)
    /\ ensureSceneArray cleaned
       = match cleaned with
         | VArr items => items
         | _ => match js_get cleaned "scene" with
                | VArr items => items
                | _ => [cleaned]
                end
         end
    /\ physics_free cleaned = true.
Proof.
  intros host sceneData w c Hi Hdef layerId cleaned payload.
  split; [|split; [|split]].
  - unfold handleSceneState. rewrite Hi.
    unfold handleSceneState_try.
    assert (Hs : stripPhysicsDeep sceneData = inr cleaned).
    { destruct sceneData; try reflexivity. contradiction. }
    rewrite Hs. fold layerId. fold payload.
    destruct (clearLayer_calls layerId w c Hi) as [Hi' Hc].
    destruct (iso (clearLayer layerId w)) as [c1|] eqn:Ec; [|contradiction].
    destruct (IsoCard_addObjectsToLayer c1 _ layerId payload) as [[c' h'] [e|]].
    + exists []. split; [|left; reflexivity].
      cbn. rewrite Hc, <- app_assoc. reflexivity.
    + exists [Iso.renderScene]. split; [|right; reflexivity].
      cbn. rewrite iso_calls_rebuildObjectIndex.
      assert (Ht : forall w0,
                 iso_calls (match Iso.objects c' with
                            | Some entries => fold_left (tag_layer layerId) entries w0
                            | None => w0
                            end) = iso_calls w0).
      { intros w0. destruct (Iso.objects c'); [apply iso_calls_tag_layers | reflexivity]. }
      rewrite Ht. cbn. rewrite Hc, <- !app_assoc. reflexivity.
  - intros o Hin. unfold payload in Hin.
    apply in_map_iff in Hin as (x & <- & Hin). split.
    + apply into_layer_layer.
    + apply into_layer_physics_free.
      pose proof (physics_free_ensureSceneArray cleaned (physics_free_stripped sceneData)) as Hf.
      rewrite forallb_forall in Hf. apply Hf, Hin.
  - destruct cleaned; reflexivity.
  - apply physics_free_stripped.
Qed.

(** A SCENE_STATE payload with a [scene] array of one object that has a
    ["physics"] member: the object configured into the layer is removed,
    and what is added has the layer and no physics. *)
Lemma handleSceneState_normalizes_witness :
  let sceneData :=
    VObj [("type", VStr "SCENE_STATE");
          ("scene", VArr [VObj [("name", VStr "crate");
                                ("physics", VObj [("mass", VNum 2%float)])]])] in
  iso_calls (handleSceneState (host := Demo.toy_host) sceneData Demo.demo_world)
  = [Iso.removeObject (VNum 7%float);
     Iso.addObjectsToLayer "server_layer"
       [VObj [("name", VStr "crate"); ("layer", VStr "server_layer")]];
     Iso.renderScene].
Proof.
  intros sceneData.
  destruct (handleSceneState_normalizes Demo.toy_host sceneData Demo.demo_world
              Demo.demo_iso eq_refl)
    as ((rest & Hcalls & _) & _); [discriminate|].
  reflexivity.
Defined.

(* ================================================================== *)
(** ** Further properties of the helpers *)
(* ================================================================== *)

(** *** stripPhysicsDeep *)

Lemma stripped_members_cons k x rest :
  stripped_members ((k, x) :: rest)
  = if has_own k rest then stripped_members rest
    else if String.eqb k "physics" then stripped_members rest
    else match x with
         | VUndef => stripped_members rest
         | _ => (k, stripped x) :: stripped_members rest
         end.
Proof. destruct x; reflexivity. Qed.

Lemma stripped_object fs : stripped (VObj fs) = VObj (stripped_members fs).
Proof. reflexivity. Qed.

(** The members kept are among the members given. *)
Lemma stripped_members_keys k fs :
  In k (map fst (stripped_members fs)) -> In k (map fst fs).
Proof.
  induction fs as [|[k0 x] rest IH]; [intros []|].
  rewrite stripped_members_cons. simpl.
  destruct (has_own k0 rest); [auto|].
  destruct (String.eqb k0 "physics"); [auto|].
  destruct x; simpl; intros H; auto; destruct H as [H|H]; auto.
Qed.

Lemma unique_stripped_members fs : unique_names (stripped_members fs) = true.
Proof.
  induction fs as [|[k x] rest IH]; [reflexivity|].
  rewrite stripped_members_cons.
  destruct (has_own k rest) eqn:Eo; [exact IH|].
  destruct (String.eqb k "physics"); [exact IH|].
  assert (Hfresh : has_own k (stripped_members rest) = false).
  { apply has_own_false_iff. intros Hin. apply stripped_members_keys in Hin.
    revert Hin. apply has_own_false_iff, Eo. }
  destruct x; try exact IH; simpl; rewrite Hfresh, IH; reflexivity.
Qed.

Lemma stripped_defined v : stripped v <> VUndef.
Proof.
  destruct v; simpl; try discriminate.
  destruct (_ || _); [discriminate|]. destruct (PrimFloat.is_zero n); discriminate.
Qed.

(** What comes out of [stripPhysicsDeep] is a value as JSON text gives
    them. *)
Lemma json_clean_stripped v : json_clean (stripped v) = true.
Proof.
  induction v as [| |b|n|s|items IH|fs IH] using value_rect'; try reflexivity.
  - simpl. destruct (PrimFloat.is_nan n || PrimFloat.is_infinity n) eqn:E1; [reflexivity|].
    destruct (PrimFloat.is_zero n) eqn:E2; [reflexivity|].
    simpl. unfold json_number. rewrite E1, E2. reflexivity.
  - simpl. induction IH as [|x items Hx _ IHl]; simpl; [reflexivity|].
    rewrite Hx. exact IHl.
  - rewrite stripped_object. simpl. rewrite unique_stripped_members. simpl.
    induction IH as [|[k x] rest Hx _ IHl]; [reflexivity|].
    rewrite stripped_members_cons.
    destruct (has_own k rest); [exact IHl|].
    destruct (String.eqb k "physics"); [exact IHl|].
    simpl in Hx.
    destruct x; try exact IHl; simpl forallb; rewrite IHl, ?andb_true_r; exact Hx.
Qed.

Lemma json_number_stripped n : json_number n = true -> stripped (VNum n) = VNum n.
Proof.
  unfold json_number. intros H. apply andb_prop in H as [H1 H2].
  simpl. destruct (PrimFloat.is_nan n || PrimFloat.is_infinity n); [discriminate|].
  destruct (PrimFloat.is_zero n); [|reflexivity].
  simpl in H2. f_equal. apply FloatAxioms.Prim2SF_inj.
  destruct (Prim2SF n) as [[|]| | |]; try discriminate. reflexivity.
Qed.

(** A value as JSON text gives them, with no ["physics"] member anywhere,
    is its own copy. *)
Lemma stripped_clean v :
  json_clean v = true -> physics_free v = true -> stripped v = v.
Proof.
  induction v as [| |b|n|s|items IH|fs IH] using value_rect'; try reflexivity.
  - discriminate.
  - intros H _. apply json_number_stripped, H.
  - simpl. intros Hc Hp. f_equal.
    induction IH as [|x items Hx _ IHl]; [reflexivity|].
    simpl in Hc, Hp. apply andb_prop in Hc as [Hc1 Hc2]. apply andb_prop in Hp as [Hp1 Hp2].
    simpl. rewrite (Hx Hc1 Hp1), (IHl Hc2 Hp2). reflexivity.
  - intros Hc Hp. rewrite stripped_object. f_equal.
    simpl in Hc. apply andb_prop in Hc as [Hu Hc]. simpl in Hp.
    induction IH as [|[k x] rest Hx _ IHl]; [reflexivity|].
    simpl in Hu, Hc, Hp.
    apply andb_prop in Hu as [Hk Hu]. apply andb_prop in Hc as [Hc1 Hc2].
    apply andb_prop in Hp as [Hp1 Hp2]. apply andb_prop in Hp1 as [Hph Hp1].
    rewrite stripped_members_cons.
    destruct (has_own k rest); [discriminate|].
    destruct (String.eqb k "physics"); [discriminate|].
    simpl in Hx. rewrite (IHl Hu Hc2 Hp2).
    destruct x; try discriminate; rewrite <- (Hx Hc1 Hp1) at 2; reflexivity.
Qed.

(** X1. [stripPhysicsDeep] is idempotent: what it returns for a value other
    than [undefined] is plain JSON data (no [undefined], no number that is
    not finite, no negative zero, no name twice in an object), and stripping
    that again gives it back unchanged. *)
Theorem stripPhysicsDeep_idempotent :
  forall (host : Host) (v c : value),
    v <> VUndef ->
    stripPhysicsDeep v = inr c ->
    json_clean c = true /\ stripPhysicsDeep c = inr c.
Proof.
  intros host v c Hv H.
  assert (Hc : c = stripped v).
  { destruct v; simpl in H; try (injection H as <-; reflexivity). contradiction. }
  subst c. split; [apply json_clean_stripped|].
  assert (Hs : stripPhysicsDeep (stripped v) = inr (stripped (stripped v))).
  { pose proof (stripped_defined v) as Hd.
    destruct (stripped v); try reflexivity. contradiction. }
  rewrite Hs. f_equal.
  apply stripped_clean; [apply json_clean_stripped | apply physics_free_stripped].
Qed.

(** A crate with a physics block, an infinite size and a negative zero:
    the first pass drops the block and turns the numbers into [null] and
    [0]; a second pass changes nothing. *)
Lemma stripPhysicsDeep_idempotent_witness :
  let v := VObj [("name", VStr "crate");
                 ("physics", VObj [("mass", VNum 2%float)]);
                 ("size", VNum infinity); ("tilt", VNum (-0)%float)] in
  let c := VObj [("name", VStr "crate"); ("size", VNull); ("tilt", VNum 0%float)] in
  json_clean c = true /\ stripPhysicsDeep (host := Demo.toy_host) c = inr c.
Proof.
  intros v c.
  apply (stripPhysicsDeep_idempotent Demo.toy_host v c); [discriminate | reflexivity].
Defined.

(** X2. [stripPhysicsDeep] removes nothing but ["physics"] members: a value
    as [JSON.parse] makes them, in which no member at any depth is named
    ["physics"], comes back as it went in. *)
Theorem stripPhysicsDeep_keeps_json :
  forall (host : Host) (v : value),
    json_clean v = true ->
    physics_free v = true ->
    stripPhysicsDeep v = inr v.
Proof.
  intros host v Hc Hp.
  assert (Hs : stripPhysicsDeep v = inr (stripped v)).
  { destruct v; try reflexivity. discriminate. }
  rewrite Hs. f_equal. apply stripped_clean; assumption.
Qed.

(** The ball of the component's default scene text. *)
Lemma stripPhysicsDeep_keeps_json_witness :
  let ball :=
    VObj [("name", VStr "ball"); ("type", VStr "mesh");
          ("shape", VObj [("type", VStr "sphere"); ("radius", VNum 1%float)]);
          ("pos", VArr [VNum 0; VNum 1; VNum 0]%float)] in
  stripPhysicsDeep (host := Demo.toy_host) (VArr [ball]) = inr (VArr [ball]).
Proof.
  intros ball.
  apply (stripPhysicsDeep_keeps_json Demo.toy_host (VArr [ball])); reflexivity.
Defined.

(** *** The rebuilt index *)

Lemma find_snoc {A} (f : A -> bool) (l : list A) (x : A) :
  find f (l ++ [x])
  = match find f l with
    | Some y => Some y
    | None => if f x then Some x else None
    end.
Proof.
  induction l as [|y l IH]; simpl; [reflexivity|].
  destruct (f y); [reflexivity | exact IH].
Qed.

Lemma find_agree {A} (f g : A -> bool) (l : list A) :
  (forall x, In x l -> f x = g x) -> find f l = find g l.
Proof.
  induction l as [|y l IH]; intros H; simpl; [reflexivity|].
  rewrite (H y (or_introl eq_refl)), IH; [reflexivity|].
  intros x Hx. apply H. right. exact Hx.
Qed.

Section Index.

Context {host : Host}.

Lemma map_get_index_named h m r k :
  map_get k (index_named h m r) = if named_as h k r then Some r else map_get k m.
Proof.
  unfold index_named, named_as.
  destruct (negb (String.eqb (THREE.name (h r)) "")); simpl; [|reflexivity].
  apply map_get_set.
Qed.

Lemma map_get_index_entry m e k :
  map_get k (index_entry m e)
  = if claims k e then Some (entry_object e) else map_get k m.
Proof.
  unfold index_entry, claims.
  destruct (truthy (js_get (Iso.config e) "name"));
    destruct (negb (strict_eq (Iso.id e) VUndef)); simpl;
    rewrite ?map_get_set;
    repeat match goal with
           | |- context [same_value_zero ?a ?b] => destruct (same_value_zero a b)
           end; reflexivity.
Qed.

(** A later writer of a key overrides an earlier one. *)
Lemma map_get_fold_index_named h k refs : forall m,
  map_get k (fold_left (index_named h) refs m)
  = match find (named_as h k) (rev refs) with
    | Some r => Some r
    | None => map_get k m
    end.
Proof.
  induction refs as [|r refs IH]; intros m; simpl; [reflexivity|].
  rewrite IH, find_snoc, map_get_index_named.
  destruct (find (named_as h k) (rev refs)); [reflexivity|].
  destruct (named_as h k r); reflexivity.
Qed.

Lemma map_get_fold_index_entry k entries : forall m,
  map_get k (fold_left index_entry entries m)
  = match find (claims k) (rev entries) with
    | Some e => Some (entry_object e)
    | None => map_get k m
    end.
Proof.
  induction entries as [|e entries IH]; intros m; simpl; [reflexivity|].
  rewrite IH, find_snoc, map_get_index_entry.
  destruct (find (claims k) (rev entries)); [reflexivity|].
  destruct (claims k e); reflexivity.
Qed.

Lemma map_get_rebuildObjectIndex w scene k :
  getThreeScene w = Some scene ->
  map_get k (objectIndex (rebuildObjectIndex w)) = rebuilt_lookup w scene k.
Proof.
  intros Hs. rewrite (objectIndex_rebuildObjectIndex w scene Hs).
  rewrite map_get_fold_index_entry, map_get_fold_index_named.
  unfold rebuilt_lookup, world_entries, iso_entries.
  destruct (find _ (rev _)); [reflexivity|].
  destruct (find _ (rev _)); reflexivity.
Qed.

Lemma rebuildObjectIndex_scene w :
  getThreeScene (rebuildObjectIndex w) = getThreeScene w
  /\ heap (rebuildObjectIndex w) = heap w.
Proof.
  assert (H : iso (rebuildObjectIndex w) = iso w /\ heap (rebuildObjectIndex w) = heap w).
  { unfold rebuildObjectIndex.
    destruct (getThreeScene (with_objectIndex [] w)); split; reflexivity. }
  destruct H as [Hi Hh]. split; [|exact Hh].
  unfold getThreeScene. rewrite Hi. reflexivity.
Qed.

(** A string key is SameValueZero-equal to itself only. *)
Lemma same_value_zero_string s k :
  same_value_zero (VStr s) k = true <-> k = VStr s.
Proof.
  split.
  - destruct k; simpl; try discriminate. unfold same_value_zero. simpl.
    intros H. apply String.eqb_eq in H. congruence.
  - intros ->. unfold same_value_zero. simpl. apply String.eqb_refl.
Qed.

End Index.

(** C7, as the code has it.  [resolveObject] follows the chain the
    specification gives whenever the IsoCard instance exposes a scene: the
    cached entry; else, for a string key, the scene object of that name or
    of the name without a leading ["server_layer"], cached under the key as
    given; else the index is rebuilt and the key looked up in it.  Without a
    scene it returns the cached entry, or nothing, and leaves the index as
    it is.  The object it returns is the chain's in every case.  The rebuilt
    index is made anew from the scene graph and the IsoCard object list: a
    key finds the object ([threeObj], else [obj], else the entry itself) of
    the last entry that has it as its id or config name, and when no entry
    has, the last object in traversal order that bears it as its name. *)
Theorem resolveObject_follows_chain :
  forall (host : Host) (idOrName : value) (w : World),
    fst (resolveObject idOrName w) = fst (resolveObject_chain idOrName w)
    /\ (getThreeScene w <> None ->
        resolveObject idOrName w = resolveObject_chain idOrName w)
    /\ (getThreeScene w = None ->
        resolveObject idOrName w = (map_get idOrName (objectIndex w), w))
    /\ (forall scene,
          getThreeScene w = Some scene ->
          forall k,
            map_get k (objectIndex (rebuildObjectIndex w))
            = match find (claims k) (rev (world_entries w)) with
              | Some e =>
                  Some match Iso.threeObj e with
                       | Some r => r
                       | None =>
                           match Iso.obj e with
                           | Some r => r
                           | None => Iso.self e
                           end
                       end
              | None => find (named_as (heap w) k) (rev (THREE.traverse scene))
              end).
Proof.
  intros host k w.
  assert (Hscene : forall scene, getThreeScene w = Some scene ->
                     resolveObject k w = resolveObject_chain k w).
  { intros scene Hs. unfold resolveObject, resolveObject_chain. rewrite Hs.
    destruct (map_get k (objectIndex w)); [reflexivity|].
    destruct k; try reflexivity.
    unfold find_by_names. simpl.
    destruct (THREE.getObjectByName (heap w) scene s); [reflexivity|].
    destruct (THREE.getObjectByName (heap w) scene (strip_prefix "server_layer" s));
      reflexivity. }
  assert (Hnone : getThreeScene w = None ->
                  resolveObject k w = (map_get k (objectIndex w), w)).
  { intros Hs. unfold resolveObject. rewrite Hs.
    destruct (map_get k (objectIndex w)); reflexivity. }
  split; [|split; [|split; [exact Hnone|]]].
  - destruct (getThreeScene w) as [scene|] eqn:Hs.
    + rewrite (Hscene scene eq_refl). reflexivity.
    + rewrite (Hnone eq_refl). unfold resolveObject_chain. rewrite Hs.
      destruct (map_get k (objectIndex w)); [reflexivity|].
      unfold rebuildObjectIndex.
      change (getThreeScene (with_objectIndex [] w)) with (getThreeScene w).
      rewrite Hs. destruct k; reflexivity.
  - intros Hs. destruct (getThreeScene w) as [scene|]; [|contradiction].
    apply (Hscene scene eq_refl).
  - intros scene Hs k'.
    rewrite (map_get_rebuildObjectIndex w scene k' Hs). reflexivity.
Qed.

(** The key ["server_layerball"] is not in the index and names no object;
    without the prefix it names the group ["ball"], which is returned and
    cached under the key as given. *)
Lemma resolveObject_follows_chain_witness :
  resolveObject (host := Demo.toy_host) (VStr "server_layerball") Demo.demo_world
  = (Some 1,
     with_objectIndex [(VStr "server_layerball", 1)] Demo.demo_world).
Proof.
  destruct (resolveObject_follows_chain Demo.toy_host (VStr "server_layerball")
              Demo.demo_world) as (_ & H & _).
  rewrite H; [reflexivity | discriminate].
Defined.

(** C7 as stated fails when IsoCard exposes no scene.  The index holds the
    ball from an earlier resolution and the IsoCard instance has no scene.
    A key the index does not have is resolved: the code returns nothing
    before it reaches [rebuildObjectIndex] and the index keeps the ball,
    which the next resolution finds; the chain as stated rebuilds the index
    at this point, which without a scene only empties it, and the ball
    would no longer be found. *)
Lemma resolveObject_follows_chain_counterexample :
  let sceneless :=
    {| Iso.scene := None; Iso.rootScene := None; Iso.threeScene := None;
       Iso.objects := Some [Demo.demo_entry] |} in
  let w := with_iso (Some sceneless)
             (with_objectIndex [(VStr "ball", 1)] Demo.demo_world) in
  let after := snd (resolveObject (host := Demo.toy_host) (VStr "ghost") w) in
  let stated := snd (resolveObject_chain (host := Demo.toy_host) (VStr "ghost") w) in
  resolveObject (host := Demo.toy_host) (VStr "ghost") w = (None, w)
  /\ objectIndex after = [(VStr "ball", 1)]
  /\ objectIndex stated = []
  /\ fst (resolveObject (host := Demo.toy_host) (VStr "ball") after) = Some 1
  /\ fst (resolveObject_chain (host := Demo.toy_host) (VStr "ball") stated) = None.
Proof. repeat split. Defined.


(** X4. Resolving a name that several scene objects bear, and no IsoCard
    entry claims, depends on the state of the index: on a miss
    [resolveObject] returns the first such object in traversal order (from
    [getObjectByName]); after [rebuildObjectIndex] it returns the last. *)
Theorem resolveObject_first_or_last :
  forall (host : Host) (w : World) (scene : THREE.Scene) (n : string),
    getThreeScene w = Some scene ->
    n <> "" ->
    (forall e, In e (world_entries w) -> claims (VStr n) e = false) ->
    let bears := fun r => String.eqb (THREE.name (heap w r)) n in
    (forall r, map_get (VStr n) (objectIndex w) = None ->
               find bears (THREE.traverse scene) = Some r ->
               fst (resolveObject (VStr n) w) = Some r)
    /\ (forall r, find bears (rev (THREE.traverse scene)) = Some r ->
                  fst (resolveObject (VStr n) (rebuildObjectIndex w)) = Some r).
Proof.
  intros host w scene n Hs Hn Hfree bears. split.
  - intros r Hmiss Hfirst. unfold resolveObject. rewrite Hmiss, Hs.
    unfold find_by_names. simpl. unfold THREE.getObjectByName.
    fold bears. rewrite Hfirst. reflexivity.
  - intros r Hlast.
    assert (Hidx : map_get (VStr n) (objectIndex (rebuildObjectIndex w)) = Some r).
    { rewrite (map_get_rebuildObjectIndex w scene _ Hs). unfold rebuilt_lookup.
      destruct (find (claims (VStr n)) (rev (world_entries w))) as [e|] eqn:Ee.
      - apply find_some in Ee as [Hin Hc]. apply in_rev in Hin.
        rewrite (Hfree e Hin) in Hc. discriminate.
      - rewrite <- Hlast. apply find_agree.
        intros x _. unfold named_as, bears.
        destruct (String.eqb_spec (THREE.name (heap w x)) n) as [->|Hne].
        + destruct (String.eqb_spec n ""); [contradiction|]. simpl.
          apply same_value_zero_string. reflexivity.
        + destruct (negb _); [|reflexivity]. simpl.
          destruct (same_value_zero _ _) eqn:E; [|reflexivity].
          apply same_value_zero_string in E. congruence. }
    unfold resolveObject. rewrite Hidx. reflexivity.
Qed.

(** The demo scene has a group and a mesh both named ["ball"]; with an
    IsoCard object list that claims no name, a miss finds the group and the
    rebuilt index holds the mesh. *)
Lemma resolveObject_first_or_last_witness :
  let w :=
    with_iso (Some {| Iso.scene := Some Demo.demo_scene; Iso.rootScene := None;
                      Iso.threeScene := None; Iso.objects := None |})
      Demo.demo_world in
  fst (resolveObject (host := Demo.toy_host) (VStr "ball") w) = Some 1
  /\ fst (resolveObject (host := Demo.toy_host) (VStr "ball")
            (rebuildObjectIndex (host := Demo.toy_host) w))
     = Some 2.
Proof.
  intros w.
  destruct (resolveObject_first_or_last Demo.toy_host w Demo.demo_scene "ball" eq_refl)
    as [Hfirst Hlast].
  - discriminate.
  - intros e [].
  - split; [apply Hfirst; reflexivity | apply Hlast; reflexivity].
Defined.

(** X5. A resolved key is served from the index afterwards: when
    [resolveObject] has returned an object for a key, resolving the same
    key again returns the same object and changes nothing, neither the index
    nor the log. *)
Theorem resolveObject_hit_is_cached :
  forall (host : Host) (idOrName : value) (w w' : World) (r : THREE.ref),
    resolveObject idOrName w = (Some r, w') ->
    map_get idOrName (objectIndex w') = Some r
    /\ resolveObject idOrName w' = (Some r, w').
Proof.
  intros host k w w' r H.
  assert (Hidx : map_get k (objectIndex w') = Some r).
  { unfold resolveObject in H.
    destruct (map_get k (objectIndex w)) as [cached|] eqn:Ec.
    { injection H as -> <-. exact Ec. }
    destruct (getThreeScene w) as [scene|]; [|discriminate].
    destruct k as [| |b|n|s|items|fields];
      try (injection H as H <-; exact H).
    destruct (find_by_names (heap w) scene [s; strip_prefix "server_layer" s])
      as [found|].
    - injection H as -> <-. cbn. apply map_get_set_same. discriminate.
    - injection H as H <-. exact H. }
  split; [exact Hidx|].
  unfold resolveObject. rewrite Hidx. reflexivity.
Qed.

(** The key ["server_layerball"] is resolved through the scene the first
    time and through the index the second. *)
Lemma resolveObject_hit_is_cached_witness :
  let w' := with_objectIndex [(VStr "server_layerball", 1)] Demo.demo_world in
  map_get (VStr "server_layerball") (objectIndex w') = Some 1
  /\ resolveObject (host := Demo.toy_host) (VStr "server_layerball") w' = (Some 1, w').
Proof.
  intros w'.
  apply (resolveObject_hit_is_cached Demo.toy_host (VStr "server_layerball")
           Demo.demo_world w' 1).
  reflexivity.
Defined.

(** *** What the handlers leave of the state *)

Section Settings.

Context {host : Host}.

Lemma settings_log m w : settings (log m w) = settings w.
Proof. reflexivity. Qed.

Lemma settings_state w w' : state w' = state w -> settings w' = settings w.
Proof. unfold settings. intros ->. reflexivity. Qed.

Lemma settings_rebuildObjectIndex w : settings (rebuildObjectIndex w) = settings w.
Proof.
  unfold rebuildObjectIndex.
  destruct (getThreeScene (with_objectIndex [] w)); reflexivity.
Qed.

Lemma settings_resolveObject k w : settings (snd (resolveObject k w)) = settings w.
Proof.
  unfold resolveObject.
  destruct (map_get k (objectIndex w)); [reflexivity|].
  destruct (getThreeScene w); [|reflexivity].
  match goal with |- context [match ?f with Some _ => _ | None => _ end] => destruct f end;
    [reflexivity | apply settings_rebuildObjectIndex].
Qed.

Lemma settings_flush_step hint acc entry :
  match flush_step hint acc entry with
  | Returned acc' => settings (fst acc') = settings (fst acc)
  | Thrown _ w' => settings w' = settings (fst acc)
  end.
Proof.
  destruct acc as [w applied], entry as [key u]. simpl.
  pose proof (settings_resolveObject key w) as Hr.
  destruct (resolveObject key w) as [[o|] w1]; simpl in *; [|exact Hr].
  destruct (layer_mismatch _ _); simpl; [exact Hr|].
  pose proof (state_applyOneUpdateTo o u w1) as Ha.
  destruct (applyOneUpdateTo o u w1); simpl;
    rewrite (settings_state _ _ Ha); exact Hr.
Qed.

Lemma settings_flush_loop hint entries : forall acc,
  match flush_loop hint entries acc with
  | Returned acc' => settings (fst acc') = settings (fst acc)
  | Thrown _ w' => settings w' = settings (fst acc)
  end.
Proof.
  induction entries as [|entry rest IH]; intros acc; simpl; [reflexivity|].
  pose proof (settings_flush_step hint acc entry) as Hs.
  destruct (flush_step hint acc entry) as [acc'|e w']; simpl; [|exact Hs].
  specialize (IH acc').
  destruct (flush_loop hint rest acc'); congruence.
Qed.

Lemma settings_flushPending w : settings (world_after (flushPending w)) = settings w.
Proof.
  unfold flushPending.
  destruct (iso w); [|reflexivity].
  destruct (pending w) as [|p ps]; [reflexivity|].
  pose proof (settings_flush_loop (State.layerId (state w)) (p :: ps) (w, 0)) as Hl.
  destruct (flush_loop _ _ _) as [[w1 applied]|e w1]; simpl in *; [|exact Hl].
  destruct (Nat.eqb applied 0); exact Hl.
Qed.

Lemma settings_animationFrame w : settings (animationFrame w) = settings w.
Proof.
  unfold animationFrame.
  apply (fold_left_invariant (fun a => settings a = settings w)); [|reflexivity].
  intros a _ Ha. unfold frame_callback. rewrite settings_flushPending. exact Ha.
Qed.

Lemma settings_removeObject id w : settings (removeObject id w) = settings w.
Proof.
  unfold removeObject. destruct (iso w); [|reflexivity].
  destruct (IsoCard_removeObject _ _ _). reflexivity.
Qed.

Lemma settings_clearLayer layerId w : settings (clearLayer layerId w) = settings w.
Proof.
  unfold clearLayer.
  destruct (iso w) as [c|]; [|reflexivity].
  destruct (Iso.objects c) as [entries|]; [|reflexivity].
  assert (H : settings (fold_left (fun w e => removeObject (Iso.id e) w)
                          (filter (in_layer layerId) entries) w) = settings w).
  { apply (fold_left_invariant (fun a => settings a = settings w)); [|reflexivity].
    intros a e Ha. rewrite settings_removeObject. exact Ha. }
  destruct (filter (in_layer layerId) entries); exact H.
Qed.

Lemma settings_tag_layers layerId entries : forall w,
  settings (fold_left (tag_layer layerId) entries w) = settings w.
Proof.
  intros w. apply (fold_left_invariant (fun a => settings a = settings w)); [|reflexivity].
  intros a e Ha. unfold tag_layer. destruct (Iso.threeObj e); exact Ha.
Qed.

Lemma settings_handleSceneState_try d w :
  match handleSceneState_try d w with
  | Returned w' | Thrown _ w' => settings w' = settings w
  end.
Proof.
  unfold handleSceneState_try.
  destruct (stripPhysicsDeep d); [reflexivity|].
  pose proof (settings_clearLayer (State.layerId (state w)) w) as Hc.
  destruct (iso (clearLayer _ w)); [|exact Hc].
  destruct (IsoCard_addObjectsToLayer _ _ _ _) as [[c' h'] [e|]]; [exact Hc|].
  rewrite settings_log.
  match goal with
  | |- settings (call _ (rebuildObjectIndex ?b)) = _ =>
      change (settings (rebuildObjectIndex b) = settings w)
  end.
  rewrite settings_rebuildObjectIndex.
  destruct (Iso.objects c'); [rewrite settings_tag_layers|]; exact Hc.
Qed.

Lemma settings_handleSceneState d w : settings (handleSceneState d w) = settings w.
Proof.
  unfold handleSceneState.
  destruct (iso w); [|reflexivity].
  pose proof (settings_handleSceneState_try d w) as H.
  destruct (handleSceneState_try d w); exact H.
Qed.

Lemma settings_enqueuePhysics o d w : settings (enqueuePhysics o d w) = settings w.
Proof.
  unfold enqueuePhysics. destruct (collect o d); [|reflexivity].
  cbn. destruct (rafHandle w); reflexivity.
Qed.

Lemma settings_onMessage data w : settings (onMessage data w) = settings w.
Proof.
  destruct (onMessage_cases data w)
    as [->|[[m ->]|[(m & d & ->)|[(m & o & d & ->)|(m & m' & ->)]]]];
    rewrite ?settings_handleSceneState, ?settings_enqueuePhysics; reflexivity.
Qed.

End Settings.

(** X6. Of the component's state, messages and frames touch the log only:
    whatever a socket delivers, whatever scene is ingested and whatever a
    frame flushes, the viewing layer, the server URL, the JSON text, the
    socket status and the ready flag are as they were. *)
Theorem handlers_keep_settings :
  forall (host : Host) (w : World),
    (forall data, settings (onMessage data w) = settings w)
    /\ (forall sceneData, settings (handleSceneState sceneData w) = settings w)
    /\ (forall objects defaultLayerId,
          settings (enqueuePhysics objects defaultLayerId w) = settings w)
    /\ settings (animationFrame w) = settings w.
Proof.
  intros host w. repeat apply conj.
  - intros data. apply settings_onMessage.
  - intros d. apply settings_handleSceneState.
  - intros o d. apply settings_enqueuePhysics.
  - apply settings_animationFrame.
Qed.

(** *** The buffer's keys *)

Lemma has_own_of_prop k fs : nullish (prop k fs) = false -> has_own k fs = true.
Proof.
  unfold prop, has_own. destruct (field_get k fs); [reflexivity | discriminate].
Qed.

(** [m.set(k, v)] either appends or replaces the value of the one entry
    whose key is [k]. *)
Lemma map_set_split {V} (k : value) (v : V) (m : jsmap V) :
  (map_get k m = None /\ map_set k v m = m ++ [(k, v)])
  \/ (exists l1 k' old l2,
        m = l1 ++ (k', old) :: l2
        /\ same_value_zero k' k = true
        /\ map_get k m = Some old
        /\ map_set k v m = l1 ++ (k', v) :: l2).
Proof.
  induction m as [|[k0 v0] m IH]; simpl.
  - left. split; reflexivity.
  - destruct (same_value_zero k0 k) eqn:E.
    + right. exists [], k0, v0, m. repeat split. exact E.
    + destruct IH as [[Hn Hs]|(l1 & k' & old & l2 & Hm & Hk & Hg & Hs)].
      * left. rewrite Hs. split; [exact Hn | reflexivity].
      * right. exists ((k0, v0) :: l1), k', old, l2.
        rewrite Hs. subst m. repeat split; assumption.
Qed.

(** The key of [{ ...prev, ...u }]: that of [u], unless [u] has no [id] of
    its own and [prev] has one, which then stays. *)
Lemma update_key_overlay prev u :
  nullish (update_key u) = false ->
  update_key (spread (spread [] (VObj prev)) (VObj u)) = update_key u
  \/ (nullish (prop "id" u) = true
      /\ nullish (prop "id" prev) = false
      /\ update_key (spread (spread [] (VObj prev)) (VObj u)) = prop "id" prev).
Proof.
  unfold update_key, coalesce. rewrite !prop_overlay. intros Hk.
  destruct (nullish (prop "id" u)) eqn:Ei.
  - rewrite (has_own_of_prop "name" u Hk).
    destruct (has_own "id" u).
    + rewrite Ei. left. reflexivity.
    + destruct (nullish (prop "id" prev)) eqn:Ep.
      * left. reflexivity.
      * right. repeat split.
  - rewrite (has_own_of_prop "id" u Ei), Ei. left. reflexivity.
Qed.

Lemma same_value_zero_trans a b c :
  same_value_zero a b = true -> same_value_zero b c = true ->
  same_value_zero a c = true.
Proof.
  rewrite !same_value_zero_spec. intros (x & Ha & Hb) (y & Hb' & Hc).
  exists x. split; congruence.
Qed.

Lemma same_value_zero_left a b :
  same_value_zero a b = true -> same_value_zero a a = true.
Proof.
  rewrite !same_value_zero_spec. intros (x & Ha & _). exists x. split; exact Ha.
Qed.

Lemma keyed_merge_update p u :
  Forall keyed p -> nullish (update_key u) = false ->
  Forall keyed (merge_update p u).
Proof.
  intros Hp Hk. unfold merge_update. cbv zeta. fold (update_key u).
  set (key := update_key u) in *.
  match goal with
  | |- Forall keyed (map_set ?k ?v ?m) =>
      destruct (map_set_split k v m)
        as [[Hn Hs]|(l1 & k' & old & l2 & Hm & Hsame & Hg & Hs)];
      rewrite Hs; clear Hs
  end.
  - rewrite Hn. apply Forall_app. split; [exact Hp|].
    constructor; [|constructor]. split; [exact Hk|]. simpl.
    destruct (update_key_overlay [("id", prop "id" u); ("name", prop "name" u)] u Hk)
      as [->|(Hi & Hpi & _)]; [left; reflexivity|].
    change (prop "id" [("id", prop "id" u); ("name", prop "name" u)])
      with (prop "id" u) in Hpi.
    congruence.
  - rewrite Hg. subst p.
    apply Forall_app in Hp as [H1 H2]. inversion H2 as [|? ? [Hnn Hold] H3]; subst.
    apply Forall_app. split; [exact H1|]. constructor; [|exact H3].
    split; [exact Hnn|]. right. simpl in *.
    destruct (update_key_overlay old u Hk) as [->|(Hi & Hpi & ->)]; [exact Hsame|].
    assert (Hko : update_key old = prop "id" old).
    { unfold update_key, coalesce. rewrite Hpi. reflexivity. }
    rewrite <- Hko.
    destruct Hold as [<-|Hold]; [|exact Hold].
    eapply same_value_zero_left, Hsame.
Qed.

Section Buffer.

Context {host : Host}.

(** Every update [enqueuePhysics] collects from a batch has an id or a
    name. *)
Lemma collect_keyed objects d arr :
  collect objects d = Some arr ->
  Forall (fun u => nullish (update_key u) = false) arr.
Proof.
  destruct objects as [| |b|n|s|items|fs]; simpl; try discriminate.
  - intros H. injection H as <-.
    induction items as [|it items IH]; simpl; [constructor|].
    apply Forall_app. split; [|exact IH].
    destruct (negb (truthy it)); [constructor|].
    destruct (nullish (js_get it "id" ?? js_get it "name")) eqn:E; [constructor|].
    constructor; [|constructor].
    destruct it as [| |b|n|s|vs|fs]; try (cbv in E; discriminate E).
    unfold update_key. rewrite !prop_array_entry. exact E.
  - intros H. injection H as <-.
    apply Forall_forall. intros u Hin.
    apply in_map_iff in Hin as (key & <- & _).
    unfold update_key. rewrite !prop_record_entry. simpl String.eqb. cbv iota.
    unfold coalesce.
    destruct (nullish (js_get (prop key fs) "id")) eqn:Ei; [|exact Ei].
    destruct (nullish (js_get (prop key fs) "name")) eqn:En; [reflexivity | exact En].
Qed.

Lemma keyed_enqueuePhysics objects d w :
  Forall keyed (pending w) -> Forall keyed (pending (enqueuePhysics objects d w)).
Proof.
  intros H. destruct (collect objects d) as [arr|] eqn:E.
  - rewrite (pending_enqueuePhysics objects d w arr E).
    pose proof (collect_keyed objects d arr E) as Hk.
    clear E. revert H. generalize (pending w).
    induction Hk as [|u arr Hu _ IH]; intros p Hp; simpl; [exact Hp|].
    apply IH, keyed_merge_update; assumption.
  - unfold enqueuePhysics. rewrite E. exact H.
Qed.

Lemma pending_rebuildObjectIndex w : pending (rebuildObjectIndex w) = pending w.
Proof. apply same_frame_rebuildObjectIndex. Qed.

Lemma pending_removeObject id w : pending (removeObject id w) = pending w.
Proof.
  unfold removeObject. destruct (iso w); [|reflexivity].
  destruct (IsoCard_removeObject _ _ _). reflexivity.
Qed.

Lemma pending_clearLayer layerId w : pending (clearLayer layerId w) = pending w.
Proof.
  unfold clearLayer.
  destruct (iso w) as [c|]; [|reflexivity].
  destruct (Iso.objects c) as [entries|]; [|reflexivity].
  assert (H : pending (fold_left (fun w e => removeObject (Iso.id e) w)
                         (filter (in_layer layerId) entries) w) = pending w).
  { apply (fold_left_invariant (fun a => pending a = pending w)); [|reflexivity].
    intros a e Ha. rewrite pending_removeObject. exact Ha. }
  destruct (filter (in_layer layerId) entries); exact H.
Qed.

Lemma pending_tag_layers layerId entries : forall w,
  pending (fold_left (tag_layer layerId) entries w) = pending w.
Proof.
  intros w. apply (fold_left_invariant (fun a => pending a = pending w)); [|reflexivity].
  intros a e Ha. unfold tag_layer. destruct (Iso.threeObj e); exact Ha.
Qed.

(** Scene ingestion leaves the update buffer alone. *)
Lemma pending_handleSceneState d w : pending (handleSceneState d w) = pending w.
Proof.
  unfold handleSceneState.
  destruct (iso w); [|reflexivity].
  assert (H : match handleSceneState_try d w with
              | Returned w' | Thrown _ w' => pending w' = pending w
              end).
  { unfold handleSceneState_try.
    destruct (stripPhysicsDeep d); [reflexivity|].
    pose proof (pending_clearLayer (State.layerId (state w)) w) as Hc.
    destruct (iso (clearLayer _ w)); [|exact Hc].
    destruct (IsoCard_addObjectsToLayer _ _ _ _) as [[c' h'] [e|]]; [exact Hc|].
    match goal with
    | |- pending (log _ (call _ (rebuildObjectIndex ?b))) = _ =>
        change (pending (rebuildObjectIndex b) = pending w)
    end.
    rewrite pending_rebuildObjectIndex.
    destruct (Iso.objects c'); [rewrite pending_tag_layers|]; exact Hc. }
  destruct (handleSceneState_try d w); exact H.
Qed.

(** A flush leaves the buffer whole or empties it. *)
Lemma pending_flushPending w :
  pending (world_after (flushPending w)) = pending w
  \/ pending (world_after (flushPending w)) = [].
Proof.
  pose proof (flushPending_frame w) as Hf.
  destruct (flushPending w) as [w'|e w'] eqn:E; simpl.
  - unfold flushPending in E.
    destruct (iso w); [|injection E as <-; left; reflexivity].
    destruct (pending w) as [|p ps] eqn:Ep; [injection E as <-; left; exact Ep|].
    destruct (flush_loop _ _ _) as [[w1 applied]|e w1]; simpl in E; [|discriminate].
    injection E as <-. right. destruct (Nat.eqb applied 0); reflexivity.
  - left. apply Hf.
Qed.

Lemma keyed_animationFrame w :
  Forall keyed (pending w) -> Forall keyed (pending (animationFrame w)).
Proof.
  intros H. unfold animationFrame.
  apply (fold_left_invariant (fun a => Forall keyed (pending a))); [|exact H].
  intros a _ Ha. unfold frame_callback.
  destruct (pending_flushPending (with_rafHandle None a)) as [->| ->];
    [exact Ha | constructor].
Qed.

Lemma keyed_onMessage data w :
  Forall keyed (pending w) -> Forall keyed (pending (onMessage data w)).
Proof.
  intros H.
  destruct (onMessage_cases data w)
    as [->|[[m ->]|[(m & d & ->)|[(m & o & d & ->)|(m & m' & ->)]]]];
    try exact H.
  - rewrite pending_handleSceneState. exact H.
  - apply keyed_enqueuePhysics. exact H.
Qed.

End Buffer.

(** X7. Every buffered update sits under its own key.  If that holds of the
    buffer to begin with (as of the empty one), then after any sequence of
    messages, [enqueuePhysics] calls, frames and layer edits every entry of
    [pending] has a key that is neither [null] nor [undefined] and is the
    [id ?? name] of the update stored under it (up to the map's key
    equality, under which the first key used for an update stays). *)
Theorem pending_keyed_by_id_or_name :
  forall (host : Host) (w0 : World) (events : list event),
    Forall keyed (pending w0) ->
    Forall keyed (pending (run events w0)).
Proof.
  intros host w0 events H0. unfold run.
  apply (fold_left_invariant (fun w => Forall keyed (pending w))); [|exact H0].
  intros w e Hw. destruct e; simpl.
  - apply keyed_onMessage, Hw.
  - apply keyed_enqueuePhysics, Hw.
  - apply keyed_animationFrame, Hw.
  - exact Hw.
Qed.

(** Two batches for the ball, one by name with an [id: null], one in
    record form: both land under the key ["ball"]. *)
Lemma pending_keyed_by_id_or_name_witness :
  let by_name := VArr [VObj [("id", VNull); ("name", VStr "ball");
                             ("pos", VArr [VNum 1; VNum 2; VNum 3]%float)]] in
  let record := VObj [("ball", VObj [("rot", VArr [VNum 0; VNum 0; VNum 0]%float)])] in
  let w := run (host := Demo.toy_host)
             [Enqueue by_name VUndef; Enqueue record (VStr "server_layer")]
             Demo.demo_world in
  map fst (pending w) = [VStr "ball"] /\ Forall keyed (pending w).
Proof.
  intros by_name record w. split; [reflexivity|].
  apply (pending_keyed_by_id_or_name Demo.toy_host Demo.demo_world). constructor.
Defined.

(** *** From a message to the scene *)

Section EndToEnd.

Context {host : Host}.

(** The parts of the world [resolveObject] neither reads nor writes. *)
Lemma resolveObject_buffer k p n w :
  resolveObject k (with_raf_next n (with_pending p w))
  = (fst (resolveObject k w), with_raf_next n (with_pending p (snd (resolveObject k w)))).
Proof.
  unfold resolveObject. cbn.
  destruct (map_get k (objectIndex w)); [reflexivity|].
  change (getThreeScene (with_raf_next n (with_pending p w))) with (getThreeScene w).
  destruct (getThreeScene w) as [scene|] eqn:Hs; [|reflexivity].
  match goal with |- context [match ?f with Some _ => _ | None => _ end] => destruct f end;
    [reflexivity|].
  unfold rebuildObjectIndex.
  change (getThreeScene (with_objectIndex [] (with_raf_next n (with_pending p w))))
    with (getThreeScene w).
  change (getThreeScene (with_objectIndex [] w)) with (getThreeScene w).
  rewrite Hs. reflexivity.
Qed.

Lemma prop_id_name f a b :
  f <> "id" -> f <> "name" -> prop f [("id", a); ("name", b)] = VUndef.
Proof.
  intros Hid Hname. unfold prop. cbn [field_get].
  destruct (String.eqb_spec "name" f); [congruence|].
  destruct (String.eqb_spec "id" f); [congruence|]. reflexivity.
Qed.

(** A first update for a key is buffered with the fields it came with. *)
Lemma prop_first_buffered f a b fs d :
  f <> "id" -> f <> "name" ->
  prop f (spread (spread [] (VObj [("id", a); ("name", b)]))
            (VObj (array_entry (VObj fs) d)))
  = if String.eqb "layerId" f then prop "layerId" fs ?? d else prop f fs.
Proof.
  intros Hid Hname. rewrite prop_overlay, has_own_array_entry, prop_array_entry.
  destruct (String.eqb "layerId" f); [reflexivity|].
  rewrite orb_false_l.
  destruct (has_own f fs) eqn:E; [reflexivity|].
  rewrite prop_id_name by assumption.
  unfold prop, has_own in *.
  destruct (field_get f fs); [discriminate | reflexivity].
Qed.

(** With an IsoCard instance in place, an applied update is announced. *)
Lemma applyOneUpdateTo_announces t u w w' :
  iso w <> None ->
  applyOneUpdateTo t u w = Returned w' ->
  exists p q,
    iso_calls w'
    = iso_calls w ++ [Iso.setTransform (transform_target (heap w) t) p q;
                      Iso.onObjectTransformChanged (transform_target (heap w) t)].
Proof.
  intros Hi H. rewrite applyOneUpdateTo_unfold in H. cbv zeta in H.
  set (o := transform_target (heap w) t) in *.
  pose proof (iso_calls_apply_orientation o u (apply_position o u w)) as Hc.
  pose proof (same_frame_apply_orientation o u (apply_position o u w)) as Hf.
  destruct (apply_orientation o u (apply_position o u w)) as [w1|e w1]; [|discriminate].
  injection H as <-.
  assert (Hi1 : iso w1 <> None).
  { destruct Hf as (_ & _ & _ & _ & Hiso & _). rewrite Hiso.
    unfold apply_position. case_guards; exact Hi. }
  unfold finish_update, notify_transform. cbn.
  destruct (iso w1); [|contradiction]. cbn.
  eexists _, _. unfold call. cbn.
  rewrite Hc, iso_calls_apply_position, <- app_assoc. reflexivity.
Qed.

End EndToEnd.

(** X8. From a message to the scene.  The buffer is empty and no frame is
    requested; a batch arrives with one update, whose key ([id], else
    [name]) resolves to an object, whose layer ([layerId], else the batch's
    default, else the viewing layer) does not mismatch the object's, and
    whose orientation fields are made of values that convert to primitives,
    as the numbers [OneUpdate] declares do ([rot] and [eulerDeg] being
    arrays of such, or absent).  Then the next animation frame puts the
    object moved (the same-named group above the resolved object, else the
    object itself) where the update says: at [position] (keeping its [z]
    when [position] has none), else at [pos], else where it was; the move is
    announced to IsoCard, the buffer is empty again and no frame is
    requested. *)
Theorem update_applied_at_next_frame :
  forall (host : Host) (w : World) (fs : obj) (d : value) (r : THREE.ref),
    let key := prop "id" fs ?? prop "name" fs in
    let layer := prop "layerId" fs ?? d ?? VStr (State.layerId (state w)) in
    iso w <> None ->
    pending w = [] ->
    rafHandle w = None ->
    raf_requests w = [] ->
    nullish key = false ->
    fst (resolveObject key w) = Some r ->
    layer_mismatch layer (object_layer (heap w) r) = false ->
    tolerated fs = true ->
    let o := transform_target (heap w) r in
    let w' := animationFrame (enqueuePhysics (VArr [VObj fs]) d w) in
    THREE.position (heap w' o)
    = (if truthy (prop "position" fs) then
         {| THREE.v_x := js_get (prop "position" fs) "x";
            THREE.v_y := js_get (prop "position" fs) "y";
            THREE.v_z := match js_get (prop "position" fs) "z" with
                         | VUndef => THREE.v_z (THREE.position (heap w o))
                         | _ => js_get (prop "position" fs) "z"
                         end |}
       else if truthy (prop "pos" fs) then
         {| THREE.v_x := js_index (prop "pos" fs) 0;
            THREE.v_y := js_index (prop "pos" fs) 1;
            THREE.v_z := js_index (prop "pos" fs) 2 |}
       else THREE.position (heap w o))
    /\ (exists p q, In (Iso.setTransform o p q) (iso_calls w'))
    /\ pending w' = []
    /\ rafHandle w' = None
    /\ raf_requests w' = [].
Proof.
  intros host w fs d r key layer Hi Hp Hh Hq Hkey Hr Hl Ht o w'.
  set (u := array_entry (VObj fs) d).
  set (merged := spread (spread [] (VObj [("id", prop "id" u); ("name", prop "name" u)]))
                   (VObj u)).
  assert (Hprop : forall f, f <> "id" -> f <> "name" -> f <> "layerId" ->
                            prop f merged = prop f fs).
  { intros f H1 H2 H3. unfold merged, u. rewrite prop_first_buffered by assumption.
    destruct (String.eqb_spec "layerId" f); [congruence | reflexivity]. }
  assert (Hlayer : prop "layerId" merged = prop "layerId" fs ?? d).
  { unfold merged, u. rewrite prop_first_buffered by discriminate. reflexivity. }
  (* the world the frame callback starts from *)
  assert (Hframe : w' = world_after
                          (flushPending
                             (with_raf_next (S (raf_next w))
                                (with_pending [(key, merged)] w)))).
  { unfold w', animationFrame, enqueuePhysics.
    assert (Hc : collect (VArr [VObj fs]) d = Some [u]).
    { simpl. fold key. rewrite Hkey. reflexivity. }
    rewrite Hc. cbn. rewrite Hh, Hp, Hq. cbn. unfold frame_callback.
    f_equal. f_equal. unfold merge_update. cbn.
    replace (prop "id" u ?? prop "name" u) with key
      by (unfold u; rewrite !prop_array_entry; reflexivity).
    fold merged.
    destruct w; cbn in *; subst; reflexivity. }
  set (wq := with_raf_next (S (raf_next w)) (with_pending [(key, merged)] w)) in *.
  destruct (resolveObject key w) as [found w1] eqn:Er. simpl in Hr. subst found.
  pose proof (resolveObject_heap key w) as [Hheap Hcalls].
  pose proof (same_frame_resolveObject key w) as (_ & Hr2 & Hr3 & _ & Hr5 & Hr6).
  rewrite Er in Hheap, Hcalls, Hr2, Hr3, Hr5, Hr6. simpl in *.
  set (w1q := with_raf_next (S (raf_next w)) (with_pending [(key, merged)] w1)).
  assert (Hstep : flushPending wq
                  = let* w2 := applyOneUpdateTo r merged w1q in
                    Returned (log "Applied 1 transform"
                                (call Iso.renderScene (with_pending [] w2)))).
  { unfold flushPending.
    destruct (iso wq) eqn:Eiso; [|exfalso; apply Hi; exact Eiso].
    change (pending wq) with [(key, merged)]. cbv zeta.
    unfold flush_loop, flush_step.
    unfold wq at 1. rewrite resolveObject_buffer, Er. simpl fst. simpl snd.
    fold w1q.
    assert (Hm : layer_mismatch (effective_layer merged (State.layerId (state wq)))
                   (object_layer (heap w1q) r) = false).
    { unfold effective_layer. rewrite Hlayer.
      change (heap w1q) with (heap w1). rewrite Hheap. exact Hl. }
    cbv iota. rewrite Hm.
    destruct (applyOneUpdateTo r merged w1q); reflexivity. }
  assert (Htol : tolerated merged = true).
  { unfold tolerated. rewrite !Hprop by discriminate. exact Ht. }
  destruct (applyOneUpdateTo_returns r merged w1q Htol) as [w2 Ha].
  pose proof (applyOneUpdateTo_position r merged w1q) as Hpos.
  pose proof (same_frame_applyOneUpdateTo r merged w1q) as Hsf.
  assert (Hiq : iso w1q <> None) by (change (iso w1q) with (iso w1); congruence).
  destruct (applyOneUpdateTo_announces r merged w1q w2 Hiq Ha) as (p & q & Hann).
  rewrite Ha in Hpos, Hsf. cbv zeta in Hpos.
  destruct Hsf as (_ & Hs2 & Hs3 & _).
  change (heap w1q) with (heap w1) in Hpos, Hann. rewrite Hheap in Hpos, Hann.
  fold o in Hpos, Hann.
  rewrite Hframe, Hstep, Ha. simpl.
  split; [|split; [|split; [|split]]].
  - rewrite Hpos. unfold position_of_update.
    rewrite !Hprop by discriminate. reflexivity.
  - exists p, q. unfold call. cbn. rewrite Hann.
    apply in_or_app. left. apply in_or_app. right. left. reflexivity.
  - reflexivity.
  - rewrite Hs2. change (rafHandle w1q) with (rafHandle w1). congruence.
  - rewrite Hs3. change (raf_requests w1q) with (raf_requests w1). congruence.
Qed.

(** An update by name for the ball of the demo scene. *)
Lemma update_applied_at_next_frame_witness :
  let fs := [("name", VStr "ball"); ("pos", VArr [VNum 1; VNum 2; VNum 3]%float)] in
  let w' := animationFrame (host := Demo.toy_host)
              (enqueuePhysics (VArr [VObj fs]) VUndef Demo.demo_world) in
  THREE.position (heap w' 1)
  = {| THREE.v_x := VNum 1%float; THREE.v_y := VNum 2%float;
       THREE.v_z := VNum 3%float |}
  /\ pending w' = [].
Proof.
  intros fs w'.
  destruct (update_applied_at_next_frame Demo.toy_host Demo.demo_world fs VUndef 1)
    as (Hpos & _ & Hp & _); try reflexivity; [discriminate|].
  split; [exact Hpos | exact Hp].
Defined.

(** *** What an update writes *)

Section Writes.

Context {host : Host}.

Lemma wrote_only_refl o w : wrote_only o w w.
Proof. unfold wrote_only. repeat split. Qed.

Lemma wrote_only_trans o w1 w2 w3 :
  wrote_only o w1 w2 -> wrote_only o w2 w3 -> wrote_only o w1 w3.
Proof.
  unfold wrote_only.
  intros (a0 & a1 & a2 & a3 & a4 & a5 & a6 & a7 & a8)
         (b0 & b1 & b2 & b3 & b4 & b5 & b6 & b7 & b8).
  repeat split; try congruence.
  intros r Hr. rewrite (b0 r Hr). apply a0, Hr.
Qed.

(** Replacing [o] by an object that differs from it in position,
    quaternion or matrix flags only. *)
Lemma wrote_only_heap_set o w w' x :
  heap w' = THREE.heap_set (heap w) o x ->
  THREE.name x = THREE.name (heap w o) ->
  THREE.type x = THREE.type (heap w o) ->
  THREE.parent x = THREE.parent (heap w o) ->
  THREE.userData x = THREE.userData (heap w o) ->
  objectIndex w' = objectIndex w -> pending w' = pending w ->
  state w' = state w -> iso w' = iso w ->
  wrote_only o w w'.
Proof.
  intros Hh H1 H2 H3 H4 H5 H6 H7 H8. unfold wrote_only. rewrite Hh.
  rewrite heap_set_same. repeat split; try assumption.
  intros r Hr. apply heap_set_other, Hr.
Qed.

Lemma wrote_only_set_position o p w w0 :
  heap w0 = heap w -> objectIndex w0 = objectIndex w -> pending w0 = pending w ->
  state w0 = state w -> iso w0 = iso w ->
  wrote_only o w (set_position o p w0).
Proof.
  intros Hh H5 H6 H7 H8.
  apply (wrote_only_heap_set o w _ (THREE.with_position p (heap w o)));
    try assumption; try reflexivity.
  unfold set_position. cbn. rewrite Hh. reflexivity.
Qed.

Lemma wrote_only_set_quaternion o q w w0 :
  heap w0 = heap w -> objectIndex w0 = objectIndex w -> pending w0 = pending w ->
  state w0 = state w -> iso w0 = iso w ->
  wrote_only o w (set_quaternion o q w0).
Proof.
  intros Hh H5 H6 H7 H8.
  apply (wrote_only_heap_set o w _ (THREE.with_quaternion q (heap w o)));
    try assumption; try reflexivity.
  unfold set_quaternion. cbn. rewrite Hh. reflexivity.
Qed.

Lemma wrote_only_same o w w' :
  heap w' = heap w -> objectIndex w' = objectIndex w -> pending w' = pending w ->
  state w' = state w -> iso w' = iso w ->
  wrote_only o w w'.
Proof.
  intros Hh H5 H6 H7 H8. unfold wrote_only. rewrite Hh.
  repeat split; assumption.
Qed.

Lemma wrote_only_apply_position o u w : wrote_only o w (apply_position o u w).
Proof.
  unfold apply_position.
  case_guards; first [apply wrote_only_refl | apply wrote_only_set_position; reflexivity].
Qed.

Lemma wrote_only_apply_orientation o u w :
  match apply_orientation o u w with
  | Returned w' | Thrown _ w' => wrote_only o w w'
  end.
Proof.
  unfold apply_orientation, write_quaternion, set_rotation_from_euler.
  case_guards;
    first [apply wrote_only_refl
          | apply wrote_only_set_quaternion; reflexivity
          | apply wrote_only_same; reflexivity].
Qed.

Lemma wrote_only_finish_update o w : wrote_only o w (finish_update o w).
Proof.
  unfold finish_update, notify_transform. cbn.
  destruct (iso w) eqn:E;
    apply (wrote_only_heap_set o w _ (THREE.with_matrix_flags (heap w o)));
    reflexivity.
Qed.

Lemma wrote_only_applyOneUpdateTo target u w :
  match applyOneUpdateTo target u w with
  | Returned w' | Thrown _ w' => wrote_only (transform_target (heap w) target) w w'
  end.
Proof.
  rewrite applyOneUpdateTo_unfold. cbv zeta.
  set (o := transform_target (heap w) target).
  pose proof (wrote_only_apply_position o u w) as Hp.
  pose proof (wrote_only_apply_orientation o u (apply_position o u w)) as Ho.
  destruct (apply_orientation o u (apply_position o u w)) as [w1|e w1].
  - eapply wrote_only_trans; [exact Hp|].
    eapply wrote_only_trans; [exact Ho | apply wrote_only_finish_update].
  - eapply wrote_only_trans; eassumption.
Qed.

(** What identifies an object and places it in a layer is then the same
    for every object. *)
Lemma wrote_only_identity o w w' r :
  wrote_only o w w' ->
  THREE.name (heap w' r) = THREE.name (heap w r)
  /\ THREE.type (heap w' r) = THREE.type (heap w r)
  /\ THREE.parent (heap w' r) = THREE.parent (heap w r)
  /\ THREE.userData (heap w' r) = THREE.userData (heap w r).
Proof.
  intros (H0 & H1 & H2 & H3 & H4 & _).
  destruct (Nat.eq_dec r o) as [->|Hne]; [repeat split; assumption|].
  rewrite (H0 r Hne). repeat split.
Qed.

Lemma wrote_only_transform_target o w w' t :
  wrote_only o w w' ->
  transform_target (heap w') t = transform_target (heap w) t.
Proof.
  intros H. unfold transform_target.
  destruct (wrote_only_identity o w w' t H) as (Hn & _ & Hp & _).
  rewrite Hp, Hn. destruct (THREE.parent (heap w t)) as [p|]; [|reflexivity].
  destruct (wrote_only_identity o w w' p H) as (Hn' & Ht' & _).
  rewrite Hn', Ht'. reflexivity.
Qed.

Lemma wrote_only_object_layer o w w' r :
  wrote_only o w w' -> object_layer (heap w') r = object_layer (heap w) r.
Proof.
  intros H. unfold object_layer.
  destruct (wrote_only_identity o w w' r H) as (_ & _ & Hp & Hu).
  rewrite Hp, Hu. destruct (THREE.parent (heap w r)) as [p|]; [|reflexivity].
  destruct (wrote_only_identity o w w' p H) as (_ & _ & _ & Hu').
  rewrite Hu'. reflexivity.
Qed.

End Writes.

(** X9. [applyOneUpdateTo] writes one object and nothing that identifies
    it.  Whether it returns or throws, every scene object other than the
    one moved is exactly as it was; the moved one keeps its name, type,
    parent and user data; the index, the buffer, the state and the IsoCard
    instance are untouched.  So the object any target stands for and every
    object's layer tag are the same after the update as before. *)
Theorem applyOneUpdateTo_writes_one_object :
  forall (host : Host) (target : THREE.ref) (u : obj) (w : World),
    match applyOneUpdateTo target u w with
    | Returned w' | Thrown _ w' =>
        wrote_only (transform_target (heap w) target) w w'
        /\ (forall t, transform_target (heap w') t = transform_target (heap w) t)
        /\ (forall r, object_layer (heap w') r = object_layer (heap w) r)
    end.
Proof.
  intros host target u w.
  pose proof (wrote_only_applyOneUpdateTo target u w) as H.
  destruct (applyOneUpdateTo target u w) as [w'|e w']; split; try exact H; split.
  - intros t. eapply wrote_only_transform_target, H.
  - intros r. eapply wrote_only_object_layer, H.
  - intros t. eapply wrote_only_transform_target, H.
  - intros r. eapply wrote_only_object_layer, H.
Qed.

(** *** Scene ingestion: tags and failures *)

Section Loading.

Context {host : Host}.

Lemma heap_tag_layer_other layerId w e r :
  Iso.threeObj e <> Some r -> heap (tag_layer layerId w e) r = heap w r.
Proof.
  intros H. unfold tag_layer. destruct (Iso.threeObj e) as [r0|]; [|reflexivity].
  cbn. apply heap_set_other. congruence.
Qed.

Lemma layer_tag_layer layerId w e r :
  Iso.threeObj e = Some r ->
  prop "layer" (THREE.userData (heap (tag_layer layerId w e) r)) = layer_tag layerId e.
Proof.
  intros H. unfold tag_layer. rewrite H. cbn. rewrite heap_set_same. cbn.
  rewrite prop_set. reflexivity.
Qed.

Lemma objectIndex_removeObject id w : objectIndex (removeObject id w) = objectIndex w.
Proof.
  unfold removeObject. destruct (iso w); [|reflexivity].
  destruct (IsoCard_removeObject _ _ _). reflexivity.
Qed.

Lemma objectIndex_clearLayer layerId w : objectIndex (clearLayer layerId w) = objectIndex w.
Proof.
  unfold clearLayer.
  destruct (iso w) as [c|]; [|reflexivity].
  destruct (Iso.objects c) as [entries|]; [|reflexivity].
  assert (H : objectIndex (fold_left (fun w e => removeObject (Iso.id e) w)
                             (filter (in_layer layerId) entries) w) = objectIndex w).
  { apply (fold_left_invariant (fun a => objectIndex a = objectIndex w)); [|reflexivity].
    intros a e Ha. rewrite objectIndex_removeObject. exact Ha. }
  destruct (filter (in_layer layerId) entries); exact H.
Qed.

End Loading.

Lemma js_or_truthy a b : truthy a = true -> a ||| b = a.
Proof. unfold js_or. intros ->. reflexivity. Qed.

Lemma iso_tag_layers {host : Host} layerId entries w :
  iso (fold_left (tag_layer layerId) entries w) = iso w.
Proof.
  apply (fold_left_invariant (fun a => iso a = iso w)); [|reflexivity].
  intros a e Ha. unfold tag_layer. destruct (Iso.threeObj e); exact Ha.
Qed.

(** After the tagging loop an object carries the tag of the last entry it
    is the [threeObj] of. *)
Lemma fold_tag_layer_last {host : Host} layerId entries : forall w r e,
  find (shows r) (rev entries) = Some e ->
  prop "layer" (THREE.userData (heap (fold_left (tag_layer layerId) entries w) r))
  = layer_tag layerId e.
Proof.
  induction entries as [|x entries IH] using rev_ind; intros w r e Hf;
    [discriminate|].
  rewrite rev_app_distr in Hf. simpl in Hf.
  rewrite fold_left_app. simpl.
  unfold shows in Hf at 1.
  destruct (Iso.threeObj x) as [r0|] eqn:Ex.
  - destruct (Nat.eqb_spec r0 r) as [->|Hne].
    + injection Hf as <-. apply layer_tag_layer, Ex.
    + rewrite heap_tag_layer_other by congruence. apply IH, Hf.
  - rewrite heap_tag_layer_other by congruence. apply IH, Hf.
Qed.

(** X10. A scene that loads leaves every object tagged.  When the [try]
    block of [handleSceneState] returns, each object that an entry of
    [iso.objects] has as its [threeObj] carries in [userData.layer] the
    config layer of the last such entry in the list, or the viewing layer
    when that config names none; when the tag is not empty it is the layer
    the flush's guard goes by. *)
Theorem scene_load_tags_objects :
  forall (host : Host) (sceneData : value) (w w' : World),
    handleSceneState_try sceneData w = Returned w' ->
    let layerId := State.layerId (state w) in
    forall r e,
      find (shows r) (rev (world_entries w')) = Some e ->
      prop "layer" (THREE.userData (heap w' r)) = layer_tag layerId e
      /\ (truthy (layer_tag layerId e) = true ->
          object_layer (heap w') r = layer_tag layerId e).
Proof.
  intros host sceneData w w' H layerId r e Hf.
  unfold handleSceneState_try in H. fold layerId in H.
  destruct (stripPhysicsDeep sceneData) as [x|cleaned]; [discriminate|].
  destruct (iso (clearLayer layerId w)) as [c1|]; [|discriminate].
  destruct (IsoCard_addObjectsToLayer c1 _ layerId _) as [[c' h'] [x|]] eqn:Ea;
    [discriminate|].
  injection H as <-.
  match goal with
  | Hf : find _ (rev (world_entries (log _ (call _ (rebuildObjectIndex ?b))))) = _ |- _ =>
      set (wt := b) in *
  end.
  assert (Hiso : iso wt = Some c').
  { unfold wt. destruct (Iso.objects c'); [rewrite iso_tag_layers|]; reflexivity. }
  match type of Hf with
  | find _ (rev (world_entries ?W)) = _ =>
      assert (Hentries : world_entries W = iso_entries c')
  end.
  { unfold world_entries.
    change (iso (log _ (call _ (rebuildObjectIndex wt)))) with (iso (rebuildObjectIndex wt)).
    destruct (same_frame_rebuildObjectIndex wt) as (_ & _ & _ & _ & -> & _).
    rewrite Hiso. reflexivity. }
  rewrite Hentries in Hf.
  change (heap (log _ (call _ (rebuildObjectIndex wt)))) with (heap (rebuildObjectIndex wt)).
  destruct (rebuildObjectIndex_scene wt) as [_ ->].
  unfold iso_entries in Hf. unfold wt.
  destruct (Iso.objects c') as [entries|]; [|discriminate].
  pose proof (fold_tag_layer_last layerId entries
                (with_heap h' (with_iso (Some c')
                   (call (Iso.addObjectsToLayer layerId
                            (map (into_layer layerId) (ensureSceneArray cleaned)))
                      (clearLayer layerId w)))) r e Hf) as Hl.
  split; [exact Hl|].
  intros Ht. unfold object_layer. rewrite Hl.
  rewrite !(js_or_truthy (layer_tag layerId e)) by exact Ht. reflexivity.
Qed.

(** The ball of the demo scene, loaded again: its mesh is tagged with the
    layer its config names. *)
Lemma scene_load_tags_objects_witness :
  let w' := handleSceneState (host := Demo.toy_host) (VArr []) Demo.demo_world in
  prop "layer" (THREE.userData (heap w' 2)) = VStr "server_layer"
  /\ object_layer (heap w') 2 = VStr "server_layer".
Proof.
  intros w'.
  destruct (scene_load_tags_objects Demo.toy_host (VArr []) Demo.demo_world w' eq_refl
              2 Demo.demo_entry eq_refl) as [Htag Hlayer].
  split; [exact Htag | exact (Hlayer eq_refl)].
Defined.

(** X11. A scene that IsoCard refuses is not rolled back.  With an IsoCard
    instance in place and a payload other than [undefined], when
    [addObjectsToLayer] throws, [handleSceneState] ends by logging
    ["Scene load failed: ..."] with the error's message: the objects of the
    viewing layer have been removed all the same and nothing was rendered;
    the instance and the scene objects are as the failed call left them;
    the object index was not rebuilt and the update buffer is as it was. *)
Theorem scene_load_failure :
  forall (host : Host) (sceneData : value) (w : World) (c c1 c' : Iso.IsoCard)
         (h' : THREE.Heap) (e : exn),
    iso w = Some c ->
    sceneData <> VUndef ->
    let layerId := State.layerId (state w) in
    let payload := map (into_layer layerId) (ensureSceneArray (stripped sceneData)) in
    let cleared := clearLayer layerId w in
    iso cleared = Some c1 ->
    IsoCard_addObjectsToLayer c1 (heap cleared) layerId payload = (c', h', Some e) ->
    let w' := handleSceneState sceneData w in
    w' = log ("Scene load failed: " ++ exn_text e)%string
           (with_heap h'
              (with_iso (Some c')
                 (call (Iso.addObjectsToLayer layerId payload) cleared)))
    /\ iso_calls w'
       = iso_calls w
         ++ map (fun x => Iso.removeObject (Iso.id x))
              (filter (in_layer layerId) (iso_entries c))
         ++ [Iso.addObjectsToLayer layerId payload]
    /\ iso w' = Some c'
    /\ heap w' = h'
    /\ objectIndex w' = objectIndex w
    /\ pending w' = pending w.
Proof.
  intros host sceneData w c c1 c' h' e Hi Hdef layerId payload cleared Hc1 Ha w'.
  assert (Hw' : w' = log ("Scene load failed: " ++ exn_text e)%string
                       (with_heap h'
                          (with_iso (Some c')
                             (call (Iso.addObjectsToLayer layerId payload) cleared)))).
  { unfold w', handleSceneState. rewrite Hi. unfold handleSceneState_try.
    assert (Hs : stripPhysicsDeep sceneData = inr (stripped sceneData)).
    { destruct sceneData; try reflexivity. contradiction. }
    rewrite Hs. fold layerId. fold payload. fold cleared. rewrite Hc1.
    change (heap (call (Iso.addObjectsToLayer layerId payload) cleared))
      with (heap cleared).
    rewrite Ha. reflexivity. }
  split; [exact Hw'|]. rewrite Hw'. cbn.
  destruct (clearLayer_calls layerId w c Hi) as [_ Hc]. fold cleared in Hc.
  rewrite Hc, <- app_assoc.
  repeat split.
  - apply objectIndex_clearLayer.
  - apply pending_clearLayer.
Qed.

(** An IsoCard that refuses the scene: the ball's entry has been removed,
    and the log says why nothing was loaded. *)
Lemma scene_load_failure_witness :
  let w' := handleSceneState (host := refusing_host) (VArr []) Demo.demo_world in
  last (State.log (state w')) "" = "T1 — Scene load failed: bad scene"
  /\ iso_calls w'
     = [Iso.removeObject (VNum 7%float); Iso.addObjectsToLayer "server_layer" []].
Proof.
  intros w'.
  destruct (scene_load_failure refusing_host (VArr []) Demo.demo_world
              Demo.demo_iso Demo.demo_iso Demo.demo_iso Demo.demo_heap
              {| exn_name := "Error"; exn_message := "bad scene" |} eq_refl)
    as (Hw & Hcalls & _); [discriminate | reflexivity | reflexivity|].
  split; [| exact Hcalls].
  unfold w'. rewrite Hw. reflexivity.
Defined.

(** *** What a flush reports *)

Section Counting.

Context {host : Host}.




End Counting.



(* ================================================================== *)
(** ** Properties of the socket plumbing *)
(* ================================================================== *)

Section Sockets.

Context {host : Host} {browser : Browser}.

Lemma socket_inv_quiet p p' :
  socket p' = socket p ->
  ws_count p <= ws_count p' ->
  State.wsStatus (state (world p')) = State.wsStatus (state (world p)) ->
  socket_inv p -> socket_inv p'.
Proof.
  unfold socket_inv. intros Hs Hc Hw (H1 & H2 & H3). rewrite Hs, Hw.
  repeat split; try assumption.
  intros ws E. specialize (H3 ws E). lia.
Qed.

Lemma socket_inv_disconnected p :
  socket p = None ->
  State.wsStatus (state (world p)) = State.disconnected ->
  socket_inv p.
Proof.
  unfold socket_inv. intros -> ->. repeat split; discriminate.
Qed.

Lemma wsStatus_settings w w' :
  settings w' = settings w ->
  State.wsStatus (state w') = State.wsStatus (state w).
Proof. unfold settings. intros H. injection H as _ H _ _ _. exact H. Qed.

Lemma socket_inv_closeWebSocket p : socket_inv (closeWebSocket p).
Proof.
  apply socket_inv_disconnected; unfold closeWebSocket; destruct (socket p); reflexivity.
Qed.

Lemma socket_inv_openWebSocket p : socket_inv (openWebSocket p).
Proof.
  apply socket_inv_disconnected; unfold openWebSocket;
    destruct (WebSocket_new _); unfold closeWebSocket; cbn;
    destruct (socket p); reflexivity.
Qed.

Lemma socket_inv_send payload p : socket_inv p -> socket_inv (send payload p).
Proof.
  apply socket_inv_quiet; unfold send;
    repeat match goal with
           | |- context [match ?x with _ => _ end] => destruct x eqn:?
           end; cbn; first [reflexivity | congruence].
Qed.

Lemma socket_inv_handleSendScene p : socket_inv p -> socket_inv (handleSendScene p).
Proof.
  intros H. unfold handleSendScene.
  destruct (JSON_parse _); [|apply socket_inv_send, H].
  revert H. apply socket_inv_quiet; reflexivity.
Qed.

Lemma socket_inv_click b p : socket_inv p -> socket_inv (click b p).
Proof.
  intros H. unfold click. destruct (button_disabled _ b); [exact H|].
  destruct b; simpl.
  - destruct (is_connected _); [apply socket_inv_closeWebSocket | apply socket_inv_openWebSocket].
  - apply socket_inv_send, H.
  - apply socket_inv_send, H.
  - apply socket_inv_send, H.
  - apply socket_inv_handleSendScene, H.
Qed.

Lemma socket_inv_on_world f p :
  settings (f (world p)) = settings (world p) ->
  socket_inv p -> socket_inv (on_world f p).
Proof.
  intros Hf. apply socket_inv_quiet; try reflexivity.
  apply wsStatus_settings. exact Hf.
Qed.

Lemma socket_inv_page_step p e : socket_inv p -> socket_inv (page_step p e).
Proof.
  intros H. destruct e; simpl.
  - apply socket_inv_click, H.
  - revert H. apply socket_inv_quiet; reflexivity.
  - revert H. apply socket_inv_quiet; reflexivity.
  - revert H. apply socket_inv_quiet; reflexivity.
  - unfold of_socket. destruct (Nat.ltb_spec ws (ws_count p)) as [Hlt|_]; [|exact H].
    unfold socket_inv, ws_onopen. cbn. repeat split; try discriminate.
    intros ws' E. injection E as <-. exact Hlt.
  - unfold of_socket. destruct (Nat.ltb ws (ws_count p)); [|exact H].
    apply socket_inv_on_world; [apply settings_onMessage | exact H].
  - unfold of_socket. destruct (Nat.ltb ws (ws_count p)); [|exact H].
    apply socket_inv_disconnected; reflexivity.
  - unfold of_socket. destruct (Nat.ltb ws (ws_count p)); [|exact H].
    destruct H as (_ & _ & H3).
    unfold socket_inv, ws_onerror. cbn. repeat split; try discriminate. exact H3.
  - apply socket_inv_on_world; [apply settings_animationFrame | exact H].
Qed.

Lemma socket_inv_page_run events : forall p,
  socket_inv p -> socket_inv (page_run events p).
Proof.
  intros p H. unfold page_run.
  apply (fold_left_invariant socket_inv page_step); [|exact H].
  intros a e Ha. apply socket_inv_page_step, Ha.
Qed.

End Sockets.

(** X13. The socket field and the status shown agree, whatever happens.
    Starting from a page where they do (as on the page before its first
    connection), after any sequence of clicks, typing, socket events (of any
    socket the component ever constructed, in any order) and animation
    frames: the status is not ["connecting"]; when it is ["connected"] the
    component holds a socket; and the socket it holds is one it
    constructed. *)
Theorem socket_status_invariant :
  forall (host : Host) (browser : Browser) (p0 : Page) (events : list ui),
    socket_inv p0 -> socket_inv (page_run events p0).
Proof.
  intros host browser p0 events. apply socket_inv_page_run.
Qed.

(** Connect, the socket opens, a message arrives, the socket fails. *)
Lemma socket_status_invariant_witness :
  let p := page_run (host := Demo.toy_host) (browser := DemoPage.toy_browser)
             [Click ConnectButton; SocketOpened 0;
              SocketMessage 0 (Text Demo.text_tick); SocketFailed 0]
             DemoPage.demo_page in
  socket p = Some 0
  /\ State.wsStatus (state (world p)) = State.disconnected
  /\ socket_inv p.
Proof.
  intros p. split; [reflexivity|]. split; [reflexivity|].
  apply (socket_status_invariant Demo.toy_host DemoPage.toy_browser).
  apply (socket_inv_disconnected DemoPage.demo_page); reflexivity.
Defined.

Section Sending.

Context {host : Host} {browser : Browser}.

(** What [send] does when the component is connected and holds a socket. *)
Lemma send_connected payload p ws shown :
  socket p = Some ws ->
  State.wsStatus (state (world p)) = State.connected ->
  nullish payload = false ->
  to_string (js_get payload "type") = Some shown ->
  let text := JSON_stringify payload in
  ws_calls (send payload p) = ws_calls p ++ [Ws.send ws text]
  /\ socket (send payload p) = Some ws
  /\ world (send payload p)
     = log (match WebSocket_send (List.length (ws_calls p)) ws text with
            | None => "Sent: " ++ shown
            | Some e => "Send failed: " ++ exn_text e
            end)%string (world p).
Proof.
  intros Hs Hc Hn Ht text. unfold send. rewrite Hs, Hc, Hn, Ht. fold text.
  destruct (WebSocket_send _ ws text); repeat split; exact Hs.
Qed.

Lemma enabled_connected s b :
  b <> ConnectButton -> button_disabled s b = false ->
  State.wsStatus s = State.connected.
Proof.
  intros Hb. unfold button_disabled, is_connected.
  destruct b; try contradiction; destruct (State.wsStatus s); (reflexivity || discriminate).
Qed.

End Sending.

(** X14. An enabled request button always reaches the socket.  After any
    sequence of events, when [render] draws GET_SCENE, START_PHYSICS or
    STOP_PHYSICS enabled, the component holds a socket, and a click calls
    that socket's [send] exactly once, with [JSON.stringify] of the payload
    whose [type] is the button's text; the click logs ["Sent: <type>"], or
    ["Send failed: ..."] when [send] threw, and changes nothing else of the
    state; the line ["Not connected. Can't send."] cannot come from these
    buttons. *)
Theorem enabled_button_transmits :
  forall (host : Host) (browser : Browser) (p0 : Page) (events : list ui)
         (b : Button),
    socket_inv p0 ->
    let p := page_run events p0 in
    let s := state (world p) in
    b = GetSceneButton \/ b = StartPhysicsButton \/ b = StopPhysicsButton ->
    button_disabled s b = false ->
    let text := JSON_stringify (VObj [("type", VStr (button_text s b))]) in
    exists ws,
      socket p = Some ws
      /\ ws_calls (click b p) = ws_calls p ++ [Ws.send ws text]
      /\ socket (click b p) = Some ws
      /\ world (click b p)
         = log (match WebSocket_send (List.length (ws_calls p)) ws text with
                | None => "Sent: " ++ button_text s b
                | Some e => "Send failed: " ++ exn_text e
                end)%string (world p).
Proof.
  intros host browser p0 events b H0 p s Hb Hen text.
  pose proof (socket_inv_page_run events p0 H0) as (_ & Hheld & _).
  fold p in Hheld.
  assert (Hc : State.wsStatus s = State.connected).
  { apply (enabled_connected s b); [|exact Hen].
    destruct Hb as [->|[->| ->]]; discriminate. }
  destruct (socket p) as [ws|] eqn:Es; [|exfalso; apply (Hheld Hc); reflexivity].
  exists ws. split; [reflexivity|].
  assert (Hclick : click b p = send (VObj [("type", VStr (button_text s b))]) p).
  { unfold click. fold s. rewrite Hen.
    destruct Hb as [->|[->| ->]]; reflexivity. }
  rewrite Hclick.
  destruct (send_connected (VObj [("type", VStr (button_text s b))]) p ws
              (button_text s b) Es Hc eq_refl eq_refl)
    as (H1 & H2 & H3).
  split; [exact H1|]. split; [exact H2|]. exact H3.
Qed.

(** Connected through socket 0, a click on GET_SCENE sends on it. *)
Lemma enabled_button_transmits_witness :
  let p := page_run (host := Demo.toy_host) (browser := DemoPage.toy_browser)
             [Click ConnectButton; SocketOpened 0] DemoPage.demo_page in
  let p' := click (host := Demo.toy_host) (browser := DemoPage.toy_browser)
              GetSceneButton p in
  ws_calls p'
  = [Ws.construct "ws://localhost:5000" 0; Ws.send 0 "{GET_SCENE}"]
  /\ State.log (state (world p'))
     = ["T0 — Connecting to ws://localhost:5000"; "T1 — WebSocket connected";
        "T2 — Sent: GET_SCENE"].
Proof.
  intros p p'.
  destruct (enabled_button_transmits Demo.toy_host DemoPage.toy_browser
              DemoPage.demo_page [Click ConnectButton; SocketOpened 0] GetSceneButton)
    as (ws & Hs & Hcalls & _ & Hworld).
  - apply (socket_inv_disconnected DemoPage.demo_page); reflexivity.
  - left. reflexivity.
  - reflexivity.
  - injection Hs as <-. split; [exact Hcalls|].
    unfold p', p. rewrite Hworld. reflexivity.
Defined.

(** X15. Send Scene sends nothing it cannot parse.  After any sequence of
    events, when [render] draws the Send Scene button enabled and it is
    clicked: if the text of the JSON box does not parse, no call goes to any
    socket and the one line ["Invalid JSON: ..."] is logged; if it parses,
    the socket the component holds is sent, exactly once, the START payload
    carrying the parsed scene and the current layer id as [layerName]. *)
Theorem send_scene_button :
  forall (host : Host) (browser : Browser) (p0 : Page) (events : list ui),
    socket_inv p0 ->
    let p := page_run events p0 in
    let s := state (world p) in
    button_disabled s SendSceneButton = false ->
    match JSON_parse (State.jsonText s) with
    | inl e =>
        ws_calls (click SendSceneButton p) = ws_calls p
        /\ socket (click SendSceneButton p) = socket p
        /\ world (click SendSceneButton p)
           = log ("Invalid JSON: " ++ exn_text e)%string (world p)
    | inr scene =>
        exists ws,
          socket p = Some ws
          /\ ws_calls (click SendSceneButton p)
             = ws_calls p
               ++ [Ws.send ws
                     (JSON_stringify
                        (VObj [("type", VStr "START"); ("scene", scene);
                               ("layerName", VStr (State.layerId s))]))]
    end.
Proof.
  intros host browser p0 events H0 p s Hen.
  pose proof (socket_inv_page_run events p0 H0) as (_ & Hheld & _).
  fold p in Hheld.
  assert (Hc : State.wsStatus s = State.connected).
  { apply (enabled_connected s SendSceneButton); [discriminate | exact Hen]. }
  assert (Hclick : click SendSceneButton p = handleSendScene p).
  { unfold click. fold s. rewrite Hen. reflexivity. }
  rewrite Hclick. unfold handleSendScene. fold s.
  destruct (JSON_parse (State.jsonText s)) as [e|scene]; [repeat split|].
  destruct (socket p) as [ws|] eqn:Es; [|exfalso; apply (Hheld Hc); reflexivity].
  exists ws. split; [reflexivity|].
  apply (send_connected
           (VObj [("type", VStr "START"); ("scene", scene);
                  ("layerName", VStr (State.layerId s))]) p ws "START" Es Hc
           eq_refl eq_refl).
Qed.

(** The JSON box of the demo page is empty, which does not parse. *)
Lemma send_scene_button_witness :
  let p := page_run (host := Demo.toy_host) (browser := DemoPage.toy_browser)
             [Click ConnectButton; SocketOpened 0] DemoPage.demo_page in
  let p' := click (host := Demo.toy_host) (browser := DemoPage.toy_browser)
              SendSceneButton p in
  ws_calls p' = ws_calls p
  /\ world p'
     = log (host := Demo.toy_host) "Invalid JSON: Unexpected token" (world p).
Proof.
  intros p p'.
  destruct (send_scene_button Demo.toy_host DemoPage.toy_browser
              DemoPage.demo_page [Click ConnectButton; SocketOpened 0])
    as (Hcalls & _ & Hworld).
  - apply (socket_inv_disconnected DemoPage.demo_page); reflexivity.
  - reflexivity.
  - split; [exact Hcalls | exact Hworld].
Defined.

(** X16. A close event is not matched against the socket the component
    holds.  When the close event of any socket the component constructed
    arrives while the component holds a socket, the component drops the
    socket it holds and shows ["disconnected"], without calling [close] on
    it; messages of the dropped socket are handled as before; and the next
    click on Connect constructs a socket without closing the dropped one. *)
Theorem any_close_event_disconnects :
  forall (host : Host) (browser : Browser) (p : Page) (ws held : nat),
    ws < ws_count p ->
    held < ws_count p ->
    socket p = Some held ->
    let p' := page_step p (SocketClosed ws) in
    socket p' = None
    /\ State.wsStatus (state (world p')) = State.disconnected
    /\ ws_calls p' = ws_calls p
    /\ (forall data,
          world (page_step p' (SocketMessage held data)) = onMessage data (world p'))
    /\ ws_calls (click ConnectButton p')
       = ws_calls p
         ++ match WebSocket_new (State.serverUrl (state (world p))) with
            | None => [Ws.construct (State.serverUrl (state (world p))) (ws_count p)]
            | Some _ => []
            end.
Proof.
  intros host browser p ws held Hws Hheld Hs p'.
  assert (Hp' : p' = ws_onclose p).
  { unfold p'. simpl. unfold of_socket.
    destruct (Nat.ltb_spec ws (ws_count p)); [reflexivity | lia]. }
  rewrite Hp'. repeat apply conj; try reflexivity.
  - intros data. simpl. unfold of_socket.
    change (ws_count (ws_onclose p)) with (ws_count p).
    destruct (Nat.ltb_spec held (ws_count p)); [reflexivity | lia].
  - unfold click. cbn. unfold openWebSocket. cbn.
    destruct (WebSocket_new (State.serverUrl (state (world p)))); cbn;
      [rewrite app_nil_r|]; reflexivity.
Qed.

(** Socket 0 is replaced by socket 1; then the close event of socket 0
    arrives: the component forgets socket 1, which goes on delivering. *)
Lemma any_close_event_disconnects_witness :
  let p := page_run (host := Demo.toy_host) (browser := DemoPage.toy_browser)
             [Click ConnectButton; SocketOpened 0; Click ConnectButton;
              Click ConnectButton; SocketOpened 1] DemoPage.demo_page in
  let p' := page_step (host := Demo.toy_host) (browser := DemoPage.toy_browser)
              p (SocketClosed 0) in
  socket p = Some 1 /\ socket p' = None
  /\ ws_calls p'
     = [Ws.construct "ws://localhost:5000" 0; Ws.close 0;
        Ws.construct "ws://localhost:5000" 1].
Proof.
  intros p p'.
  destruct (any_close_event_disconnects Demo.toy_host DemoPage.toy_browser p 0 1)
    as (Hs & _ & Hcalls & _); [vm_compute; lia | vm_compute; lia | reflexivity |].
  split; [reflexivity|]. split; [exact Hs | exact Hcalls].
Defined.

Section PageLog.

Context {host : Host} {browser : Browser}.

Lemma log_ok_with_wsStatus n s w : log_ok n w -> log_ok n (with_wsStatus s w).
Proof. exact (fun H => H). Qed.

Lemma page_log_ok_closeWebSocket n p :
  page_log_ok n p -> page_log_ok n (closeWebSocket p).
Proof. unfold closeWebSocket. destruct (socket p); exact (fun H => H). Qed.

Lemma page_log_ok_openWebSocket n p : page_log_ok n (openWebSocket p).
Proof.
  unfold openWebSocket.
  set (p2 := on_world (with_wsStatus State.connecting)
               (on_world (log ("Connecting to "
                               ++ State.serverUrl (state (world p)))%string) p)).
  assert (H2 : page_log_ok n p2) by apply (log_ok_log n).
  pose proof (page_log_ok_closeWebSocket n p2 H2) as H3.
  destruct (WebSocket_new _); [|exact H3].
  apply log_ok_with_wsStatus, (log_ok_log n).
Qed.

Lemma page_log_ok_send n payload p : page_log_ok n (send payload p).
Proof.
  unfold send.
  repeat match goal with
         | |- context [match ?x with _ => _ end] => destruct x
         end; apply (log_ok_log n).
Qed.

Lemma page_log_ok_click n b p : page_log_ok n p -> page_log_ok n (click b p).
Proof.
  intros H. unfold click. destruct (button_disabled _ b); [exact H|].
  destruct b; simpl; try apply page_log_ok_send.
  - destruct (is_connected _);
      [apply page_log_ok_closeWebSocket, H | apply page_log_ok_openWebSocket].
  - unfold handleSendScene. destruct (JSON_parse _); [|apply page_log_ok_send].
    apply (log_ok_log n).
Qed.

Lemma page_log_ok_step n p e : page_log_ok n p -> page_log_ok n (page_step p e).
Proof.
  intros H. destruct e; simpl; try exact H;
    try (unfold of_socket; destruct (Nat.ltb ws (ws_count p)); [|exact H]).
  - apply page_log_ok_click, H.
  - apply (log_ok_log n).
  - apply (log_ok_onMessage n), H.
  - apply log_ok_with_wsStatus, (log_ok_log n).
  - apply log_ok_with_wsStatus, (log_ok_log n).
  - apply (log_ok_animationFrame n), H.
Qed.

Lemma page_log_ok_run n events : forall p,
  page_log_ok n p -> page_log_ok n (page_run events p).
Proof.
  intros p H. unfold page_run.
  apply (fold_left_invariant (page_log_ok n) page_step); [|exact H].
  intros a e Ha. apply page_log_ok_step, Ha.
Qed.

End PageLog.

(** X17. The log stays bounded through the whole page.  Every line the
    socket plumbing, [send] and [handleSendScene] write goes through [log];
    so after any sequence of clicks, typing, socket events and animation
    frames the log holds at most 400 lines (or as many as it started
    with). *)
Theorem page_log_bounded :
  forall (host : Host) (browser : Browser) (p0 : Page) (events : list ui),
    List.length (State.log (state (world (page_run events p0))))
    <= Nat.max 400 (List.length (State.log (state (world p0)))).
Proof.
  intros host browser p0 events.
  apply (page_log_ok_run (List.length (State.log (state (world p0)))) events p0).
  unfold page_log_ok, log_ok. lia.
Qed.

(** *** Without an IsoCard instance *)

Section Waiting.

Context {host : Host}.

Lemma waiting_refl w : iso w = None -> waiting w w.
Proof. intros H. unfold waiting. repeat split; auto. Qed.

Lemma waiting_trans w1 w2 w3 : waiting w1 w2 -> waiting w2 w3 -> waiting w1 w3.
Proof.
  intros (_ & a2 & a3 & a4) (b1 & b2 & b3 & b4).
  repeat split; try congruence. intros key H. apply b2, a2, H.
Qed.

Lemma merge_update_keeps p u key :
  map_get key p <> None -> map_get key (merge_update p u) <> None.
Proof. intros H. unfold merge_update. apply map_set_keeps, H. Qed.

Lemma waiting_enqueuePhysics objects d w :
  iso w = None -> waiting w (enqueuePhysics objects d w).
Proof.
  intros Hi. unfold waiting, enqueuePhysics.
  destruct (collect objects d) as [arr|]; [|unfold waiting; repeat split; auto].
  assert (Hk : forall key, map_get key (pending w) <> None ->
                           map_get key (fold_left merge_update arr (pending w)) <> None).
  { intros key H.
    apply (fold_left_invariant (fun m => map_get key m <> None)); [|exact H].
    intros m u Hm. apply merge_update_keeps, Hm. }
  cbn. destruct (rafHandle w); cbn; repeat split; auto.
Qed.

Lemma waiting_onMessage data w : iso w = None -> waiting w (onMessage data w).
Proof.
  intros Hi.
  destruct (onMessage_cases data w)
    as [->|[[m ->]|[(m & d & ->)|[(m & o & d & ->)|(m & m' & ->)]]]].
  - apply waiting_refl, Hi.
  - unfold waiting; repeat split; auto.
  - unfold handleSceneState. cbn. rewrite Hi. unfold waiting; repeat split; auto.
  - apply (waiting_trans w (log m w)); [unfold waiting; repeat split; auto|].
    apply waiting_enqueuePhysics. exact Hi.
  - unfold waiting; repeat split; auto.
Qed.

Lemma waiting_animationFrame w : iso w = None -> waiting w (animationFrame w).
Proof.
  intros Hi. unfold animationFrame.
  apply (fold_left_invariant (waiting w)).
  - intros a _ Ha. eapply waiting_trans; [exact Ha|].
    destruct Ha as (Hia & _). unfold frame_callback, flushPending. cbn.
    rewrite Hia. cbn. unfold waiting; repeat split; auto.
  - unfold waiting; repeat split; auto.
Qed.

Lemma waiting_step w e : iso w = None -> waiting w (step w e).
Proof.
  intros Hi. destruct e; simpl.
  - apply waiting_onMessage, Hi.
  - apply waiting_enqueuePhysics, Hi.
  - apply waiting_animationFrame, Hi.
  - unfold waiting; repeat split; auto.
Qed.

Lemma waiting_run events : forall w, iso w = None -> waiting w (run events w).
Proof.
  induction events as [|e events IH]; intros w Hi; [apply waiting_refl, Hi|].
  simpl. pose proof (waiting_step w e Hi) as Hs.
  eapply waiting_trans; [exact Hs|]. apply IH. apply Hs.
Qed.

End Waiting.

(** X18. Without an IsoCard instance nothing is applied and nothing is
    dropped.  While [iso] is null, whatever messages arrive and however many
    frames pass, every key that was buffered stays buffered, no scene object
    is touched and no call is made into IsoCard: the flush of each frame
    returns at once, and a SCENE_STATE message only logs. *)
Theorem buffer_waits_for_isocard :
  forall (host : Host) (w0 : World) (events : list event),
    iso w0 = None ->
    let w := run events w0 in
    iso w = None
    /\ (forall key, map_get key (pending w0) <> None ->
                    map_get key (pending w) <> None)
    /\ heap w = heap w0
    /\ iso_calls w = iso_calls w0.
Proof.
  intros host w0 events Hi. apply (waiting_run events w0 Hi).
Qed.

(** An update arrives before IsoCard exists; two frames later it is still
    buffered. *)
Lemma buffer_waits_for_isocard_witness :
  let batch := VArr [VObj [("name", VStr "ball");
                           ("pos", VArr [VNum 1; VNum 2; VNum 3]%float)]] in
  let w0 := enqueuePhysics batch VUndef (with_iso None Demo.demo_world) in
  let w := run (host := Demo.toy_host)
             [Frame; Message (Text Demo.text_scene); Frame] w0 in
  map_get (VStr "ball") (pending w) <> None /\ iso_calls w = [].
Proof.
  intros batch w0 w.
  destruct (buffer_waits_for_isocard Demo.toy_host w0
              [Frame; Message (Text Demo.text_scene); Frame] eq_refl)
    as (_ & Hk & _ & Hc).
  split; [apply Hk; discriminate | exact Hc].
Defined.

(** *** Which sockets the component calls *)

Section Targets.

Context {host : Host} {browser : Browser}.

(** What one event adds to the calls on sockets, and how the socket held
    can change. *)
Lemma page_step_calls p e :
  exists added,
    ws_calls (page_step p e) = ws_calls p ++ added
    /\ (forall ws, In (Ws.close ws) added -> socket p = Some ws)
    /\ (forall ws text, In (Ws.send ws text) added -> socket p = Some ws)
    /\ (forall ws, socket (page_step p e) = Some ws ->
                   socket p = Some ws \/ e = SocketOpened ws).
Proof.
  assert (Hnone : forall p', ws_calls p' = ws_calls p -> 
            (forall ws, socket p' = Some ws -> socket p = Some ws \/ e = SocketOpened ws) ->
            exists added,
              ws_calls p' = ws_calls p ++ added
              /\ (forall ws, In (Ws.close ws) added -> socket p = Some ws)
              /\ (forall ws text, In (Ws.send ws text) added -> socket p = Some ws)
              /\ (forall ws, socket p' = Some ws ->
                             socket p = Some ws \/ e = SocketOpened ws)).
  { intros p' Hc Hs. exists []. rewrite app_nil_r.
    split; [exact Hc|]. split; [intros ws []|]. split; [intros ws text []|]. exact Hs. }
  assert (Hsend : forall payload,
            exists added,
              ws_calls (send payload p) = ws_calls p ++ added
              /\ (forall ws, In (Ws.close ws) added -> socket p = Some ws)
              /\ (forall ws text, In (Ws.send ws text) added -> socket p = Some ws)
              /\ (forall ws, socket (send payload p) = Some ws -> socket p = Some ws)).
  { intros payload. unfold send.
    destruct (socket p) as [held|] eqn:Es.
    2:{ exists []. rewrite app_nil_r.
        split; [reflexivity|]. split; [intros ws []|]. split; [intros ws text []|].
        cbn. rewrite Es. auto. }
    destruct (State.wsStatus (state (world p))).
    1,2: exists []; rewrite app_nil_r;
         (split; [reflexivity|]); (split; [intros ws []|]);
         (split; [intros ws text []|]); cbn; rewrite Es; auto.
    exists [Ws.send held (JSON_stringify payload)].
    assert (Hin : forall ws text,
              In (Ws.send ws text) [Ws.send held (JSON_stringify payload)] ->
              Some held = Some ws).
    { intros ws text [H|[]]. injection H as -> _. reflexivity. }
    destruct (WebSocket_send _ _ _);
      [|destruct (nullish payload); [|destruct (to_string _)]]; cbn; rewrite Es;
      (split; [reflexivity|]); (split; [intros ws [H|[]]; discriminate H|]);
      (split; [exact Hin | auto]). }
  assert (Hclose :
            exists added,
              ws_calls (closeWebSocket p) = ws_calls p ++ added
              /\ (forall ws, In (Ws.close ws) added -> socket p = Some ws)
              /\ (forall ws text, In (Ws.send ws text) added -> socket p = Some ws)
              /\ socket (closeWebSocket p) = None).
  { unfold closeWebSocket. destruct (socket p) as [held|].
    - exists [Ws.close held]. cbn. split; [reflexivity|].
      split; [intros ws [H|[]]; injection H as ->; reflexivity|].
      split; [intros ws text [H|[]]; discriminate H | reflexivity].
    - exists []. cbn. rewrite app_nil_r. split; [reflexivity|].
      split; [intros ws []|]. split; [intros ws text [] | reflexivity]. }
  assert (Hopen :
            exists added,
              ws_calls (openWebSocket p) = ws_calls p ++ added
              /\ (forall ws, In (Ws.close ws) added -> socket p = Some ws)
              /\ (forall ws text, In (Ws.send ws text) added -> socket p = Some ws)
              /\ socket (openWebSocket p) = None).
  { unfold openWebSocket, closeWebSocket. cbn.
    destruct (WebSocket_new _); destruct (socket p) as [held|]; cbn.
    - exists [Ws.close held]. split; [reflexivity|].
      split; [intros ws [H|[]]; injection H as ->; reflexivity|].
      split; [intros ws text [H|[]]; discriminate H | reflexivity].
    - exists []. rewrite app_nil_r. split; [reflexivity|].
      split; [intros ws []|]. split; [intros ws text [] | reflexivity].
    - eexists [Ws.close held; _]. rewrite <- app_assoc. split; [reflexivity|].
      split; [intros ws [H|[H|[]]]; [injection H as ->; reflexivity | discriminate H]|].
      split; [intros ws text [H|[H|[]]]; discriminate H | reflexivity].
    - eexists [_]. split; [reflexivity|].
      split; [intros ws [H|[]]; discriminate H|].
      split; [intros ws text [H|[]]; discriminate H | reflexivity]. }
  destruct e; simpl;
    try (unfold of_socket; destruct (Nat.ltb ws (ws_count p)));
    try (apply Hnone; [reflexivity | cbn; auto]; fail).
  - (* a click *)
    unfold click. destruct (button_disabled _ b); [apply Hnone; auto|].
    destruct b; simpl.
    + destruct (is_connected _);
        [destruct Hclose as (added & H1 & H2 & H3 & H4)
        |destruct Hopen as (added & H1 & H2 & H3 & H4)];
        exists added; repeat split; try assumption;
        intros ws E; rewrite H4 in E; discriminate E.
    + destruct (Hsend (VObj [("type", VStr "GET_SCENE")])) as (added & H1 & H2 & H3 & H4).
      exists added. repeat split; auto.
    + destruct (Hsend (VObj [("type", VStr "START_PHYSICS")])) as (added & H1 & H2 & H3 & H4).
      exists added. repeat split; auto.
    + destruct (Hsend (VObj [("type", VStr "STOP_PHYSICS")])) as (added & H1 & H2 & H3 & H4).
      exists added. repeat split; auto.
    + unfold handleSendScene. destruct (JSON_parse _) as [x|parsed].
      * apply Hnone; [reflexivity | cbn; auto].
      * destruct (Hsend (VObj [("type", VStr "START"); ("scene", parsed);
                               ("layerName", VStr (State.layerId (state (world p))))]))
          as (added & H1 & H2 & H3 & H4).
        exists added. repeat split; auto.
  - (* the open event of a socket the component constructed *)
    apply Hnone; [reflexivity|]. cbn. intros ws' E. injection E as <-. right. reflexivity.
  - apply Hnone; [reflexivity|]. cbn. discriminate.
Qed.

Lemma page_run_snoc events e p :
  page_run (events ++ [e]) p = page_step (page_run events p) e.
Proof. unfold page_run. rewrite fold_left_app. reflexivity. Qed.

Lemma calls_on_opened events : forall p0,
  socket p0 = None ->
  (forall ws, socket (page_run events p0) = Some ws -> In (SocketOpened ws) events)
  /\ (forall ws, In (Ws.close ws) (ws_calls (page_run events p0)) ->
                 In (Ws.close ws) (ws_calls p0) \/ In (SocketOpened ws) events)
  /\ (forall ws text, In (Ws.send ws text) (ws_calls (page_run events p0)) ->
                      In (Ws.send ws text) (ws_calls p0) \/ In (SocketOpened ws) events).
Proof.
  induction events as [|e events IH] using rev_ind; intros p0 H0.
  - simpl. rewrite H0. repeat split; try discriminate; auto.
  - rewrite page_run_snoc.
    destruct (IH p0 H0) as (Hheld & Hclose & Hsend).
    destruct (page_step_calls (page_run events p0) e) as (added & Hc & Ha & Hb & Hs).
    rewrite Hc. repeat split.
    + intros ws E. apply in_or_app. destruct (Hs ws E) as [H| ->].
      * left. apply Hheld, H.
      * right. left. reflexivity.
    + intros ws Hin. apply in_app_or in Hin as [Hin|Hin].
      * destruct (Hclose ws Hin) as [H|H]; [left; exact H|].
        right. apply in_or_app. left. exact H.
      * right. apply in_or_app. left. apply Hheld, Ha, Hin.
    + intros ws text Hin. apply in_app_or in Hin as [Hin|Hin].
      * destruct (Hsend ws text Hin) as [H|H]; [left; exact H|].
        right. apply in_or_app. left. exact H.
      * right. apply in_or_app. left. apply Hheld, (Hb ws text), Hin.
Qed.

End Targets.

(** X19. The component calls [close] and [send] only on sockets it has seen
    open.  Starting from a page that holds no socket, after any sequence of
    events every [close] and every [send] the component has made since is on
    a socket whose open event is among the events.  (So a socket that is
    still connecting when Connect is clicked again is constructed and never
    closed.) *)
Theorem calls_target_opened_sockets :
  forall (host : Host) (browser : Browser) (p0 : Page) (events : list ui) (ws : nat),
    socket p0 = None ->
    let p := page_run events p0 in
    (In (Ws.close ws) (ws_calls p) ->
     In (Ws.close ws) (ws_calls p0) \/ In (SocketOpened ws) events)
    /\ (forall text,
          In (Ws.send ws text) (ws_calls p) ->
          In (Ws.send ws text) (ws_calls p0) \/ In (SocketOpened ws) events).
Proof.
  intros host browser p0 events ws H0 p.
  destruct (calls_on_opened events p0 H0) as (_ & Hclose & Hsend).
  split; [apply Hclose | apply Hsend].
Qed.

(** Connect is clicked twice before the first socket opens, the second
    socket opens and the button is clicked once more: the second socket is
    closed, the first, which never opened, is not. *)
Lemma calls_target_opened_sockets_witness :
  let events := [Click ConnectButton; Click ConnectButton; SocketOpened 1;
                 Click ConnectButton] in
  let p := page_run (host := Demo.toy_host) (browser := DemoPage.toy_browser)
             events DemoPage.demo_page in
  ws_calls p
  = [Ws.construct "ws://localhost:5000" 0; Ws.construct "ws://localhost:5000" 1;
     Ws.close 1]
  /\ ~ In (Ws.close 0) (ws_calls p).
Proof.
  intros events p. split; [reflexivity|].
  intros Hin.
  destruct (calls_target_opened_sockets Demo.toy_host DemoPage.toy_browser
              DemoPage.demo_page events 0 eq_refl) as [Hclose _].
  destruct (Hclose Hin) as [[]|H].
  repeat (destruct H as [H|H]; [discriminate H|]). exact H.
Defined.

(** *** Coalescing and the tolerated formats *)

Section Coalescing.

Context {host : Host}.

(** A flush of a buffer that holds one update, for an object it resolves
    to and whose layer it matches. *)
Lemma flushPending_single key merged w r :
  iso w <> None ->
  pending w = [(key, merged)] ->
  fst (resolveObject key w) = Some r ->
  layer_mismatch (effective_layer merged (State.layerId (state w)))
    (object_layer (heap w) r) = false ->
  tolerated merged = true ->
  exists w1 w2,
    applyOneUpdateTo r merged w1 = Returned w2
    /\ heap w1 = heap w
    /\ flushPending w
       = Returned (log "Applied 1 transform"
                     (call Iso.renderScene (with_pending [] w2))).
Proof.
  intros Hi Hp Hr Hl Ht.
  destruct (resolveObject key w) as [found w1] eqn:Er. simpl in Hr. subst found.
  pose proof (resolveObject_heap key w) as [Hheap _]. rewrite Er in Hheap. simpl in Hheap.
  pose proof (same_frame_resolveObject key w) as (_ & _ & _ & _ & _ & Hlid).
  rewrite Er in Hlid. simpl in Hlid.
  destruct (applyOneUpdateTo_returns r merged w1 Ht) as [w2 Ha].
  exists w1, w2. split; [exact Ha|]. split; [exact Hheap|].
  unfold flushPending.
  destruct (iso w); [|contradiction].
  rewrite Hp. cbv zeta. unfold flush_loop, flush_step. rewrite Er. cbv iota.
  rewrite Hheap, Hl, Ha. reflexivity.
Qed.

(** The buffer after two one-update batches for one key, starting empty. *)
Lemma pending_two_batches fs1 fs2 d1 d2 w :
  pending w = [] ->
  nullish (update_key fs1) = false ->
  key_of (update_key fs1) <> None ->
  update_key fs2 = update_key fs1 ->
  exists merged,
    pending (enqueuePhysics (VArr [VObj fs2]) d2
               (enqueuePhysics (VArr [VObj fs1]) d1 w))
    = [(update_key fs1, merged)]
    /\ prop "layerId" merged = prop "layerId" fs2 ?? d2
    /\ forall f, f <> "id" -> f <> "name" -> f <> "layerId" ->
                 prop f merged = if has_own f fs2 then prop f fs2 else prop f fs1.
Proof.
  intros Hp Hk Hprim Hsame.
  assert (Hc1 : collect (VArr [VObj fs1]) d1 = Some [array_entry (VObj fs1) d1]).
  { simpl. fold (update_key fs1). rewrite Hk. reflexivity. }
  assert (Hc2 : collect (VArr [VObj fs2]) d2 = Some [array_entry (VObj fs2) d2]).
  { simpl. fold (update_key fs2). rewrite Hsame, Hk. reflexivity. }
  rewrite (pending_enqueuePhysics _ _ _ _ Hc2), (pending_enqueuePhysics _ _ _ _ Hc1), Hp.
  simpl. unfold merge_update at 2. cbv zeta.
  set (u1 := array_entry (VObj fs1) d1).
  set (u2 := array_entry (VObj fs2) d2).
  assert (Hk1 : prop "id" u1 ?? prop "name" u1 = update_key fs1).
  { unfold u1. rewrite !prop_array_entry. reflexivity. }
  assert (Hk2 : prop "id" u2 ?? prop "name" u2 = update_key fs1).
  { unfold u2. rewrite !prop_array_entry. exact Hsame. }
  rewrite Hk1. simpl map_get. simpl map_set.
  set (m1 := spread (spread [] (VObj [("id", prop "id" u1); ("name", prop "name" u1)]))
               (VObj u1)).
  unfold merge_update. cbv zeta. rewrite Hk2. simpl.
  rewrite (same_value_zero_refl _ Hprim).
  eexists. split; [reflexivity|]. split.
  - rewrite prop_overlay. unfold u2. rewrite has_own_array_entry, prop_array_entry.
    reflexivity.
  - intros f H1 H2 H3. rewrite prop_overlay. unfold u2.
    rewrite has_own_array_entry, prop_array_entry.
    destruct (String.eqb_spec "layerId" f) as [E|_]; [congruence|]. simpl.
    destruct (has_own f fs2); [reflexivity|].
    unfold m1, u1. rewrite prop_first_buffered by assumption.
    destruct (String.eqb_spec "layerId" f) as [E|_]; [congruence | reflexivity].
Qed.

End Coalescing.

Section Coalesced.

Context {host : Host}.

(** [resolveObject] finds what the index, the IsoCard instance and the
    scene objects decide. *)
Lemma resolveObject_agree k w w0 :
  objectIndex w = objectIndex w0 -> iso w = iso w0 -> heap w = heap w0 ->
  fst (resolveObject k w) = fst (resolveObject k w0).
Proof.
  intros Hx Hi Hh.
  assert (Hs : getThreeScene w = getThreeScene w0).
  { unfold getThreeScene. rewrite Hi. reflexivity. }
  unfold resolveObject. rewrite Hx, Hs, Hh.
  destruct (map_get k (objectIndex w0)); [reflexivity|].
  destruct (getThreeScene w0) as [scene|] eqn:Es; [|reflexivity].
  match goal with |- context [match ?f with Some _ => _ | None => _ end] => destruct f end;
    [reflexivity|].
  simpl.
  rewrite (objectIndex_rebuildObjectIndex w scene Hs),
          (objectIndex_rebuildObjectIndex w0 scene Es), Hi, Hh.
  reflexivity.
Qed.

Lemma enqueuePhysics_scene objects d w :
  objectIndex (enqueuePhysics objects d w) = objectIndex w
  /\ iso (enqueuePhysics objects d w) = iso w
  /\ heap (enqueuePhysics objects d w) = heap w
  /\ state (enqueuePhysics objects d w) = state w
  /\ iso_calls (enqueuePhysics objects d w) = iso_calls w.
Proof.
  unfold enqueuePhysics. destruct (collect objects d); [|repeat split].
  cbn. destruct (rafHandle w); repeat split.
Qed.

End Coalesced.

(** *** Dispatch of a parsed message *)

Section Dispatch.

Context {host : Host}.





End Dispatch.



(** X20. Coalescing goes field by field, not format by format.  Two
    one-update batches for the same key arrive before a frame, for an object
    the key resolves to and whose layer the second does not mismatch; the
    orientation fields of both are made of values that convert to
    primitives, as the numbers [OneUpdate] declares do.  The frame applies
    their overlay, in which each field is the newer update's when it has the
    field and the older one's otherwise.  So the object is put at
    [position] when either update gives one (the newer first; keeping its
    [z] when that [position] has none) and at [pos] only otherwise: a
    [position] of the older update prevails over a [pos] of the newer; and a
    [rotation] of either update (the newer first) decides the quaternion,
    whatever [rot] or [eulerDeg] the newer carries. *)
Theorem coalescing_is_per_field :
  forall (host : Host) (w : World) (fs1 fs2 : obj) (d1 d2 : value) (r : THREE.ref),
    let key := update_key fs1 in
    let latest := fun f => if has_own f fs2 then prop f fs2 else prop f fs1 in
    let layer := prop "layerId" fs2 ?? d2 ?? VStr (State.layerId (state w)) in
    iso w <> None ->
    pending w = [] ->
    rafHandle w = None ->
    raf_requests w = [] ->
    nullish key = false ->
    key_of key <> None ->
    update_key fs2 = key ->
    fst (resolveObject key w) = Some r ->
    layer_mismatch layer (object_layer (heap w) r) = false ->
    tolerated fs1 = true ->
    tolerated fs2 = true ->
    let o := transform_target (heap w) r in
    let w' := animationFrame
                (enqueuePhysics (VArr [VObj fs2]) d2
                   (enqueuePhysics (VArr [VObj fs1]) d1 w)) in
    THREE.position (heap w' o)
    = (if truthy (latest "position") then
         {| THREE.v_x := js_get (latest "position") "x";
            THREE.v_y := js_get (latest "position") "y";
            THREE.v_z := match js_get (latest "position") "z" with
                         | VUndef => THREE.v_z (THREE.position (heap w o))
                         | _ => js_get (latest "position") "z"
                         end |}
       else if truthy (latest "pos") then
         {| THREE.v_x := js_index (latest "pos") 0;
            THREE.v_y := js_index (latest "pos") 1;
            THREE.v_z := js_index (latest "pos") 2 |}
       else THREE.position (heap w o))
    /\ (truthy (latest "rotation") = true ->
        THREE.quaternion (heap w' o)
        = {| THREE.q_x := js_get (latest "rotation") "x";
             THREE.q_y := js_get (latest "rotation") "y";
             THREE.q_z := js_get (latest "rotation") "z";
             THREE.q_w := js_get (latest "rotation") "w" |})
    /\ pending w' = [].
Proof.
  intros host w fs1 fs2 d1 d2 r key latest layer
         Hi Hp Hh Hq Hkey Hprim Hsame Hr Hl Ht1 Ht2 o w'.
  set (w1 := enqueuePhysics (VArr [VObj fs1]) d1 w) in *.
  set (w2 := enqueuePhysics (VArr [VObj fs2]) d2 w1) in *.
  destruct (pending_two_batches fs1 fs2 d1 d2 w Hp Hkey Hprim Hsame)
    as (merged & Hpend & Hlayer & Hprop).
  fold w1 w2 key in Hpend.
  assert (Hlatest : forall f, f <> "id" -> f <> "name" -> f <> "layerId" ->
                              prop f merged = latest f).
  { exact Hprop. }
  (* the frame request *)
  assert (Hc1 : collect (VArr [VObj fs1]) d1 = Some [array_entry (VObj fs1) d1]).
  { simpl. fold (update_key fs1). fold key. rewrite Hkey. reflexivity. }
  pose proof (enqueuePhysics_raf (VArr [VObj fs1]) d1 w) as Hraf1.
  rewrite Hc1, Hh in Hraf1. fold w1 in Hraf1. destruct Hraf1 as [Hh1 Hq1].
  rewrite Hq in Hq1. simpl in Hq1.
  pose proof (enqueuePhysics_raf (VArr [VObj fs2]) d2 w1) as Hraf2.
  rewrite Hh1 in Hraf2. fold w2 in Hraf2.
  assert (Hq2 : raf_requests w2 = [raf_next w]).
  { destruct (collect (VArr [VObj fs2]) d2); destruct Hraf2 as [_ ->]; exact Hq1. }
  set (wf := with_rafHandle None (with_raf_requests [] w2)).
  assert (Hframe : w' = world_after (flushPending wf)).
  { unfold w', animationFrame. rewrite Hq2. reflexivity. }
  (* what the flush starts from *)
  destruct (enqueuePhysics_scene (VArr [VObj fs1]) d1 w) as (Hx1 & Hi1 & Hheap1 & Hs1 & _).
  destruct (enqueuePhysics_scene (VArr [VObj fs2]) d2 w1) as (Hx2 & Hi2 & Hheap2 & Hs2 & _).
  fold w1 in Hx1, Hi1, Hheap1, Hs1, Hx2, Hi2, Hheap2, Hs2.
  fold w2 in Hx2, Hi2, Hheap2, Hs2.
  assert (Hxf : objectIndex wf = objectIndex w) by (transitivity (objectIndex w2); [reflexivity | congruence]).
  assert (Hif : iso wf = iso w) by (transitivity (iso w2); [reflexivity | congruence]).
  assert (Hhf : heap wf = heap w) by (transitivity (heap w2); [reflexivity | congruence]).
  assert (Hsf : state wf = state w) by (transitivity (state w2); [reflexivity | congruence]).
  assert (Hpf : pending wf = [(key, merged)]) by exact Hpend.
  assert (Hrf : fst (resolveObject key wf) = Some r).
  { rewrite (resolveObject_agree key wf w Hxf Hif Hhf). exact Hr. }
  assert (Htol : tolerated merged = true).
  { unfold tolerated. rewrite !Hlatest by discriminate. unfold latest.
    unfold tolerated in Ht1, Ht2.
    repeat match goal with
           | H : _ && _ = true |- _ => apply andb_prop in H as [? ?]
           end.
    destruct (has_own "rotation" fs2), (has_own "rot" fs2),
             (has_own "eulerDeg" fs2);
      repeat match goal with
             | H : _ = true |- _ => rewrite H
             end; reflexivity. }
  assert (Hlf : layer_mismatch (effective_layer merged (State.layerId (state wf)))
                  (object_layer (heap wf) r) = false).
  { unfold effective_layer. rewrite Hlayer, Hsf, Hhf. exact Hl. }
  assert (Hiff : iso wf <> None) by (rewrite Hif; exact Hi).
  destruct (flushPending_single key merged wf r Hiff Hpf Hrf Hlf Htol)
    as (wa & wb & Ha & Hheapa & Hflush).
  rewrite Hframe, Hflush. simpl.
  assert (Hha : heap wa = heap w) by congruence.
  pose proof (applyOneUpdateTo_position r merged wa) as Hpos.
  rewrite Ha in Hpos. cbv zeta in Hpos. rewrite Hha in Hpos. fold o in Hpos.
  split; [|split; [|reflexivity]].
  - rewrite Hpos. unfold position_of_update.
    rewrite !Hlatest by discriminate. reflexivity.
  - intros Hrot.
    pose proof (applyOneUpdateTo_quaternion_either r merged wa
                  {| THREE.q_x := js_get (latest "rotation") "x";
                     THREE.q_y := js_get (latest "rotation") "y";
                     THREE.q_z := js_get (latest "rotation") "z";
                     THREE.q_w := js_get (latest "rotation") "w" |}) as Hquat.
    cbv zeta in Hquat. rewrite Ha, Hha in Hquat. apply Hquat.
    unfold apply_orientation, write_quaternion.
    rewrite (Hlatest "rotation") by discriminate. rewrite Hrot.
    destruct (THREE.Quaternion_convertible _); apply quaternion_set_quaternion.
Qed.

(** The ball is sent a [position], then, before the next frame, a [pos]:
    the frame puts it at the [position]. *)
Lemma coalescing_is_per_field_witness :
  let first := [("name", VStr "ball");
                ("position", VObj [("x", VNum 1); ("y", VNum 1); ("z", VNum 1)])]%float in
  let second := [("name", VStr "ball"); ("pos", VArr [VNum 2; VNum 2; VNum 2])]%float in
  let w' := animationFrame (host := Demo.toy_host)
              (enqueuePhysics (VArr [VObj second]) VUndef
                 (enqueuePhysics (VArr [VObj first]) VUndef Demo.demo_world)) in
  THREE.position (heap w' 1)
  = {| THREE.v_x := VNum 1%float; THREE.v_y := VNum 1%float;
       THREE.v_z := VNum 1%float |}.
Proof.
  intros first second w'.
  destruct (coalescing_is_per_field Demo.toy_host Demo.demo_world first second
              VUndef VUndef 1) as (Hpos & _);
    [..| exact Hpos]; first [reflexivity | discriminate].
Defined.
